(** * Dyad: the managed-connection and model-routing core

    A shallow embedding of
    - [src/ipc/utils/mcp_manager.ts]       (the MCP connection manager),
    - [src/ipc/utils/gemini_cli_detector.ts] and
      [src/ipc/utils/codex_cli_detector.ts]  (the executable locators),
    - [src/ipc/utils/gemini_cli_provider.ts] and
      [src/ipc/utils/codex_cli_provider.ts]  (the protocol bridges),
    - [src/ipc/utils/get_model_client.ts]    (the routing / fallback logic),
    followed by the properties the specification states about them and by
    further properties of the same code.

    Conventions.  A JavaScript string is a [string] (a sequence of code
    units below 256); [toLowerCase] and [trim] act on the ASCII range.  A
    JavaScript number that the code only uses as an integer (a server id, a
    token count, a timestamp) is a [Z].  Platform services the code calls but
    does not define ([JSON.parse], [JSON.stringify], [new URL], the process
    runner, the file-system access check, the environment) are section
    variables.  Logging calls are left out: they neither read nor write the
    state the properties are about. *)

From Stdlib Require Import ZArith Bool List Ascii String Lia.
From Stdlib Require Import Numbers.DecimalString.
From stdpp Require Import base option list gmap.
Import ListNotations.

Local Open Scope list_scope.
Local Open Scope string_scope.

(* ===================================================================== *)
(** * Part I: the embedding                                               *)
(* ===================================================================== *)

(** ** JavaScript values and string primitives *)

Module Js.

(** [String.prototype.toLowerCase], on the letters A-Z. *)
Definition lower_ascii (c : ascii) : ascii :=
  let n := nat_of_ascii c in
  if (65 <=? n)%nat && (n <=? 90)%nat then ascii_of_nat (n + 32) else c.

Fixpoint toLowerCase (s : string) : string :=
  match s with
  | EmptyString => EmptyString
  | String c r => String (lower_ascii c) (toLowerCase r)
  end.

(** [s.startsWith(t)] and [s.includes(t)]. *)
Fixpoint startsWith (s t : string) {struct t} : bool :=
  match t, s with
  | EmptyString, _ => true
  | String _ _, EmptyString => false
  | String b t', String a s' => Ascii.eqb a b && startsWith s' t'
  end.

Fixpoint includes (s t : string) : bool :=
  startsWith s t ||
  match s with
  | EmptyString => false
  | String _ r => includes r t
  end.

(** White space removed by [trim], among the code units below 256: TAB,
    LF, VT, FF, CR, SPACE and the no-break space. *)
Definition is_space (c : ascii) : bool :=
  let n := nat_of_ascii c in
  ((9 <=? n)%nat && (n <=? 13)%nat) || (n =? 32)%nat || (n =? 160)%nat.

Fixpoint trimStart (s : string) : string :=
  match s with
  | EmptyString => EmptyString
  | String c r => if is_space c then trimStart r else s
  end.

Fixpoint trimEnd (s : string) : string :=
  match s with
  | EmptyString => EmptyString
  | String c r =>
      match trimEnd r with
      | EmptyString => if is_space c then EmptyString else String c EmptyString
      | t => String c t
      end
  end.

Definition trim (s : string) : string := trimEnd (trimStart s).

(** [s.split(/\r?\n/)]: a line ends at LF or at CR LF. *)
Fixpoint splitLines (s : string) : list string :=
  match s with
  | EmptyString => [EmptyString]
  | String c r =>
      if Ascii.eqb c "010" then EmptyString :: splitLines r
      else
        match r with
        | String d r' =>
            if Ascii.eqb c "013" && Ascii.eqb d "010"
            then EmptyString :: splitLines r'
            else match splitLines r with
                 | l :: ls => String c l :: ls
                 | [] => [String c EmptyString]
                 end
        | EmptyString => [String c EmptyString]
        end
  end.

(** [s.split("\n")]. *)
Fixpoint splitNewline (s : string) : list string :=
  match s with
  | EmptyString => [EmptyString]
  | String c r =>
      if Ascii.eqb c "010" then EmptyString :: splitNewline r
      else match splitNewline r with
           | l :: ls => String c l :: ls
           | [] => [String c EmptyString]
           end
  end.

(** [xs.join(sep)] on an array of strings. *)
Fixpoint join (sep : string) (xs : list string) : string :=
  match xs with
  | [] => EmptyString
  | [x] => x
  | x :: rest => x ++ sep ++ join sep rest
  end.

(** The one-character strings for a line feed and a backslash. *)
Definition LF : string := String "010" EmptyString.
Definition BACKSLASH : string := String "092" EmptyString.

(** A string in a boolean position: the empty string is falsy. *)
Definition truthy_str (s : string) : bool :=
  match s with EmptyString => false | _ => true end.

(** An optional ([string | null | undefined]) string in a boolean position. *)
Definition truthy_opt (o : option string) : bool :=
  match o with Some s => truthy_str s | None => false end.

(** A template-literal rendering of an integer number (of a magnitude
    below 10^21, from which on JavaScript prints an exponent). *)
Definition show (n : Z) : string := NilZero.string_of_int (Z.to_int n).

(** The values [JSON.parse] produces. *)
#[local] Set Warnings "-register-all".
Inductive JSON : Type :=
| JNull
| JBool (b : bool)
| JNumber (n : Z)
| JString (s : string)
| JArray (items : list JSON)
| JObject (fields : list (string * JSON)).

(** An object is its own properties in enumeration order, keys distinct
    (where a document repeats a key, [JSON.parse] keeps the last value).
    [v.k] on a parsed value; [None] is [undefined].  Only objects carry
    the keys this code reads. *)
Fixpoint assoc (k : string) (fields : list (string * JSON)) : option JSON :=
  match fields with
  | [] => None
  | (k', v) :: rest => if String.eqb k k' then Some v else assoc k rest
  end.

Definition prop (v : JSON) (k : string) : option JSON :=
  match v with
  | JObject fields => assoc k fields
  | _ => None
  end.

(** [v?.k] where [v] may itself be [undefined] or [null]. *)
Definition oprop (v : option JSON) (k : string) : option JSON :=
  match v with
  | Some w => prop w k
  | None => None
  end.

(** [typeof v === "string"], returning the string. *)
Definition as_string (v : option JSON) : option string :=
  match v with Some (JString s) => Some s | _ => None end.

(** [Array.isArray(v)], returning the elements. *)
Definition as_array (v : option JSON) : option (list JSON) :=
  match v with Some (JArray l) => Some l | _ => None end.

(** A numeric field; [null], [undefined] are [None] (what [??] tests). *)
Definition as_number (v : option JSON) : option Z :=
  match v with Some (JNumber n) => Some n | _ => None end.

(** A value in a boolean position. *)
Definition truthy (v : option JSON) : bool :=
  match v with
  | None | Some JNull => false
  | Some (JBool b) => b
  | Some (JNumber n) => negb (n =? 0)%Z
  | Some (JString s) => truthy_str s
  | Some (JArray _) | Some (JObject _) => true
  end.

(** The string an array element contributes to [Array.prototype.join]. *)
Fixpoint toString (v : JSON) : string :=
  match v with
  | JNull => EmptyString
  | JBool true => "true"
  | JBool false => "false"
  | JNumber n => show n
  | JString s => s
  | JArray items => join "," (List.map toString items)
  | JObject _ => "[object Object]"
  end.

(** [s.split(sep)[0]] for a non-empty [sep]: what comes before the first
    occurrence of [sep], or all of [s]. *)
Fixpoint before (sep s : string) : string :=
  if startsWith s sep then EmptyString
  else match s with
       | EmptyString => EmptyString
       | String c r => String c (before sep r)
       end.

(** [s.endsWith(t)]. *)
Fixpoint endsWith (s t : string) : bool :=
  String.eqb s t ||
  match s with
  | EmptyString => false
  | String _ r => endsWith r t
  end.

(** [\d]: the digits 0-9. *)
Definition is_digit (c : ascii) : bool :=
  let n := nat_of_ascii c in (48 <=? n)%nat && (n <=? 57)%nat.

(** The longest run of digits a string starts with, and what follows. *)
Fixpoint take_digits (s : string) : string * string :=
  match s with
  | EmptyString => (EmptyString, EmptyString)
  | String c r =>
      if is_digit c
      then let '(d, rest) := take_digits r in (String c d, rest)
      else (EmptyString, s)
  end.

(** A match of [/(\d+\.\d+\.\d+)/] that starts at the head of the string.
    Each [\d+] is greedy and is followed by a literal dot or by nothing, so
    it takes a whole run of digits. *)
Definition semver_at (s : string) : option string :=
  let '(a, r1) := take_digits s in
  if negb (truthy_str a) then None
  else match r1 with
       | String c1 r2 =>
           if negb (Ascii.eqb c1 ".") then None
           else
             let '(b, r3) := take_digits r2 in
             if negb (truthy_str b) then None
             else match r3 with
                  | String c2 r4 =>
                      if negb (Ascii.eqb c2 ".") then None
                      else
                        let '(c, _) := take_digits r4 in
                        if negb (truthy_str c) then None
                        else Some (a ++ "." ++ b ++ "." ++ c)
                  | EmptyString => None
                  end
       | EmptyString => None
       end.

(** [s.match(/(\d+\.\d+\.\d+)/)?.[1]]: the leftmost match. *)
Fixpoint match_semver (s : string) : option string :=
  match semver_at s with
  | Some v => Some v
  | None =>
      match s with
      | EmptyString => None
      | String _ r => match_semver r
      end
  end.

End Js.

(** ** The connection manager: [mcp_manager.ts] *)

Module McpManager.

(** [MCP_CLIENT_INIT_TIMEOUT_MS]. *)
Definition MCP_CLIENT_INIT_TIMEOUT_MS : Z := 30000.

(** A thrown [Error], by its message. *)
Definition Error := string.

(** An [experimental_MCPClient] object.  [close_throws] is what a call of
    its [close()] method does: return, or throw the given error. *)
Record Client := mkClient {
  client_handle : nat;
  close_throws : option Error;
}.

(** Modelled from the spec: the declaration of the [mcpServers] table
    ([db/schema]) is not among the sources.  A row has the columns the
    manager reads; the spec gives a server a transport kind and either a
    command with arguments and environment or a url, and the code treats
    every column but the id and the kind as possibly missing. *)
Record ServerRow := mkServerRow {
  row_id : Z;
  row_transport : string;
  row_command : option string;
  row_args : option (list string);
  row_envJson : option (list (string * string));
  row_url : option string;
}.

Inductive Transport :=
| StdioClientTransport (command : string) (args : list string)
                       (env : option (list (string * string)))
| StreamableHTTPClientTransport (url : string).

(** How a promise settles. *)
Inductive Outcome :=
| Resolved (c : Client)
| Rejected (e : Error).

(** Which side of [Promise.race([clientPromise, timeoutPromise])] settles
    first. *)
Inductive RaceWinner :=
| ClientCreated (c : Client)
| ClientFailed (e : Error)
| TimerFired.

(** Where a call of [initializeClient] stands: suspended at the database
    query, suspended at the race, or finished (its promise is settled). *)
Inductive Phase :=
| AwaitingDb
| AwaitingRace (t : Transport)
| Settled (o : Outcome).

(** One call of [initializeClient] and the promise it returned.
    [att_owner] holds while the [getClient] activation that started it is
    suspended at [await initPromise]. *)
Record Attempt := mkAttempt {
  att_server : Z;
  att_phase : Phase;
  att_owner : bool;
}.

(** What the manager does to the outside world, in order. *)
Inductive Effect :=
| EInitializeClient (serverId : Z) (p : nat)
| EDbSelect (serverId : Z)
| ECreateMCPClient (serverId : Z) (t : Transport)
| ESetTimeout (serverId : Z) (ms : Z)
| EClose (c : Client).

(** The singleton's fields, the promises handed out so far (a promise is
    its index in [attempts]) and the effects so far (latest first). *)
Record Mgr := mkMgr {
  clients : gmap Z Client;
  initializingClients : gmap Z nat;
  attempts : list Attempt;
  trace : list Effect;
}.

Definition empty : Mgr := mkMgr ∅ ∅ [] [].

(** Synchronous manager code: it may throw and it updates the state. *)
Inductive Result (A : Type) :=
| Ok (a : A)
| Throw (e : Error).
Arguments Ok {A} a.
Arguments Throw {A} e.

Definition M (A : Type) : Type := Mgr → Result A * Mgr.

Definition ret {A} (a : A) : M A := λ s, (Ok a, s).
Definition throw {A} (e : Error) : M A := λ s, (Throw e, s).
Definition bind {A B} (m : M A) (k : A → M B) : M B :=
  λ s, match m s with
       | (Ok a, s') => k a s'
       | (Throw e, s') => (Throw e, s')
       end.
Definition gets {A} (f : Mgr → A) : M A := λ s, (Ok (f s), s).
Definition modify (f : Mgr → Mgr) : M unit := λ s, (Ok tt, f s).

(** [try { body } catch (error) { handler }]. *)
Definition try_catch {A} (body : M A) (handler : Error → M A) : M A :=
  λ s, match body s with
       | (Ok a, s') => (Ok a, s')
       | (Throw e, s') => handler e s'
       end.

(** [try { body } finally { fin }]. *)
Definition try_finally {A} (body : M A) (fin : M unit) : M A :=
  λ s, match body s with
       | (r, s') =>
           match fin s' with
           | (Ok _, s'') => (r, s'')
           | (Throw e, s'') => (Throw e, s'')
           end
       end.

#[global] Instance M_ret : MRet M := @ret.
#[global] Instance M_bind : MBind M := λ A B k m, bind m k.

Definition emit (e : Effect) : M unit :=
  modify (λ s, mkMgr (clients s) (initializingClients s) (attempts s) (e :: trace s)).
Definition clients_set (serverId : Z) (c : Client) : M unit :=
  modify (λ s, mkMgr (<[serverId := c]> (clients s)) (initializingClients s)
                     (attempts s) (trace s)).
Definition clients_delete (serverId : Z) : M unit :=
  modify (λ s, mkMgr (delete serverId (clients s)) (initializingClients s)
                     (attempts s) (trace s)).
Definition initializingClients_set (serverId : Z) (p : nat) : M unit :=
  modify (λ s, mkMgr (clients s) (<[serverId := p]> (initializingClients s))
                     (attempts s) (trace s)).
Definition initializingClients_delete (serverId : Z) : M unit :=
  modify (λ s, mkMgr (clients s) (delete serverId (initializingClients s))
                     (attempts s) (trace s)).

(** [c.close()]. *)
Definition close (c : Client) : M unit :=
  emit (EClose c) ;;
  match close_throws c with
  | Some e => throw e
  | None => ret tt
  end.

(** *** [initializeClient]

    The call itself runs up to [await db.select()...]: it issues the query
    and returns a fresh pending promise. *)
Definition initializeClient_call (serverId : Z) : M nat :=
  p ← gets (λ s, length (attempts s));
  emit (EInitializeClient serverId p) ;;
  emit (EDbSelect serverId) ;;
  modify (λ s, mkMgr (clients s) (initializingClients s)
                     (attempts s ++ [mkAttempt serverId AwaitingDb false])
                     (trace s)) ;;
  ret p.

Section WithURL.
(** [new URL(text)]: the parsed URL, or [None] when the constructor
    throws its [TypeError]. *)
Variable URL_new : string → option string.

(** The code between the query's answer and the race: pick the row,
    check its configuration and build the transport. *)
Definition makeTransport (serverId : Z) (server : list ServerRow)
  : Result Transport :=
  match List.find (λ x, (row_id x =? serverId)%Z) server with
  | None => Throw ("MCP server not found: " ++ Js.show serverId)
  | Some s =>
      if String.eqb (row_transport s) "stdio" then
        let args := default [] (row_args s) in
        let env := row_envJson s in
        match row_command s with
        | Some command =>
            if Js.truthy_str command
            then Ok (StdioClientTransport command args env)
            else Throw "MCP server command is required"
        | None => Throw "MCP server command is required"
        end
      else if String.eqb (row_transport s) "http" then
        match row_url s with
        | Some u =>
            if Js.truthy_str u then
              match URL_new u with
              | Some url => Ok (StreamableHTTPClientTransport url)
              | None => Throw "Invalid URL"
              end
            else Throw "HTTP MCP requires url"
        | None => Throw "HTTP MCP requires url"
        end
      else Throw ("Unsupported MCP transport: " ++ row_transport s)
  end.

Definition set_phase (p : nat) (ph : Phase) : M unit :=
  modify (λ s, mkMgr (clients s) (initializingClients s)
            (alter (λ a, mkAttempt (att_server a) ph (att_owner a)) p (attempts s))
            (trace s)).

Definition set_owner (p : nat) (b : bool) : M unit :=
  modify (λ s, mkMgr (clients s) (initializingClients s)
            (alter (λ a, mkAttempt (att_server a) (att_phase a) b) p (attempts s))
            (trace s)).

(** [initializeClient] resumed with the query's rows: either it throws
    (its promise rejects) or it creates the client promise and the timer
    and suspends at the race. *)
Definition initializeClient_afterDb (serverId : Z) (p : nat)
    (server : list ServerRow) : M unit :=
  match makeTransport serverId server with
  | Throw e => set_phase p (Settled (Rejected e))
  | Ok transport =>
      emit (ECreateMCPClient serverId transport) ;;
      emit (ESetTimeout serverId MCP_CLIENT_INIT_TIMEOUT_MS) ;;
      set_phase p (AwaitingRace transport)
  end.

Definition timeout_message (serverId : Z) : Error :=
  "MCP client initialization timeout for server " ++ Js.show serverId
  ++ " after " ++ Js.show MCP_CLIENT_INIT_TIMEOUT_MS ++ "ms".

(** [initializeClient] resumed with the race's result. *)
Definition race_outcome (serverId : Z) (w : RaceWinner) : Outcome :=
  match w with
  | ClientCreated c => Resolved c
  | ClientFailed e => Rejected e
  | TimerFired => Rejected (timeout_message serverId)
  end.

Definition initializeClient_afterRace (serverId : Z) (p : nat)
    (w : RaceWinner) : M unit :=
  set_phase p (Settled (race_outcome serverId w)).

(** *** [getClient]

    What a caller holds when the call returns.  [Cached c]: a promise
    already resolved with [c].  [Started p]: the promise of this
    activation, which settles when it resumes after [await initPromise].
    [Joined p]: the in-flight promise [p] itself. *)
Inductive Handle :=
| Cached (c : Client)
| Started (p : nat)
| Joined (p : nat).

(** [getClient] up to its first suspension. *)
Definition getClient_call (serverId : Z) : M Handle :=
  existing ← gets (λ s, clients s !! serverId);
  match existing with
  | Some c => ret (Cached c)
  | None =>
      initializing ← gets (λ s, initializingClients s !! serverId);
      match initializing with
      | Some p => ret (Joined p)
      | None =>
          initPromise ← initializeClient_call serverId;
          initializingClients_set serverId initPromise ;;
          set_owner initPromise true ;;
          ret (Started initPromise)
      end
  end.

(** [getClient] resumed at [await initPromise] with the promise's
    outcome: the [try] body stores and returns the client or rethrows,
    the [finally] block removes the in-flight entry. *)
Definition getClient_resume (serverId : Z) (p : nat) (o : Outcome) : M Client :=
  set_owner p false ;;
  try_finally
    (match o with
     | Resolved client => clients_set serverId client ;; ret client
     | Rejected e => throw e
     end)
    (initializingClients_delete serverId).

(** *** [dispose] *)
Definition dispose (serverId : Z) : M unit :=
  c ← gets (λ s, clients s !! serverId);
  match c with
  | Some c =>
      try_catch (close c) (λ error, ret tt) ;;
      clients_delete serverId
  | None => ret tt
  end ;;
  initializingClients_delete serverId.

(** *** The event loop

    One event is one uninterrupted run of manager code: a call from
    outside, or the resumption of a suspended activation. *)
Inductive Event :=
| CallGetClient (serverId : Z)
| CallDispose (serverId : Z)
| DbReturns (serverId : Z) (p : nat) (rows : list ServerRow)
| RaceSettles (serverId : Z) (p : nat) (w : RaceWinner)
| ResumeGetClient (serverId : Z) (p : nat).

(** What the event's code hands back. *)
Inductive Reply :=
| RHandle (h : Handle)
| RDisposed (r : Result unit)
| RNone
| RFinished (r : Result Client).

Definition result_of (o : Outcome) : Result Client :=
  match o with Resolved c => Ok c | Rejected e => Throw e end.

(** An event is enabled when the activation it resumes is suspended
    where the event says. *)
Definition step (ev : Event) (s : Mgr) : option (Reply * Mgr) :=
  match ev with
  | CallGetClient serverId =>
      match getClient_call serverId s with
      | (Ok h, s') => Some (RHandle h, s')
      | (Throw _, _) => None
      end
  | CallDispose serverId =>
      let '(r, s') := dispose serverId s in Some (RDisposed r, s')
  | DbReturns serverId p rows =>
      match attempts s !! p with
      | Some (mkAttempt sid AwaitingDb _) =>
          if (sid =? serverId)%Z
          then Some (RNone, snd (initializeClient_afterDb serverId p rows s))
          else None
      | _ => None
      end
  | RaceSettles serverId p w =>
      match attempts s !! p with
      | Some (mkAttempt sid (AwaitingRace _) _) =>
          if (sid =? serverId)%Z
          then Some (RNone, snd (initializeClient_afterRace serverId p w s))
          else None
      | _ => None
      end
  | ResumeGetClient serverId p =>
      match attempts s !! p with
      | Some (mkAttempt sid (Settled o) true) =>
          if (sid =? serverId)%Z
          then let '(r, s') := getClient_resume serverId p o s in
               Some (RFinished r, s')
          else None
      | _ => None
      end
  end.

Fixpoint run (evs : list Event) (s : Mgr) : option (list Reply * Mgr) :=
  match evs with
  | [] => Some ([], s)
  | ev :: rest =>
      match step ev s with
      | Some (r, s') =>
          match run rest s' with
          | Some (rs, s'') => Some (r :: rs, s'')
          | None => None
          end
      | None => None
      end
  end.

(** The number of [initializeClient] calls made for a server. *)
Definition is_init (serverId : Z) (e : Effect) : bool :=
  match e with
  | EInitializeClient sid _ => (sid =? serverId)%Z
  | _ => false
  end.
Definition init_count (serverId : Z) (s : Mgr) : nat :=
  length (List.filter (is_init serverId) (trace s)).

(** The number of [experimental_createMCPClient] calls for a server. *)
Definition is_create (serverId : Z) (e : Effect) : bool :=
  match e with
  | ECreateMCPClient sid _ => (sid =? serverId)%Z
  | _ => false
  end.
Definition create_count (serverId : Z) (s : Mgr) : nat :=
  length (List.filter (is_create serverId) (trace s)).

(** The number of timers set for a server's initialization race. *)
Definition is_timer (serverId : Z) (e : Effect) : bool :=
  match e with
  | ESetTimeout sid _ => (sid =? serverId)%Z
  | _ => false
  end.
Definition timer_count (serverId : Z) (s : Mgr) : nat :=
  length (List.filter (is_timer serverId) (trace s)).

(** The outcome of promise [p], once settled. *)
Definition outcome_of (s : Mgr) (p : nat) : option Outcome :=
  match attempts s !! p with
  | Some (mkAttempt _ (Settled o) _) => Some o
  | _ => None
  end.

End WithURL.

(** *** [disposeAll]

    The loop [for (const [serverId] of this.clients)] visits the keys of
    the client map in the order they were inserted; [dispose] deletes only
    the entry being visited.  The map here does not record that order, so
    it is an argument: any duplicate-free list of the keys. *)
Fixpoint disposeAll_loop (order : list Z) : M unit :=
  match order with
  | [] => ret tt
  | serverId :: rest => dispose serverId ;; disposeAll_loop rest
  end.

Definition disposeAll (order : list Z) : M unit := disposeAll_loop order.

(** An order the loop may take in a state. *)
Definition iteration_order (s : Mgr) (order : list Z) : Prop :=
  NoDup order ∧ ∀ k, k ∈ order ↔ is_Some (clients s !! k).

End McpManager.

(** ** The executable locator: [gemini_cli_detector.ts] *)

Module GeminiCliDetector.

Definition DEFAULT_TIMEOUT : Z := 5000.

Definition DEFAULT_PATH_CANDIDATES : list string :=
  [ "gemini";
    "/usr/local/bin/gemini";
    "/opt/homebrew/bin/gemini";
    "/usr/bin/gemini";
    "C:\Program Files\Google\Gemini CLI\gemini.exe";
    "C:\Program Files (x86)\Google\Gemini CLI\gemini.exe" ].

Record DetectGeminiCliOptions := mkOptions {
  explicitPath : option string;
  autoDetect : option bool;
  timeoutMs : option Z;
}.

(** What [runCommand] resolves with. *)
Record CommandResult := mkCommandResult {
  ok : bool;
  stdout : string;
  stderr : string;
}.

(** What [resolveCliPath] resolves with. *)
Record Resolution := mkResolution {
  path : option string;
  error : option string;
}.

(** [GeminiCliInfo]; [authStatus] is always ["unknown"] in this file. *)
Record GeminiCliInfo := mkInfo {
  info_path : option string;
  info_version : option string;
  isAvailable : bool;
  authStatus : string;
  errorMessage : option string;
}.

Section Host.
(** The machine the locator runs on, held fixed during one resolution:
    whether [access(path, X_OK)] succeeds, what a spawned command
    resolves with, the environment and the platform name. *)
Variable access_X_OK : string → bool.
Variable runCommand : string → list string → Z → CommandResult.
Variable getEnvVar : string → option string.
Variable process_env_PATH : option string.
Variable process_platform : string.

Definition ensureExecutable (path : string) : bool := access_X_OK path.

Definition findInPath (binary : string) : option string :=
  let whichCommand :=
    if String.eqb process_platform "win32" then "where" else "which" in
  let result := runCommand whichCommand [binary] DEFAULT_TIMEOUT in
  if ok result then
    match List.map Js.trim (Js.splitNewline (stdout result)) with
    | resolvedPath :: _ =>
        if Js.truthy_str resolvedPath then Some resolvedPath else None
    | [] => None
    end
  else None.

(** The candidate list [resolveCliPath] builds before its loop. *)
Definition candidates (options : DetectGeminiCliOptions) : list string :=
  (match explicitPath options with
   | Some p => if Js.truthy_str p then [p] else []
   | None => []
   end)
  ++ (match getEnvVar "GEMINI_CLI_PATH" with
      | Some envPath => if Js.truthy_str envPath then [envPath] else []
      | None => []
      end)
  ++ (match autoDetect options with
      | Some false => []
      | _ => (if Js.truthy_opt process_env_PATH then "gemini" else EmptyString)
               :: DEFAULT_PATH_CANDIDATES
      end).

(** The command a candidate stands for: itself when it contains a path
    separator, else what the PATH lookup finds. *)
Definition command_of (candidate : string) : option string :=
  if Js.includes candidate "/" || Js.includes candidate Js.BACKSLASH
  then Some candidate
  else findInPath candidate.

(** The [for (const candidate of candidates)] loop. *)
Fixpoint resolve_loop (cands : list string) : Resolution :=
  match cands with
  | [] => mkResolution None (Some "Gemini CLI executable not found")
  | candidate :: rest =>
      if negb (Js.truthy_str candidate) then resolve_loop rest
      else
        match command_of candidate with
        | None => resolve_loop rest
        | Some command =>
            if negb (Js.truthy_str command) then resolve_loop rest
            else if negb (ensureExecutable command) then resolve_loop rest
            else mkResolution (Some command) None
        end
  end.

Definition resolveCliPath (options : DetectGeminiCliOptions) : Resolution :=
  resolve_loop (candidates options).

(** A candidate qualifies when the loop would return at it. *)
Definition qualifies (candidate : string) : option string :=
  if negb (Js.truthy_str candidate) then None
  else match command_of candidate with
       | Some command =>
           if Js.truthy_str command && ensureExecutable command
           then Some command else None
       | None => None
       end.

Definition readVersion (cliPath : string) (timeoutMs : Z) : option string :=
  let result := runCommand cliPath ["--version"] timeoutMs in
  if negb (ok result) then None
  else match Js.match_semver (stdout result) with
       | Some v => Some v
       | None =>
           let trimmed := Js.trim (stdout result) in
           if Js.truthy_str trimmed then Some trimmed else None
       end.

End Host.

End GeminiCliDetector.

(** ** The locator on a host whose process runner can throw

    [spawn] throws, instead of reporting through the [error] event, when
    it is handed a command or an argument with a NUL byte or a timeout
    that is not a non-negative integer; the promise of [runCommand] then
    rejects.  Here [runCommand] answers [inl message] in that case, the
    functions of the locator hand the rejection on, and [detectGeminiCli]
    catches it.  [ensureExecutable] has its own [catch] and stays a
    boolean. *)

Module GeminiCliDetectorFaults.
Import GeminiCliDetector.

Section Host.
Variable access_X_OK : string → bool.
Variable runCommand : string → list string → Z → string + CommandResult.
Variable getEnvVar : string → option string.
Variable process_env_PATH : option string.
Variable process_platform : string.

Definition ensureExecutable (path : string) : bool := access_X_OK path.

Definition findInPath (binary : string) : string + option string :=
  let whichCommand :=
    if String.eqb process_platform "win32" then "where" else "which" in
  match runCommand whichCommand [binary] DEFAULT_TIMEOUT with
  | inl message => inl message
  | inr result =>
      inr (if ok result then
             match List.map Js.trim (Js.splitNewline (stdout result)) with
             | resolvedPath :: _ =>
                 if Js.truthy_str resolvedPath then Some resolvedPath else None
             | [] => None
             end
           else None)
  end.

Definition command_of (candidate : string) : string + option string :=
  if Js.includes candidate "/" || Js.includes candidate Js.BACKSLASH
  then inr (Some candidate)
  else findInPath candidate.

(** The [for (const candidate of candidates)] loop. *)
Fixpoint resolve_loop (cands : list string) : string + Resolution :=
  match cands with
  | [] => inr (mkResolution None (Some "Gemini CLI executable not found"))
  | candidate :: rest =>
      if negb (Js.truthy_str candidate) then resolve_loop rest
      else
        match command_of candidate with
        | inl message => inl message
        | inr None => resolve_loop rest
        | inr (Some command) =>
            if negb (Js.truthy_str command) then resolve_loop rest
            else if negb (ensureExecutable command) then resolve_loop rest
            else inr (mkResolution (Some command) None)
        end
  end.

Definition resolveCliPath (options : DetectGeminiCliOptions)
    : string + Resolution :=
  resolve_loop (candidates getEnvVar process_env_PATH options).

Definition readVersion (cliPath : string) (timeoutMs : Z)
    : string + option string :=
  match runCommand cliPath ["--version"] timeoutMs with
  | inl message => inl message
  | inr result =>
      inr (if negb (ok result) then None
           else match Js.match_semver (stdout result) with
                | Some v => Some v
                | None =>
                    let trimmed := Js.trim (stdout result) in
                    if Js.truthy_str trimmed then Some trimmed else None
                end)
  end.

(** [detectGeminiCli], with its outer [try]/[catch]: a rejection of
    [resolveCliPath] or of [readVersion] is answered with the thrown
    error's message.  The check of the directory has a [catch] of its own
    and only logs. *)
Definition detectGeminiCli (options : DetectGeminiCliOptions) : GeminiCliInfo :=
  let caught (message : string) :=
    mkInfo None None false "unknown" (Some message) in
  let timeoutMs := default DEFAULT_TIMEOUT (timeoutMs options) in
  match resolveCliPath options with
  | inl message => caught message
  | inr r =>
      match path r with
      | Some p =>
          if Js.truthy_str p
          then match readVersion p timeoutMs with
               | inl message => caught message
               | inr version => mkInfo (Some p) version true "unknown" None
               end
          else mkInfo None None false "unknown" (error r)
      | None => mkInfo None None false "unknown" (error r)
      end
  end.

End Host.

End GeminiCliDetectorFaults.

(** ** The Codex executable locator: [codex_cli_detector.ts] *)

Module CodexCliDetector.

Definition DEFAULT_TIMEOUT : Z := 5000.

Definition DEFAULT_PATH_CANDIDATES : list string :=
  [ "codex";
    "openai";
    "/usr/local/bin/codex";
    "/usr/bin/codex";
    "C:\Program Files\OpenAI\codex.exe";
    "C:\Program Files\OpenAI\OpenAI.exe" ].

Record DetectCodexCliOptions := mkOptions {
  explicitPath : option string;
  autoDetect : option bool;
  timeoutMs : option Z;
}.

Record CommandResult := mkCommandResult {
  ok : bool;
  stdout : string;
  stderr : string;
}.

Record Resolution := mkResolution {
  path : option string;
  error : option string;
}.

Record CodexCliInfo := mkInfo {
  info_path : option string;
  info_version : option string;
  isAvailable : bool;
  errorMessage : option string;
}.

(** [runCommand] answers [inl message] when [spawn] throws (a NUL byte
    in the command or an argument, a timeout that is not a non-negative
    integer) and its promise rejects; the functions of the locator hand
    the rejection on, and [detectCodexCli] catches it. *)
Section Host.
Variable access_X_OK : string → bool.
Variable runCommand : string → list string → Z → string + CommandResult.
Variable getEnvVar : string → option string.
Variable process_env_PATH : option string.
Variable process_platform : string.

Definition ensureExecutable (path : string) : bool := access_X_OK path.

Definition findInPath (binary : string) : string + option string :=
  let whichCommand :=
    if String.eqb process_platform "win32" then "where" else "which" in
  match runCommand whichCommand [binary] DEFAULT_TIMEOUT with
  | inl message => inl message
  | inr result =>
      inr (if ok result && Js.truthy_str (stdout result) then
             match List.map Js.trim (Js.splitNewline (stdout result)) with
             | resolvedPath :: _ =>
                 if Js.truthy_str resolvedPath then Some resolvedPath else None
             | [] => None
             end
           else None)
  end.

Definition candidates (options : DetectCodexCliOptions) : list string :=
  (match explicitPath options with
   | Some p => if Js.truthy_str p then [p] else []
   | None => []
   end)
  ++ (match getEnvVar "CODEX_CLI_PATH" with
      | Some envPath => if Js.truthy_str envPath then [envPath] else []
      | None => []
      end)
  ++ (match autoDetect options with
      | Some false => []
      | _ => (if Js.truthy_opt process_env_PATH then "codex" else EmptyString)
               :: DEFAULT_PATH_CANDIDATES
      end).

(** The [for (const candidate of candidates)] loop. *)
Fixpoint resolve_loop (cands : list string) : string + Resolution :=
  match cands with
  | [] => inr (mkResolution None (Some "Codex CLI executable not found"))
  | candidate :: rest =>
      if negb (Js.truthy_str candidate) then resolve_loop rest
      else
        let resolved :=
          if Js.includes candidate "/" || Js.includes candidate Js.BACKSLASH
          then inr (Some candidate)
          else findInPath candidate in
        match resolved with
        | inl message => inl message
        | inr None => resolve_loop rest
        | inr (Some r) =>
            if negb (Js.truthy_str r) then resolve_loop rest
            else if negb (ensureExecutable r) then resolve_loop rest
            else inr (mkResolution (Some r) None)
        end
  end.

Definition resolveCliPath (options : DetectCodexCliOptions)
    : string + Resolution :=
  resolve_loop (candidates options).

Definition readVersion (cliPath : string) (timeoutMs : Z)
    : string + option string :=
  match runCommand cliPath ["--version"] timeoutMs with
  | inl message => inl message
  | inr result =>
      inr (if negb (ok result) then None
           else match Js.match_semver (stdout result) with
                | Some v => Some v
                | None =>
                    let trimmed := Js.trim (stdout result) in
                    if Js.truthy_str trimmed then Some trimmed else None
                end)
  end.

(** [detectCodexCli], with its outer [try]/[catch]: a rejection of
    [resolveCliPath] or of [readVersion] is answered with the thrown
    error's message.  The check of the directory has a [catch] of its own
    and only logs. *)
Definition detectCodexCli (options : DetectCodexCliOptions) : CodexCliInfo :=
  let caught (message : string) := mkInfo None None false (Some message) in
  let timeoutMs := default DEFAULT_TIMEOUT (timeoutMs options) in
  match resolveCliPath options with
  | inl message => caught message
  | inr r =>
      match path r with
      | Some p =>
          if Js.truthy_str p
          then match readVersion p timeoutMs with
               | inl message => caught message
               | inr version => mkInfo (Some p) version true None
               end
          else mkInfo None None false (error r)
      | None => mkInfo None None false (error r)
      end
  end.

End Host.

End CodexCliDetector.

(** ** The synthesized network responses *)

Module Http.
Import Js.

(** One [controller.enqueue] of the event stream: a [data:] line carrying
    [JSON.stringify] of a chunk, or the end-of-stream marker. *)
Inductive Frame :=
| Data (chunk : JSON)
| Done.

(** A response body: [JSON.stringify] of a value, or a stream that
    enqueues the frames in order and closes. *)
Inductive Body :=
| JsonBody (v : JSON)
| StreamBody (frames : list Frame).

Record Response := mkResponse {
  status : Z;
  contentType : string;
  body : Body;
}.

Section Wire.
Variable JSON_stringify : JSON → string.

(** The text a frame puts on the wire. *)
Definition frame_text (f : Frame) : string :=
  match f with
  | Data chunk => "data: " ++ JSON_stringify chunk ++ LF ++ LF
  | Done => "data: [DONE]" ++ LF ++ LF
  end.
End Wire.

(** What a consumer of the chat-completion schema reads. *)
Definition first_choice (v : JSON) : option JSON :=
  match as_array (prop v "choices") with
  | Some (c :: _) => Some c
  | _ => None
  end.

(** [choices[0].message.content] of a single-shot body. *)
Definition message_content (r : Response) : option string :=
  match body r with
  | JsonBody v => as_string (oprop (oprop (first_choice v) "message") "content")
  | StreamBody _ => None
  end.

(** [choices[0].delta.content] of a chunk, when it has one. *)
Definition delta_content (f : Frame) : option string :=
  match f with
  | Data chunk => as_string (oprop (oprop (first_choice chunk) "delta") "content")
  | Done => None
  end.

(** [choices[0].delta.role] and [choices[0].finish_reason] of a chunk. *)
Definition delta_role (f : Frame) : option string :=
  match f with
  | Data chunk => as_string (oprop (oprop (first_choice chunk) "delta") "role")
  | Done => None
  end.

Definition finish_reason (f : Frame) : option string :=
  match f with
  | Data chunk => as_string (oprop (first_choice chunk) "finish_reason")
  | Done => None
  end.

(** The concatenation of all content deltas of a streamed body. *)
Definition streamed_content (r : Response) : option string :=
  match body r with
  | StreamBody frames =>
      Some (String.concat EmptyString
              (omap delta_content frames))
  | JsonBody _ => None
  end.

(** [error.code], [error.type] and [error.message] of an error body. *)
Definition error_field (k : string) (r : Response) : option JSON :=
  match body r with
  | JsonBody v => oprop (prop v "error") k
  | StreamBody _ => None
  end.

End Http.

(** ** The Gemini bridge: [gemini_cli_provider.ts] *)

Module GeminiCliProvider.
Import Js Http.

Record GeminiCliUsage := mkUsage {
  inputTokens : option Z;
  outputTokens : option Z;
  totalTokens : option Z;
}.

(** What [runGeminiCliCommand] resolves with; [error] is the launch
    error's message. *)
Record CliExecutionResult := mkExec {
  success : bool;
  stdout : string;
  stderr : string;
  error : option string;
}.

(** A number that may be missing, in a boolean position. *)
Definition truthy_num (n : option Z) : bool :=
  match n with Some k => negb (k =? 0)%Z | None => false end.

Definition usagePayload (usage : option GeminiCliUsage) : option JSON :=
  match usage with
  | Some u =>
      if truthy_num (inputTokens u) || truthy_num (outputTokens u)
         || truthy_num (totalTokens u)
      then Some (JObject
             [ ("prompt_tokens", JNumber (default 0%Z (inputTokens u)));
               ("completion_tokens", JNumber (default 0%Z (outputTokens u)));
               ("total_tokens",
                 JNumber (default (default 0 (inputTokens u)
                                   + default 0 (outputTokens u))%Z
                                  (totalTokens u))) ])
      else None
  | None => None
  end.

(** [...(usagePayload ? { usage: usagePayload } : {})]. *)
Definition spread_usage (u : option JSON) : list (string * JSON) :=
  match u with Some v => [("usage", v)] | None => [] end.

Definition chunk (id : string) (created : Z) (modelId : string)
    (delta : JSON) (finish : JSON) (extra : list (string * JSON)) : JSON :=
  JObject ([ ("id", JString id);
             ("object", JString "chat.completion.chunk");
             ("created", JNumber created);
             ("model", JString modelId);
             ("choices", JArray [ JObject [ ("index", JNumber 0);
                                            ("delta", delta);
                                            ("finish_reason", finish) ] ]) ]
           ++ extra).

Section Bridge.
(** [Date.now()], in milliseconds, and [JSON.parse] ([None] when it
    throws). *)
Variable now : Z.
Variable JSON_parse : string → option JSON.

Definition createStreamingResponse (text : string)
    (usage : option GeminiCliUsage) (modelId : string) : Response :=
  let created := (now / 1000)%Z in
  let id := "gemini-cli-" ++ show created in
  let usagePayload := usagePayload usage in
  mkResponse 200 "text/event-stream"
    (StreamBody
       [ Data (chunk id created modelId
                 (JObject [("role", JString "assistant")]) JNull []);
         Data (chunk id created modelId
                 (JObject [("content", JString text)]) JNull []);
         Data (chunk id created modelId
                 (JObject []) (JString "stop") (spread_usage usagePayload));
         Done ]).

Definition createJsonResponse (text : string)
    (usage : option GeminiCliUsage) (modelId : string) : Response :=
  let created := (now / 1000)%Z in
  let id := "gemini-cli-" ++ show created in
  let usagePayload := usagePayload usage in
  mkResponse 200 "application/json"
    (JsonBody
       (JObject ([ ("id", JString id);
                   ("object", JString "chat.completion");
                   ("created", JNumber created);
                   ("model", JString modelId);
                   ("choices",
                     JArray [ JObject
                       [ ("index", JNumber 0);
                         ("message", JObject [ ("role", JString "assistant");
                                               ("content", JString text) ]);
                         ("finish_reason", JString "stop") ] ]) ]
                 ++ spread_usage usagePayload))).

(** [Object.values(models)[0]] for an object or an array. *)
Definition first_value (models : JSON) : option JSON :=
  match models with
  | JObject ((_, v) :: _) => Some v
  | JArray (v :: _) => Some v
  | _ => None
  end.

Definition is_object (v : option JSON) : bool :=
  match v with
  | Some (JObject _) | Some (JArray _) => true
  | _ => false
  end.

(** Token counts are read as numbers, the type [GeminiCliUsage]
    declares for them; the source copies them unchecked, so a document
    whose counts are not numbers is outside this definition. *)
Definition parseCliJson (output : string) : string * option GeminiCliUsage :=
  match JSON_parse output with
  | Some parsed =>
      let text :=
        match as_string (prop parsed "response") with
        | Some r => r
        | None => match parsed with JString s => s | _ => EmptyString end
        end in
      let stats := prop parsed "stats" in
      let models := oprop stats "models" in
      let usage :=
        if truthy models && is_object models then
          let firstModelEntry := from_option first_value None models in
          let tokens := oprop firstModelEntry "tokens" in
          if truthy tokens
          then Some (mkUsage (as_number (oprop tokens "prompt"))
                             (as_number (oprop tokens "candidates"))
                             (as_number (oprop tokens "total")))
          else None
        else None in
      (text, usage)
  | None => (trim output, None)
  end.

(** [tryParseError]: the truthy [error.message] of a JSON document. *)
Definition tryParseError (output : string) : option JSON :=
  if negb (truthy_str output) then None
  else match JSON_parse output with
       | Some parsed =>
           let m := oprop (prop parsed "error") "message" in
           if truthy m then m else None
       | None => None
       end.

Definition detectQuotaMessage (rawMessage : option string) : option string :=
  match rawMessage with
  | None => None
  | Some raw =>
      if negb (truthy_str raw) then None
      else
        let lower := toLowerCase raw in
        if includes lower "quota exceeded"
           || includes lower "rate_limit_exceeded"
           || includes lower "resource_exhausted"
        then
          let lines := splitLines raw in
          let quotaLine :=
            match List.find (λ line, includes (toLowerCase line) "quota exceeded") lines with
            | Some l => l
            | None =>
                match List.find (λ line, includes (toLowerCase line) "rate_limit_exceeded") lines with
                | Some l => l
                | None => raw
                end
            end in
          Some (trim quotaLine)
        else None
  end.

(** The fallback payload message:
    [stderr?.trim() || stdout?.trim() || error?.message || "Gemini CLI failed"]. *)
Definition fallback_message (execResult : CliExecutionResult) : string :=
  if truthy_str (trim (stderr execResult)) then trim (stderr execResult)
  else if truthy_str (trim (stdout execResult)) then trim (stdout execResult)
  else match error execResult with
       | Some m => if truthy_str m then m else "Gemini CLI failed"
       | None => "Gemini CLI failed"
       end.

Definition error_response (st : Z) (fields : list (string * JSON)) : Response :=
  mkResponse st "application/json" (JsonBody (JObject [("error", JObject fields)])).

(** The fetch function, from the resolved [execResult] on.  [body] is
    the parsed request body.  [None] is the one way the function
    rejects: a parsed [error.message] that is truthy but not a string,
    on which [toLowerCase] is not a function. *)
Definition createCliFetch (modelId : string) (body : JSON)
    (execResult : CliExecutionResult) : option Response :=
  if negb (success execResult) then
    let errorPayload_message :=
      match tryParseError (stdout execResult) with
      | Some m => m
      | None =>
          match tryParseError (stderr execResult) with
          | Some m => m
          | None => JString (fallback_message execResult)
          end
      end in
    let combinedOutput :=
      join LF (List.filter truthy_str [stderr execResult; stdout execResult]) in
    match errorPayload_message with
    | JString message =>
        let quotaMessage :=
          match detectQuotaMessage (Some message) with
          | Some q => Some q
          | None => detectQuotaMessage (Some combinedOutput)
          end in
        if truthy_opt quotaMessage then
          Some (error_response 429
                  [ ("message", JString (default EmptyString quotaMessage));
                    ("type", JString "rate_limit_exceeded");
                    ("code", JString "quota_exceeded") ])
        else
          Some (error_response 500
                  [ ("message", JString message);
                    ("type", JString "gemini_cli_error") ])
    | _ => None
    end
  else
    let '(text, usage) := parseCliJson (stdout execResult) in
    let isStreaming :=
      match prop body "stream" with Some (JBool true) => true | _ => false end in
    Some (if isStreaming
          then createStreamingResponse text usage modelId
          else createJsonResponse text usage modelId).

End Bridge.

(** *** [formatMessagesAsPrompt] *)

(** The text of one content part: [part?.type === "text"] with a string
    [text]. *)
Definition text_part (part : JSON) : option string :=
  match as_string (prop part "type"), as_string (prop part "text") with
  | Some ty, Some t => if String.eqb ty "text" then Some t else None
  | _, _ => None
  end.

(** [parts]: the texts of an array content, or a string content itself. *)
Definition message_parts (message : JSON) : list string :=
  match prop message "content" with
  | Some (JArray content) => omap text_part content
  | Some (JString content) => [content]
  | _ => []
  end.

(** [prefix], from [message?.role ?? "user"]. *)
Definition role_prefix (message : JSON) : string :=
  match prop message "role" with
  | Some (JString role) =>
      if String.eqb role "system" then "System"
      else if String.eqb role "assistant" then "Assistant"
      else if String.eqb role "tool" then "Tool"
      else "User"
  | _ => "User"
  end.

(** What one turn of the loop pushes, if anything. *)
Definition segment (message : JSON) : option string :=
  match message_parts message with
  | [] => None
  | parts => Some (role_prefix message ++ ":" ++ LF ++ join LF parts)
  end.

Definition formatMessagesAsPrompt (messages : JSON) : string :=
  match messages with
  | JArray ms => join (LF ++ LF) (omap segment ms)
  | _ => EmptyString
  end.

(** The prompt the fetch function builds: [body?.messages ?? []]. *)
Definition prompt_of (body : JSON) : string :=
  formatMessagesAsPrompt
    (match prop body "messages" with
     | None | Some JNull => JArray []
     | Some messages => messages
     end).

(** *** [runGeminiCliCommand] and [createGeminiCliModel] *)

Definition DEFAULT_TIMEOUT_MS : Z := 60000.

Record GeminiCliCallConfig := mkConfig {
  cliPath : string;
  modelId : string;
  timeoutMs : option Z;
  extraArgs : option (list string);
}.

(** What [spawn] is called with: the executable, its arguments, the
    timeout and the environment of the child. *)
Record SpawnRequest := mkSpawn {
  sp_command : string;
  sp_args : list string;
  sp_timeout : Z;
  sp_env : gmap string string;
}.

Definition runGeminiCliCommand (process_env : gmap string string)
    (config : GeminiCliCallConfig) (prompt : string) : SpawnRequest :=
  let args : list string :=
    ([ "--output-format"; "json"; "--approval-mode"; "yolo";
       "--model"; modelId config; "--prompt"; prompt ]
     ++ default [] (extraArgs config))%list in
  mkSpawn (cliPath config) args
          (default DEFAULT_TIMEOUT_MS (timeoutMs config))
          (<["NO_COLOR" := "1"]> process_env).

(** The options of [createGeminiCliModel]: a configuration without the
    model, and the configuration its fetch function gets. *)
Record GeminiCliModelOptions := mkModelOptions {
  opt_cliPath : string;
  opt_timeoutMs : option Z;
  opt_extraArgs : option (list string);
}.

Definition createGeminiCliModel (modelId : string)
    (options : GeminiCliModelOptions) : GeminiCliCallConfig :=
  mkConfig (opt_cliPath options) modelId (opt_timeoutMs options)
           (opt_extraArgs options).

(** *** The fetch function, from the request on *)

(** How the promise of the fetch function rejects: [JSON.parse] of the
    request body throws; [spawn] throws inside [runGeminiCliCommand] (a NUL
    byte in the path or in an argument, so also in the prompt; a timeout
    that is not a non-negative integer); or [toLowerCase] is called on an
    [error.message] that is not a string. *)
Inductive Rejection :=
| SyntaxError
| SpawnError (message : string)
| TypeError.

Section Fetch.
Variable now : Z.
Variable JSON_parse : string → option JSON.
Variable process_env : gmap string string.
(** What the promise of [runGeminiCliCommand] settles with for a call of
    [spawn]: [inl message] when [spawn] throws. *)
Variable spawn : SpawnRequest → string + CliExecutionResult.

(** [init?.body ? (typeof init.body === "string" ? JSON.parse(init.body)
    : init.body) : {}]; [None] when [JSON.parse] throws. *)
Definition request_body (init_body : option JSON) : option JSON :=
  if truthy init_body then
    match init_body with
    | Some (JString text) => JSON_parse text
    | Some v => Some v
    | None => Some (JObject [])
    end
  else Some (JObject []).

(** [createCliFetch(config)(_url, init)]: the body, the prompt, the run
    and the answer. *)
Definition cliFetch (config : GeminiCliCallConfig) (init_body : option JSON)
    : Rejection + Response :=
  match request_body init_body with
  | None => inl SyntaxError
  | Some body =>
      match spawn (runGeminiCliCommand process_env config (prompt_of body)) with
      | inl message => inl (SpawnError message)
      | inr execResult =>
          match createCliFetch now JSON_parse (modelId config) body execResult with
          | Some r => inr r
          | None => inl TypeError
          end
      end
  end.

End Fetch.

(** *** [ensureGeminiCliAvailable] *)

Definition NOT_AVAILABLE : string :=
  "Gemini CLI is not available. Install it from https://github.com/google-gemini/gemini-cli and run `gemini auth login`.".

Section Host.
Variable access_X_OK : string → bool.
Variable runCommand :
  string → list string → Z → string + GeminiCliDetector.CommandResult.
Variable getEnvVar : string → option string.
Variable process_env_PATH : option string.
Variable process_platform : string.

(** The thrown error's message, or the detector's answer. *)
Definition ensureGeminiCliAvailable (explicitPath : option string)
    (autoDetect : option bool) : string + GeminiCliDetector.GeminiCliInfo :=
  let info :=
    GeminiCliDetectorFaults.detectGeminiCli access_X_OK runCommand getEnvVar
      process_env_PATH process_platform
      (GeminiCliDetector.mkOptions explicitPath autoDetect None) in
  if negb (GeminiCliDetector.isAvailable info)
     || negb (truthy_opt (GeminiCliDetector.info_path info))
  then inl (default NOT_AVAILABLE (GeminiCliDetector.errorMessage info))
  else inr info.

End Host.

End GeminiCliProvider.

(** ** The Codex bridge: [codex_cli_provider.ts] *)

Module CodexCliProvider.
Import Js Http.

(** What [runCodexCliCommand] resolves with; [error] is the launch
    error's message. *)
Record CliExecutionResult := mkExec {
  success : bool;
  stdout : string;
  stderr : string;
  error : option string;
}.

Definition detectQuotaMessage (rawMessage : option string) : option string :=
  match rawMessage with
  | None => None
  | Some raw =>
      if negb (truthy_str raw) then None
      else
        let normalized := toLowerCase raw in
        if includes normalized "rate limit"
           || includes normalized "quota"
           || includes normalized "429"
        then
          Some (default "OpenAI quota exceeded."
                  (List.find (λ line, (0 <? String.length line)%nat)
                     (List.map trim (splitLines raw))))
        else None
  end.

Definition chunk (id : string) (created : Z) (modelId : string)
    (delta : JSON) (finish : JSON) : JSON :=
  JObject [ ("id", JString id);
            ("object", JString "chat.completion.chunk");
            ("created", JNumber created);
            ("model", JString modelId);
            ("choices", JArray [ JObject [ ("index", JNumber 0);
                                           ("delta", delta);
                                           ("finish_reason", finish) ] ]) ].

Definition UNAUTHORIZED_MESSAGE : string :=
  "Codex CLI returned 401 Unauthorized. Run `codex login` in a terminal (with the same account) or configure an OpenAI API key in Settings to use Codex.".

Definition error_response (st : Z) (fields : list (string * JSON)) : Response :=
  mkResponse st "application/json" (JsonBody (JObject [("error", JObject fields)])).

Section Bridge.
Variable now : Z.
Variable JSON_parse : string → option JSON.

(** The text one element of an event's [content] array contributes. *)
Definition part_text (part : JSON) : string :=
  match part with
  | JString s => s
  | _ => default EmptyString (as_string (prop part "text"))
  end.

(** One turn of the [for (const line of lines)] loop. *)
Definition parse_line (acc : string * option string) (line : string)
    : string * option string :=
  let '(aggregatedText, errorMessage) := acc in
  match JSON_parse line with
  | None => acc
  | Some event =>
      let type_is (t : string) :=
        match as_string (prop event "type") with
        | Some ty => String.eqb ty t
        | None => false
        end in
      match type_is "error", as_string (prop event "message") with
      | true, Some message => (aggregatedText, Some message)
      | _, _ =>
          match type_is "response.output_text.delta",
                as_string (prop event "delta") with
          | true, Some delta => (aggregatedText ++ delta, errorMessage)
          | _, _ =>
              match type_is "response.completed",
                    as_array (oprop (prop event "response") "output_text") with
              | true, Some output_text =>
                  (join EmptyString (List.map toString output_text), errorMessage)
              | _, _ =>
                  match as_array (prop event "content") with
                  | Some content =>
                      let contentText :=
                        join LF (List.filter truthy_str (List.map part_text content)) in
                      if truthy_str contentText
                      then (contentText, errorMessage)
                      else acc
                  | None => acc
                  end
              end
          end
      end
  end.

Definition parseCodexEvents (output : string) : string * option string :=
  let lines := List.filter truthy_str (List.map trim (splitLines output)) in
  let '(aggregatedText, errorMessage) :=
    List.fold_left parse_line lines (EmptyString, None) in
  (if truthy_str (trim aggregatedText) then trim aggregatedText else join LF lines,
   errorMessage).

Definition createStreamingResponse (text : string) (modelId : string) : Response :=
  let created := (now / 1000)%Z in
  let id := "codex-cli-" ++ show created in
  mkResponse 200 "text/event-stream"
    (StreamBody
       [ Data (chunk id created modelId
                 (JObject [("role", JString "assistant")]) JNull);
         Data (chunk id created modelId
                 (JObject [("content", JString text)]) JNull);
         Data (chunk id created modelId (JObject []) (JString "stop"));
         Done ]).

Definition createJsonResponse (text : string) (modelId : string) : Response :=
  let created := (now / 1000)%Z in
  let id := "codex-cli-" ++ show created in
  mkResponse 200 "application/json"
    (JsonBody
       (JObject [ ("id", JString id);
                  ("object", JString "chat.completion");
                  ("created", JNumber created);
                  ("model", JString modelId);
                  ("choices",
                    JArray [ JObject
                      [ ("index", JNumber 0);
                        ("message", JObject [ ("role", JString "assistant");
                                              ("content", JString text) ]);
                        ("finish_reason", JString "stop") ] ]) ])).

(** [stderr.trim() || stdout.trim() || error?.message || "Codex CLI failed"]. *)
Definition failure_message (execResult : CliExecutionResult) : string :=
  if truthy_str (trim (stderr execResult)) then trim (stderr execResult)
  else if truthy_str (trim (stdout execResult)) then trim (stdout execResult)
  else match error execResult with
       | Some m => if truthy_str m then m else "Codex CLI failed"
       | None => "Codex CLI failed"
       end.

(** The fetch function, from the resolved [execResult] on.  [body] is
    the parsed request body. *)
Definition createCodexCliFetch (modelId : string) (body : JSON)
    (execResult : CliExecutionResult) : Response :=
  if negb (success execResult) then
    let quotaMessage :=
      match detectQuotaMessage (Some (stderr execResult)) with
      | Some q => Some q
      | None => detectQuotaMessage (Some (stdout execResult))
      end in
    if truthy_opt quotaMessage then
      error_response 429
        [ ("message", JString (default EmptyString quotaMessage));
          ("type", JString "rate_limit_exceeded");
          ("code", JString "quota_exceeded") ]
    else
      let unauthorizedMessage :=
        if includes (stderr execResult) "401" || includes (stdout execResult) "401"
        then Some UNAUTHORIZED_MESSAGE else None in
      let message := failure_message execResult in
      match unauthorizedMessage with
      | Some um =>
          error_response 401
            [ ("message", JString um);
              ("type", JString "codex_cli_error");
              ("code", JString "unauthorized") ]
      | None =>
          error_response 500
            [ ("message", JString message);
              ("type", JString "codex_cli_error") ]
      end
  else
    let '(text, errorMessage) := parseCodexEvents (stdout execResult) in
    if truthy_opt errorMessage then
      error_response 500
        [ ("message", JString (default EmptyString errorMessage));
          ("type", JString "codex_cli_error") ]
    else
      let isStreaming :=
        match prop body "stream" with Some (JBool true) => true | _ => false end in
      if isStreaming
      then createStreamingResponse text modelId
      else createJsonResponse text modelId.

End Bridge.

(** *** [formatMessagesAsPrompt] *)

(** The text of one content part: [part?.type === "text"] with a string
    [text]. *)
Definition text_part (part : JSON) : option string :=
  match as_string (prop part "type"), as_string (prop part "text") with
  | Some ty, Some t => if String.eqb ty "text" then Some t else None
  | _, _ => None
  end.

(** [parts]: the texts of an array content, or a string content itself. *)
Definition message_parts (message : JSON) : list string :=
  match prop message "content" with
  | Some (JArray content) => omap text_part content
  | Some (JString content) => [content]
  | _ => []
  end.

(** [prefix], from [message?.role ?? "user"]. *)
Definition role_prefix (message : JSON) : string :=
  match prop message "role" with
  | Some (JString role) =>
      if String.eqb role "system" then "System"
      else if String.eqb role "assistant" then "Assistant"
      else if String.eqb role "tool" then "Tool"
      else "User"
  | _ => "User"
  end.

(** What one turn of the loop pushes, if anything. *)
Definition segment (message : JSON) : option string :=
  match message_parts message with
  | [] => None
  | parts => Some (role_prefix message ++ ":" ++ LF ++ join LF parts)
  end.

Definition formatMessagesAsPrompt (messages : JSON) : string :=
  match messages with
  | JArray ms => join (LF ++ LF) (omap segment ms)
  | _ => EmptyString
  end.

(** The prompt the fetch function builds:
    [Array.isArray(body?.messages) ? body.messages : []]. *)
Definition prompt_of (body : JSON) : string :=
  formatMessagesAsPrompt
    (match prop body "messages" with
     | Some (JArray messages) => JArray messages
     | _ => JArray []
     end).

(** *** [runCodexCliCommand] and [createCodexCliModel] *)

Definition DEFAULT_TIMEOUT_MS : Z := 60000.

Record CodexCliCallConfig := mkConfig {
  cliPath : string;
  modelId : string;
  timeoutMs : option Z;
  extraArgs : option (list string);
  apiKey : option string;
}.

(** What [spawn] is called with, and what is written to the child's
    standard input. *)
Record SpawnRequest := mkSpawn {
  sp_command : string;
  sp_args : list string;
  sp_stdin : string;
  sp_timeout : Z;
  sp_env : gmap string string;
}.

Definition runCodexCliCommand (process_env : gmap string string)
    (config : CodexCliCallConfig) (prompt : string) : SpawnRequest :=
  let args : list string :=
    ([ "exec"; "--model"; modelId config; "--json"; "--skip-git-repo-check" ]
     ++ default [] (extraArgs config)
     ++ [ "-" ])%list in
  let env1 :=
    <["CODEX_DISABLE_ROLLOUT_RECORDER" := "1"]>
      (<["NO_COLOR" := "1"]> process_env) in
  let env :=
    match apiKey config with
    | Some k => if truthy_str k then <["OPENAI_API_KEY" := k]> env1 else env1
    | None => env1
    end in
  mkSpawn (cliPath config) args
          (if endsWith prompt LF then prompt else prompt ++ LF)
          (default DEFAULT_TIMEOUT_MS (timeoutMs config))
          env.

(** The options of [createCodexCliModel]: a configuration without the
    model.  The configuration its fetch function gets names the path, the
    model, the timeout and the extra arguments, and no API key. *)
Record CodexCliModelOptions := mkModelOptions {
  opt_cliPath : string;
  opt_timeoutMs : option Z;
  opt_extraArgs : option (list string);
  opt_apiKey : option string;
}.

Definition createCodexCliModel (modelId : string)
    (options : CodexCliModelOptions) : CodexCliCallConfig :=
  mkConfig (opt_cliPath options) modelId (opt_timeoutMs options)
           (opt_extraArgs options) None.

(** *** [ensureCodexCliAvailable] *)

Definition NOT_AVAILABLE : string :=
  "Codex CLI is not available. Install it from https://github.com/openai/codex and ensure it is on your PATH.".

Section Host.
Variable access_X_OK : string → bool.
Variable runCommand :
  string → list string → Z → string + CodexCliDetector.CommandResult.
Variable getEnvVar : string → option string.
Variable process_env_PATH : option string.
Variable process_platform : string.

Definition ensureCodexCliAvailable (explicitPath : option string)
    (autoDetect : option bool) : string + CodexCliDetector.CodexCliInfo :=
  let info :=
    CodexCliDetector.detectCodexCli access_X_OK runCommand getEnvVar
      process_env_PATH process_platform
      (CodexCliDetector.mkOptions explicitPath autoDetect None) in
  if negb (CodexCliDetector.isAvailable info)
     || negb (truthy_opt (CodexCliDetector.info_path info))
  then inl (default NOT_AVAILABLE (CodexCliDetector.errorMessage info))
  else inr info.

End Host.

End CodexCliProvider.

(** ** Routing and fallback: [get_model_client.ts] *)

Module GetModelClient.
Import Js.

(** Modelled from the spec: [GoogleProviderSetting] and
    [OpenAIProviderSetting] are declared in [lib/schemas], which is not
    among the sources.  The connection mode is remote-only (["api"]),
    local-only (["cli"]) or automatic (["auto"]), the three values the
    settings form offers. *)
Inductive ConnectionMode := api | cli | auto.

Definition is_api (m : ConnectionMode) : bool :=
  match m with api => true | _ => false end.
Definition is_auto (m : ConnectionMode) : bool :=
  match m with auto => true | _ => false end.

(** The fields of a provider setting that the routing reads besides the
    API key; each may be missing. *)
Record ProviderSetting := mkSetting {
  connectionMode : option ConnectionMode;
  cliPath : option string;
  cliAutoDetect : option bool;
  cliFallbackToApi : option bool;
  cliPreferredModels : option (list string);
  cliTimeoutMs : option Z;
}.

(** A value caught by [catch (error)]: an [Error] with its message, or
    anything else ([None] for [undefined] and [null]). *)
Inductive Thrown :=
| ErrorObject (message : string)
| NonError (v : option JSON).

(** What the CLI detector resolves with. *)
Record CliInfo := mkCliInfo {
  info_path : option string;
  info_isAvailable : bool;
  info_errorMessage : option string;
}.

(** The language models the routing can hand out. *)
Inductive Model :=
| CliModel (cliModelId : string) (cliPath : string) (timeoutMs : option Z)
           (apiKey : option string)
| ApiModel (apiKey : string) (name : string).

Record ModelClient := mkModelClient {
  model : Model;
  builtinProviderId : string;
}.

Record Clients := mkClients {
  modelClient : ModelClient;
  backupModelClients : list ModelClient;
}.

(** The calls the routing makes, in order (latest first). *)
Inductive Call :=
| EnsureCliAvailable (explicitPath : option string) (autoDetect : bool)
| CreateCliModel (cliModelId : string) (cliPath : string)
| CreateApiProvider (apiKey : string).

Definition is_remote (c : Call) : bool :=
  match c with CreateApiProvider _ => true | _ => false end.
Definition is_local (c : Call) : bool := negb (is_remote c).

Definition selectCliModel (requestedModel : string)
    (preferredModels : option (list string)) : string :=
  match preferredModels with
  | Some (first :: rest) =>
      if existsb (String.eqb requestedModel) (first :: rest)
      then requestedModel
      else first
  | _ => requestedModel
  end.

Section Providers.
(** The detector and the CLI model factory of one provider: each
    resolves or throws.  [JSON_stringify] is the platform's. *)
Variable ensureCliAvailable : option string → bool → Thrown + CliInfo.
Variable createCliModel :
  string → string → option Z → option string → Thrown + Model.
Variable JSON_stringify : JSON → string.
Variable getEnvVar : string → option string.

(** [ensureGeminiCliAvailable] / [ensureCodexCliAvailable] throw when the
    detector reports the CLI unavailable; the caller sees the throw. *)

(** The API key of a provider: the saved one, else the environment's. *)
Definition apiKey_of (saved : option string) (envVarName : option string)
    : option string :=
  if truthy_opt saved then saved
  else match envVarName with
       | Some n => if truthy_str n then getEnvVar n else None
       | None => None
       end.

(** [error instanceof Error ? error.message : JSON.stringify(error ?? fallback)]. *)
Definition describe (fallback : string) (error : Thrown) : string :=
  match error with
  | ErrorObject message => message
  | NonError (Some v) =>
      match v with
      | JNull => JSON_stringify (JString fallback)
      | _ => JSON_stringify v
      end
  | NonError None => JSON_stringify (JString fallback)
  end.

(** The body of the [try] block: detect, pick the model, build it. *)
Definition try_cli (pathErr : string) (withKey : option string)
    (name : string) (st : option ProviderSetting)
    : list Call * (Thrown + Model) :=
  let cliPreferredModels := st ≫= cliPreferredModels in
  let cliTimeoutMs := st ≫= cliTimeoutMs in
  let cliAutoDetect := default true (st ≫= cliAutoDetect) in
  let explicit := st ≫= cliPath in
  match ensureCliAvailable explicit cliAutoDetect with
  | inl e => ([EnsureCliAvailable explicit cliAutoDetect], inl e)
  | inr cliInfo =>
      match info_path cliInfo with
      | Some p =>
          if truthy_str p then
            let cliModelId := selectCliModel name cliPreferredModels in
            ([CreateCliModel cliModelId p;
              EnsureCliAvailable explicit cliAutoDetect],
             createCliModel cliModelId p cliTimeoutMs withKey)
          else ([EnsureCliAvailable explicit cliAutoDetect],
                inl (ErrorObject pathErr))
      | None => ([EnsureCliAvailable explicit cliAutoDetect],
                 inl (ErrorObject pathErr))
      end
  end.

Definition client (providerId : string) (m : Model) : Clients :=
  mkClients (mkModelClient m providerId) [].

(** [case "google"] of [getRegularModelClient]. *)
Definition getRegularModelClient_google (name : string)
    (apiKey : option string) (googleSettings : option ProviderSetting)
    : list Call * (Thrown + Clients) :=
  let connectionMode := default api (googleSettings ≫= connectionMode) in
  let cliFallbackToApi := default true (googleSettings ≫= cliFallbackToApi) in
  let remote (calls : list Call) : list Call * (Thrown + Clients) :=
    match apiKey with
    | Some k =>
        if truthy_str k
        then (CreateApiProvider k :: calls, inr (client "google" (ApiModel k name)))
        else (calls, inl (ErrorObject
          "Gemini API key is not configured. Provide it in Settings or set GEMINI_API_KEY."))
    | None => (calls, inl (ErrorObject
          "Gemini API key is not configured. Provide it in Settings or set GEMINI_API_KEY."))
    end in
  if negb (is_api connectionMode) then
    match try_cli "Gemini CLI path could not be resolved." None name googleSettings with
    | (calls, inr cliModel) => (calls, inr (client "google" cliModel))
    | (calls, inl error) =>
        let allowFallback := is_auto connectionMode || cliFallbackToApi in
        if negb allowFallback then
          (calls, inl (ErrorObject (describe "Gemini CLI failed" error)))
        else if negb (truthy_opt apiKey) then
          (calls, inl (ErrorObject
            "Gemini CLI is unavailable and no Gemini API key is configured for fallback. Provide an API key or fix the CLI configuration."))
        else remote calls
    end
  else remote [].

(** [case "openai"] of [getRegularModelClient]. *)
Definition getRegularModelClient_openai (name : string)
    (apiKey : option string) (openAiSettings : option ProviderSetting)
    : list Call * (Thrown + Clients) :=
  let connectionMode := default api (openAiSettings ≫= connectionMode) in
  let cliFallbackToApi := default true (openAiSettings ≫= cliFallbackToApi) in
  let remote (calls : list Call) : list Call * (Thrown + Clients) :=
    let shouldUseApiFallback :=
      is_api connectionMode || is_auto connectionMode || cliFallbackToApi in
    if negb shouldUseApiFallback then
      (calls, inl (ErrorObject
        "Codex CLI is not available and API fallback is disabled. Install the Codex CLI or enable fallback to continue."))
    else
      match apiKey with
      | Some k =>
          if truthy_str k
          then (CreateApiProvider k :: calls, inr (client "openai" (ApiModel k name)))
          else (calls, inl (ErrorObject
            "OpenAI API key is required when using API mode or fallback. Provide it in Settings or set OPENAI_API_KEY."))
      | None => (calls, inl (ErrorObject
            "OpenAI API key is required when using API mode or fallback. Provide it in Settings or set OPENAI_API_KEY."))
      end in
  if negb (is_api connectionMode) then
    match try_cli "Codex CLI path could not be resolved." apiKey name openAiSettings with
    | (calls, inr cliModel) => (calls, inr (client "openai" cliModel))
    | (calls, inl error) =>
        let allowFallback := is_auto connectionMode || cliFallbackToApi in
        if negb allowFallback then
          (calls, inl (ErrorObject (describe "Codex CLI failed" error)))
        else if negb (truthy_opt apiKey) then
          (calls, inl (ErrorObject
            "Codex CLI is unavailable and no OpenAI API key is configured for fallback. Provide an API key or fix the CLI configuration."))
        else remote calls
    end
  else remote [].

End Providers.

End GetModelClient.

(** ** [getModelClient] (get_model_client.ts) *)

Module ModelSelection.
Import Js.

(** [LargeLanguageModel], as far as it is read: provider and name. *)
Record LargeLanguageModel := mkModel {
  provider : string;
  name : string;
}.

Definition AUTO_MODELS : list LargeLanguageModel :=
  [ mkModel "google" "gemini-2.5-flash";
    mkModel "openrouter" "qwen/qwen3-coder:free";
    mkModel "anthropic" "claude-sonnet-4-20250514";
    mkModel "openai" "gpt-4.1" ].

(** An entry of [getLanguageModelProviders()], as far as it is read: its
    [id], [envVarName] and [gatewayPrefix], the last two possibly
    missing. *)
Record LanguageModelProvider := mkProvider {
  lmp_id : string;
  envVarName : option string;
  gatewayPrefix : option string;
}.

(** [UserSettings], as far as it is read.  [apiKey_value p] is
    [settings.providerSettings?.[p]?.apiKey?.value]; the other members
    are those of the same name, each possibly missing. *)
Record UserSettings := mkSettings {
  apiKey_value : string → option string;
  enableDyadPro : option bool;
  enableProSmartFilesContextMode : option bool;
  enableProLazyEditsMode : option bool;
  enableProWebSearch : option bool;
  selectedChatMode : option string;
  proSmartContextOption : option string;
}.

(** An optional boolean in a boolean position, and [a || b] on two. *)
Definition truthy_flag (b : option bool) : bool := default false b.
Definition or_flag (a b : option bool) : option bool :=
  if truthy_flag a then a else b.

(** [dyadOptions] of [createDyadEngine]. *)
Record DyadOptions := mkDyadOptions {
  enableLazyEdits : option bool;
  enableSmartFilesContext : option bool;
  smartContextMode : string;
  enableWebSearch : option bool;
}.

(** The provider object of the Dyad Pro branch, with the model id it is
    called with (the engine's model also gets the files). *)
Inductive DyadClient :=
| DyadEngine (apiKey baseURL originalProviderId : string)
             (dyadOptions : DyadOptions) (modelId : string)
| DyadGateway (apiKey baseURL : string) (modelId : string).

Section Entry.
(** [RegularClients] is what [getRegularModelClient] resolves with. *)
Variable RegularClients : Type.
Variable getRegularModelClient :
  LargeLanguageModel → UserSettings → LanguageModelProvider → string + RegularClients.
Variable allProviders : list LanguageModelProvider.
Variable FREE_OPENROUTER_MODEL_NAMES : list string.
Variable dyadEngineUrl : option string.
Variable dyadGatewayUrl : option string.
Variable getEnvVar : string → option string.

(** What [getModelClient] resolves with: the Dyad Pro client with
    [builtinProviderId] and [isEngineEnabled]; the fallback over the free
    OpenRouter models, each entry contributing its [modelClient.model]; or
    the answer of [getRegularModelClient]. *)
Inductive Answer :=
| DyadPro (client : DyadClient) (builtinProviderId : string)
          (isEngineEnabled : option bool)
| FreeFallback (models : list RegularClients)
| Regular (clients : RegularClients).

(** [allProviders.find((p) => p.id === id)]. *)
Definition find_provider (id : string) : option LanguageModelProvider :=
  List.find (λ p, String.eqb (lmp_id p) id) allProviders.

(** The API key of the loop over [AUTO_MODELS]:
    [apiKey?.value || (envVarName ? getEnvVar(envVarName) : undefined)]. *)
Definition auto_apiKey (settings : UserSettings)
    (autoModel : LargeLanguageModel) : option string :=
  let envVarName := find_provider (provider autoModel) ≫= envVarName in
  if truthy_opt (apiKey_value settings (provider autoModel))
  then apiKey_value settings (provider autoModel)
  else if truthy_opt envVarName
       then getEnvVar (default EmptyString envVarName)
       else None.

(** [Promise.all(names.map(async (name) => ...))]: every call runs to its
    end before the next starts, and the first rejection is the result. *)
Fixpoint free_models (settings : UserSettings)
    (openRouterProvider : LanguageModelProvider) (names : list string)
    : string + list RegularClients :=
  match names with
  | [] => inr []
  | n :: rest =>
      match getRegularModelClient (mkModel "openrouter" n) settings
              openRouterProvider with
      | inl e => inl e
      | inr c =>
          match free_models settings openRouterProvider rest with
          | inl e => inl e
          | inr cs => inr (c :: cs)
          end
      end
  end.

(** The Dyad Pro branch. *)
Definition dyad_pro (model : LargeLanguageModel) (settings : UserSettings)
    (providerConfig : LanguageModelProvider) (dyadApiKey : string) : Answer :=
  let isEngineEnabled :=
    or_flag (or_flag (enableProSmartFilesContextMode settings)
                     (enableProLazyEditsMode settings))
            (enableProWebSearch settings) in
  let modelName := before ":free" (name model) in
  let prefix :=
    if truthy_opt (gatewayPrefix providerConfig)
    then default EmptyString (gatewayPrefix providerConfig)
    else EmptyString in
  let modelId := prefix ++ modelName in
  DyadPro
    (if truthy_flag isEngineEnabled
     then DyadEngine dyadApiKey
            (default "https://engine.dyad.sh/v1" dyadEngineUrl)
            (provider model)
            (mkDyadOptions
               (match selectedChatMode settings with
                | Some mode => if String.eqb mode "ask" then Some false
                               else enableProLazyEditsMode settings
                | None => enableProLazyEditsMode settings
                end)
               (enableProSmartFilesContextMode settings)
               (default "balanced" (proSmartContextOption settings))
               (enableProWebSearch settings))
            modelId
     else DyadGateway dyadApiKey
            (default "https://llm-gateway.dyad.sh/v1" dyadGatewayUrl)
            modelId)
    (provider model) isEngineEnabled.

(** The body of [getModelClient]; [self] is the function itself, called
    from the loop over [AUTO_MODELS].  [inl] is the message of the thrown
    [Error]; [None] is a call that did not return. *)
Definition getModelClient_body
    (self : LargeLanguageModel → UserSettings → option (string + Answer))
    (model : LargeLanguageModel) (settings : UserSettings)
    : option (string + Answer) :=
  let dyadApiKey := apiKey_value settings "auto" in
  match find_provider (provider model) with
  | None =>
      Some (inl ("Configuration not found for provider: " ++ provider model))
  | Some providerConfig =>
      if truthy_opt dyadApiKey && truthy_flag (enableDyadPro settings)
         && (bool_decide (gatewayPrefix providerConfig ≠ None)
             || truthy_opt dyadEngineUrl)
      then Some (inr (dyad_pro model settings providerConfig
                        (default EmptyString dyadApiKey)))
      else if String.eqb (provider model) "auto" then
        if String.eqb (name model) "free" then
          match find_provider "openrouter" with
          | None => Some (inl "OpenRouter provider not found")
          | Some openRouterProvider =>
              match free_models settings openRouterProvider
                      FREE_OPENROUTER_MODEL_NAMES with
              | inl e => Some (inl e)
              | inr models => Some (inr (FreeFallback models))
              end
          end
        else
          match List.find (λ autoModel,
                             truthy_opt (auto_apiKey settings autoModel))
                          AUTO_MODELS with
          | Some autoModel =>
              self (mkModel (provider autoModel) (name autoModel)) settings
          | None =>
              Some (inl "No API keys available for any model supported by the 'auto' provider.")
          end
      else
        match getRegularModelClient model settings providerConfig with
        | inl e => Some (inl e)
        | inr clients => Some (inr (Regular clients))
        end
  end.

(** [getModelClient], with [fuel] bounding the depth of its calls of
    itself: a call at depth 0 is cut off. *)
Fixpoint getModelClient (fuel : nat) (model : LargeLanguageModel)
    (settings : UserSettings) : option (string + Answer) :=
  match fuel with
  | O => None
  | S fuel' => getModelClient_body (getModelClient fuel') model settings
  end.

End Entry.

End ModelSelection.
(* ===================================================================== *)
(** * Part II: the properties                                             *)
(* ===================================================================== *)

(** ** The connection manager *)

Module McpManagerSpec.
Import McpManager.
Local Open Scope list_scope.

(** An event that neither disposes [serverId] nor resumes a [getClient]
    activation of [serverId]: what may happen while callers of [serverId]
    arrive "concurrently". *)
Definition quiet (serverId : Z) (ev : Event) : Prop :=
  match ev with
  | CallDispose sid => sid ≠ serverId
  | ResumeGetClient sid _ => sid ≠ serverId
  | _ => True
  end.

(** The promise a handle stands for. *)
Definition promise_of (h : Handle) : option nat :=
  match h with
  | Cached _ => None
  | Started p | Joined p => Some p
  end.

(** What the holder of a handle receives, once it is known. *)
Definition receives (s : Mgr) (h : Handle) : option (Result Client) :=
  match h with
  | Cached c => Some (Ok c)
  | Started p | Joined p => result_of <$> outcome_of s p
  end.

(** The replies to the [getClient serverId] calls of a run, in order. *)
Fixpoint handles_of (serverId : Z) (evs : list Event) (rs : list Reply)
  : list Handle :=
  match evs, rs with
  | CallGetClient sid :: evs', RHandle h :: rs' =>
      if (sid =? serverId)%Z then h :: handles_of serverId evs' rs'
      else handles_of serverId evs' rs'
  | _ :: evs', _ :: rs' => handles_of serverId evs' rs'
  | _, _ => []
  end.

(** The number of [getClient serverId] calls among the events. *)
Definition calls_of (serverId : Z) (evs : list Event) : nat :=
  length (List.filter (λ ev, match ev with
                             | CallGetClient sid => (sid =? serverId)%Z
                             | _ => false
                             end) evs).

(** The attempts of a server that still wait for their database row: each
    of them may yet call the client factory. *)
Definition is_pending_db (serverId : Z) (a : Attempt) : bool :=
  (att_server a =? serverId)%Z &&
  match att_phase a with AwaitingDb => true | _ => false end.
Definition pending_db (serverId : Z) (s : Mgr) : nat :=
  length (List.filter (is_pending_db serverId) (attempts s)).

(** The configurations C8 is about, each with the error the code words
    for it: a transport kind other than ["stdio"] and ["http"], a stdio
    transport without a command, an http transport without a url. *)
Inductive BadConfiguration (row : ServerRow) : Error → Prop :=
| unsupported_transport :
    row_transport row ≠ "stdio" → row_transport row ≠ "http" →
    BadConfiguration row ("Unsupported MCP transport: " ++ row_transport row)%string
| missing_command :
    row_transport row = "stdio" → Js.truthy_opt (row_command row) = false →
    BadConfiguration row "MCP server command is required"
| missing_url :
    row_transport row = "http" → Js.truthy_opt (row_url row) = false →
    BadConfiguration row "HTTP MCP requires url".

(** Unfold the manager's monadic code down to state transformers. *)
Ltac unfold_M :=
  cbv [getClient_call getClient_resume dispose close initializeClient_call
       initializeClient_afterDb initializeClient_afterRace
       clients_set clients_delete initializingClients_set
       initializingClients_delete set_phase set_owner emit
       try_catch try_finally
       mbind M_bind bind mret M_ret ret throw gets modify].

Section Facts.
Variable URL_new : string → option string.

Lemma alter_last {A} (f : A → A) (l : list A) (a : A) :
  alter f (length l) (l ++ [a]) = l ++ [f a].
Proof.
  replace (length l) with (length l + 0) by lia.
  by rewrite alter_app_r.
Qed.

Lemma getClient_call_cached sid s c :
  clients s !! sid = Some c →
  getClient_call sid s = (Ok (Cached c), s).
Proof.
  intros H. unfold_M. by rewrite H.
Qed.

Lemma getClient_call_joined sid s p :
  clients s !! sid = None →
  initializingClients s !! sid = Some p →
  getClient_call sid s = (Ok (Joined p), s).
Proof.
  intros H1 H2. unfold_M. by rewrite H1, H2.
Qed.

Lemma getClient_call_started sid s :
  clients s !! sid = None →
  initializingClients s !! sid = None →
  getClient_call sid s =
    (Ok (Started (length (attempts s))),
     mkMgr (clients s)
           (<[sid := length (attempts s)]> (initializingClients s))
           (attempts s ++ [mkAttempt sid AwaitingDb true])
           (EDbSelect sid :: EInitializeClient sid (length (attempts s)) :: trace s)).
Proof.
  intros H1 H2. unfold_M. rewrite H1, H2. cbn. by rewrite alter_last.
Qed.

(** What the state says about one server. *)
Definition view (sid : Z) (s : Mgr) : option Client * option nat * nat :=
  (clients s !! sid, initializingClients s !! sid, init_count sid s).

(** A [getClient] call for another server leaves [sid]'s view alone. *)
Lemma getClient_call_other sid sid' s h s' :
  sid' ≠ sid →
  getClient_call sid' s = (Ok h, s') →
  view sid s' = view sid s.
Proof.
  intros Hne Hcall.
  destruct (clients s !! sid') as [c|] eqn:Hc.
  { rewrite (getClient_call_cached _ _ _ Hc) in Hcall. by inversion Hcall. }
  destruct (initializingClients s !! sid') as [p|] eqn:Hi.
  { rewrite (getClient_call_joined _ _ _ Hc Hi) in Hcall. by inversion Hcall. }
  rewrite (getClient_call_started _ _ Hc Hi) in Hcall.
  inversion Hcall; subst; clear Hcall.
  unfold view, init_count; cbn.
  rewrite lookup_insert_ne by done.
  by rewrite (proj2 (Z.eqb_neq sid' sid) Hne).
Qed.

Lemma dispose_other sid sid' s r s' :
  sid' ≠ sid →
  dispose sid' s = (r, s') →
  view sid s' = view sid s.
Proof.
  intros Hne. unfold_M.
  destruct (clients s !! sid') as [c|]; cbn.
  - destruct (close_throws c); cbn; intros [= <- <-];
      unfold view, init_count; cbn;
      by rewrite !lookup_delete_ne by done.
  - intros [= <- <-]. unfold view, init_count; cbn.
    by rewrite lookup_delete_ne by done.
Qed.

Lemma afterDb_view sid sid' p rows s :
  view sid (snd (initializeClient_afterDb URL_new sid' p rows s)) = view sid s.
Proof.
  unfold_M. by destruct (makeTransport URL_new sid' rows).
Qed.

Lemma afterRace_view sid sid' p w s :
  view sid (snd (initializeClient_afterRace sid' p w s)) = view sid s.
Proof. by unfold_M. Qed.

Lemma getClient_resume_other sid sid' p o s r s' :
  sid' ≠ sid →
  getClient_resume sid' p o s = (r, s') →
  view sid s' = view sid s.
Proof.
  intros Hne. unfold_M. destruct o; cbn; intros [= <- <-];
    unfold view, init_count; cbn;
    rewrite ?lookup_delete_ne, ?lookup_insert_ne by done; done.
Qed.

(** Quiet events other than a call for [sid] leave [sid]'s view alone. *)
Lemma step_quiet_view sid ev s r s' :
  quiet sid ev →
  ev ≠ CallGetClient sid →
  step URL_new ev s = Some (r, s') →
  view sid s' = view sid s.
Proof.
  intros Hq Hne Hstep. destruct ev as [sid'|sid'|sid' p rows|sid' p w|sid' p]; cbn in *.
  - destruct (getClient_call sid' s) as [[h|e] s1] eqn:Hcall; [|done].
    inversion Hstep; subst. eapply getClient_call_other; [|done]. congruence.
  - destruct (dispose sid' s) as [r1 s1] eqn:Hd. inversion Hstep; subst.
    by eapply dispose_other.
  - destruct (attempts s !! p) as [[a [] ?]|]; try done.
    destruct (a =? sid')%Z; [|done]. inversion Hstep; subst. apply afterDb_view.
  - destruct (attempts s !! p) as [[a [] ?]|]; try done.
    destruct (a =? sid')%Z; [|done]. inversion Hstep; subst. apply afterRace_view.
  - destruct (attempts s !! p) as [[a [] []]|]; try done.
    destruct (a =? sid')%Z; [|done].
    destruct (getClient_resume sid' p o s) as [r1 s1] eqn:Hr.
    inversion Hstep; subst. by eapply getClient_resume_other.
Qed.

Lemma calls_of_other sid ev evs :
  ev ≠ CallGetClient sid → calls_of sid (ev :: evs) = calls_of sid evs.
Proof.
  intros Hne. unfold calls_of. cbn. destruct ev; try done.
  destruct (Z.eqb_spec serverId sid); [congruence|done].
Qed.

Lemma handles_of_other sid ev evs r rs :
  ev ≠ CallGetClient sid →
  handles_of sid (ev :: evs) (r :: rs) = handles_of sid evs rs.
Proof.
  intros Hne. cbn. destruct ev; try done.
  destruct r; try done.
  destruct (Z.eqb_spec serverId sid); [congruence|done].
Qed.

Lemma event_is_call_dec sid (ev : Event) :
  {ev = CallGetClient sid} + {ev ≠ CallGetClient sid}.
Proof.
  destruct ev; try (right; discriminate).
  destruct (Z.eq_dec serverId sid); [left; congruence | right; congruence].
Qed.

(** While an attempt for [sid] is in flight and nothing is cached, every
    further caller joins that attempt and no new one is started. *)
Lemma window_inflight sid p n evs : ∀ s rs s',
  view sid s = (None, Some p, n) →
  Forall (quiet sid) evs →
  run URL_new evs s = Some (rs, s') →
  view sid s' = (None, Some p, n) ∧
  handles_of sid evs rs = replicate (calls_of sid evs) (Joined p).
Proof.
  induction evs as [|ev evs IH]; intros s rs s' Hv Hq Hrun.
  { cbn in Hrun. inversion Hrun; subst. done. }
  cbn in Hrun.
  destruct (step URL_new ev s) as [[r s1]|] eqn:Hstep; [|done].
  destruct (run URL_new evs s1) as [[rs1 s2]|] eqn:Hrest; [|done].
  inversion Hrun; subst; clear Hrun.
  apply Forall_cons in Hq as [Hq1 Hq].
  destruct (event_is_call_dec sid ev) as [->|Hne].
  - cbn in Hstep.
    assert (clients s !! sid = None ∧ initializingClients s !! sid = Some p)
      as [Hc Hi] by (unfold view in Hv; by inversion Hv).
    rewrite (getClient_call_joined _ _ _ Hc Hi) in Hstep.
    inversion Hstep; subst; clear Hstep.
    destruct (IH _ _ _ Hv Hq Hrest) as [Hv' Hh]. split; [done|].
    unfold calls_of in *. cbn. rewrite Z.eqb_refl. cbn. by rewrite Hh.
  - pose proof (step_quiet_view _ _ _ _ _ Hq1 Hne Hstep) as Hv1.
    rewrite Hv in Hv1.
    destruct (IH _ _ _ Hv1 Hq Hrest) as [Hv' Hh]. split; [done|].
    by rewrite handles_of_other, calls_of_other.
Qed.

(** From a state where [sid] has neither a client nor an attempt in
    flight: the first caller starts the one attempt, the others join it. *)
Lemma window_absent sid n evs : ∀ s rs s',
  view sid s = (None, None, n) →
  Forall (quiet sid) evs →
  run URL_new evs s = Some (rs, s') →
  match calls_of sid evs with
  | 0 => view sid s' = (None, None, n) ∧ handles_of sid evs rs = []
  | S k => ∃ p, view sid s' = (None, Some p, S n) ∧
                handles_of sid evs rs = Started p :: replicate k (Joined p)
  end.
Proof.
  induction evs as [|ev evs IH]; intros s rs s' Hv Hq Hrun.
  { cbn in Hrun. inversion Hrun; subst. done. }
  cbn in Hrun.
  destruct (step URL_new ev s) as [[r s1]|] eqn:Hstep; [|done].
  destruct (run URL_new evs s1) as [[rs1 s2]|] eqn:Hrest; [|done].
  inversion Hrun; subst; clear Hrun.
  apply Forall_cons in Hq as [Hq1 Hq].
  destruct (event_is_call_dec sid ev) as [->|Hne].
  - cbn in Hstep.
    assert (clients s !! sid = None ∧ initializingClients s !! sid = None
            ∧ init_count sid s = n)
      as (Hc & Hi & Hn) by (unfold view in Hv; by inversion Hv).
    rewrite (getClient_call_started _ _ Hc Hi) in Hstep.
    inversion Hstep; subst; clear Hstep.
    match type of Hrest with run _ _ ?s1 = _ =>
      assert (view sid s1 = (None, Some (length (attempts s)), S (init_count sid s))) as Hv1
    end.
    { unfold view, init_count in *. cbn. rewrite lookup_insert_eq, Hc.
      by rewrite Z.eqb_refl. }
    destruct (window_inflight _ _ _ _ _ _ _ Hv1 Hq Hrest) as [Hv' Hh].
    unfold calls_of in *. cbn. rewrite Z.eqb_refl. cbn.
    exists (length (attempts s)). split; [done|]. by rewrite Hh.
  - pose proof (step_quiet_view _ _ _ _ _ Hq1 Hne Hstep) as Hv1.
    rewrite Hv in Hv1.
    pose proof (IH _ _ _ Hv1 Hq Hrest) as IH'.
    by rewrite handles_of_other, calls_of_other.
Qed.

(** The owner's activation, resumed, returns exactly what the shared
    promise settled with. *)
Lemma resume_returns_outcome sid p o s :
  attempts s !! p = Some (mkAttempt sid (Settled o) true) →
  ∃ s', step URL_new (ResumeGetClient sid p) s = Some (RFinished (result_of o), s').
Proof.
  intros Ha. cbn. rewrite Ha, Z.eqb_refl.
  unfold_M. destruct o; cbn; eauto.
Qed.

Lemma resume_only_settled sid p s r s' :
  step URL_new (ResumeGetClient sid p) s = Some (r, s') →
  ∃ o, outcome_of s p = Some o ∧ r = RFinished (result_of o).
Proof.
  cbn. unfold outcome_of.
  destruct (attempts s !! p) as [[a [] []]|]; try done.
  destruct (a =? sid)%Z; [|done].
  unfold_M. destruct o; cbn; intros [= <- <-]; eauto.
Qed.

(** What [dispose] computes, in closed form. *)
Lemma dispose_eq sid s :
  dispose sid s =
    (Ok tt,
     mkMgr (delete sid (clients s)) (delete sid (initializingClients s))
           (attempts s)
           (match clients s !! sid with
            | Some c => EClose c :: trace s
            | None => trace s
            end)).
Proof.
  unfold_M. destruct (clients s !! sid) as [c|] eqn:Hc; cbn.
  - by destruct (close_throws c).
  - by rewrite (delete_id (clients s) sid Hc).
Qed.

(** Changing one element changes a count by that element's share. *)
Lemma filter_alter_length {A} (P : A → bool) (f : A → A) (l : list A) : ∀ q a,
  l !! q = Some a →
  length (List.filter P (alter f q l)) + (if P a then 1 else 0)
  = length (List.filter P l) + (if P (f a) then 1 else 0).
Proof.
  induction l as [|x l IH]; intros q a Hq; [done|].
  destruct q as [|q]; cbn in *.
  - inversion Hq; subst. destruct (P a), (P (f a)); cbn; lia.
  - specialize (IH q a Hq). destruct (P x); cbn; lia.
Qed.

(** Factory calls are paid for: each one uses up an attempt that waited
    for its row, and such attempts only come from [initializeClient]
    calls. *)
Lemma step_factory_bound sid ev s r s' :
  step URL_new ev s = Some (r, s') →
  create_count sid s' + pending_db sid s' + init_count sid s
  ≤ create_count sid s + pending_db sid s + init_count sid s'.
Proof.
  intros Hstep.
  destruct ev as [sid'|sid'|sid' q rows|sid' q w|sid' q]; cbn in Hstep.
  - destruct (getClient_call sid' s) as [[h|e] s1] eqn:Hcall; [|done].
    inversion Hstep; subst; clear Hstep.
    destruct (clients s !! sid') as [c|] eqn:Hc.
    { rewrite (getClient_call_cached _ _ _ Hc) in Hcall. inversion Hcall; subst. lia. }
    destruct (initializingClients s !! sid') as [p'|] eqn:Hi.
    { rewrite (getClient_call_joined _ _ _ Hc Hi) in Hcall. inversion Hcall; subst. lia. }
    rewrite (getClient_call_started _ _ Hc Hi) in Hcall.
    inversion Hcall; subst; clear Hcall.
    unfold create_count, pending_db, init_count; cbn.
    rewrite List.filter_app, length_app. unfold is_pending_db. cbn.
    destruct (sid' =? sid)%Z; cbn; lia.
  - rewrite dispose_eq in Hstep. inversion Hstep; subst; clear Hstep.
    unfold create_count, pending_db, init_count; cbn.
    destruct (clients s !! sid'); cbn; lia.
  - destruct (attempts s !! q) as [[a' [] b']|] eqn:Hq; try done.
    destruct (Z.eqb_spec a' sid') as [->|]; [|done].
    inversion Hstep; subst; clear Hstep.
    pose proof (filter_alter_length (is_pending_db sid)) as Hf.
    unfold_M. destruct (makeTransport URL_new sid' rows) as [t|e];
      unfold create_count, pending_db, init_count; cbn;
      match goal with |- context [alter ?f q (attempts s)] =>
        specialize (Hf f _ _ _ Hq) end;
      unfold is_pending_db in *; cbn in *;
      destruct (sid' =? sid)%Z; cbn in *; lia.
  - destruct (attempts s !! q) as [[a' [] b']|] eqn:Hq; try done.
    destruct (Z.eqb_spec a' sid') as [->|]; [|done].
    inversion Hstep; subst; clear Hstep.
    pose proof (filter_alter_length (is_pending_db sid)) as Hf.
    unfold_M. unfold create_count, pending_db, init_count; cbn.
    match goal with |- context [alter ?f q (attempts s)] =>
      specialize (Hf f _ _ _ Hq) end.
    unfold is_pending_db in *; cbn in *.
    rewrite andb_false_r in Hf. lia.
  - destruct (attempts s !! q) as [[a' [|t|o] []]|] eqn:Hq; try done.
    destruct (Z.eqb_spec a' sid') as [->|]; [|done].
    pose proof (filter_alter_length (is_pending_db sid)) as Hf.
    revert Hstep. unfold_M.
    destruct o; cbn; intros [= <- <-];
      unfold create_count, pending_db, init_count; cbn;
      match goal with |- context [alter ?f q (attempts s)] =>
        specialize (Hf f _ _ _ Hq) end;
      unfold is_pending_db in *; cbn in *;
      rewrite andb_false_r in Hf; lia.
Qed.

Lemma run_factory_bound sid evs : ∀ s rs s',
  run URL_new evs s = Some (rs, s') →
  create_count sid s' + pending_db sid s' + init_count sid s
  ≤ create_count sid s + pending_db sid s + init_count sid s'.
Proof.
  induction evs as [|ev evs IH]; intros s rs s' Hrun; cbn in Hrun.
  { inversion Hrun; subst. lia. }
  destruct (step URL_new ev s) as [[r s1]|] eqn:Hstep; [|done].
  destruct (run URL_new evs s1) as [[rs1 s2]|] eqn:Hrest; [|done].
  inversion Hrun; subst.
  pose proof (step_factory_bound sid _ _ _ _ Hstep).
  pose proof (IH _ _ _ Hrest). lia.
Qed.

(** A settled promise keeps its outcome. *)
Lemma outcome_stable ev s r s' p o :
  step URL_new ev s = Some (r, s') →
  outcome_of s p = Some o →
  outcome_of s' p = Some o.
Proof.
  unfold outcome_of. intros Hstep Ho.
  destruct (attempts s !! p) as [[a ph b]|] eqn:Hp; [|done].
  destruct ph as [| |o']; try done. inversion Ho; subst; clear Ho.
  destruct ev as [sid|sid|sid q rows|sid q w|sid q]; cbn in Hstep.
  - destruct (getClient_call sid s) as [[h|e] s1] eqn:Hcall; [|done].
    inversion Hstep; subst; clear Hstep.
    destruct (clients s !! sid) as [c|] eqn:Hc.
    { rewrite (getClient_call_cached _ _ _ Hc) in Hcall.
      inversion Hcall; subst. by rewrite Hp. }
    destruct (initializingClients s !! sid) as [p'|] eqn:Hi.
    { rewrite (getClient_call_joined _ _ _ Hc Hi) in Hcall.
      inversion Hcall; subst. by rewrite Hp. }
    rewrite (getClient_call_started _ _ Hc Hi) in Hcall.
    inversion Hcall; subst; cbn.
    rewrite lookup_app_l by (by eapply lookup_lt_Some). by rewrite Hp.
  - revert Hstep. unfold_M.
    destruct (clients s !! sid) as [c|]; cbn;
      [destruct (close_throws c); cbn|]; intros [= <- <-]; cbn; by rewrite Hp.
  - destruct (attempts s !! q) as [[a' [] b']|] eqn:Hq; try done.
    destruct (a' =? sid)%Z; [|done]. inversion Hstep; subst; clear Hstep.
    assert (q ≠ p) by congruence.
    unfold_M. destruct (makeTransport URL_new sid rows); cbn;
      rewrite list_lookup_alter_ne by done; by rewrite Hp.
  - destruct (attempts s !! q) as [[a' [] b']|] eqn:Hq; try done.
    destruct (a' =? sid)%Z; [|done]. inversion Hstep; subst; clear Hstep.
    assert (q ≠ p) by congruence.
    unfold_M. cbn. rewrite list_lookup_alter_ne by done. by rewrite Hp.
  - destruct (attempts s !! q) as [[a' [| |oq] []]|] eqn:Hq; try done.
    destruct (a' =? sid)%Z; [|done].
    revert Hstep. unfold_M.
    destruct oq; cbn; intros [= <- <-]; cbn;
      (destruct (decide (q = p)) as [->|];
       [rewrite list_lookup_alter_eq, Hp | rewrite list_lookup_alter_ne, Hp by done]; done).
Qed.

Lemma outcome_stable_run evs : ∀ s rs s' p o,
  run URL_new evs s = Some (rs, s') →
  outcome_of s p = Some o →
  outcome_of s' p = Some o.
Proof.
  induction evs as [|ev evs IH]; intros s rs s' p o Hrun Ho; cbn in Hrun.
  { by inversion Hrun; subst. }
  destruct (step URL_new ev s) as [[r s1]|] eqn:Hstep; [|done].
  destruct (run URL_new evs s1) as [[rs1 s2]|] eqn:Hrest; [|done].
  inversion Hrun; subst. eapply IH; [done|]. by eapply outcome_stable.
Qed.

(** ** C1: no duplicate initialization *)


(** ** C3: the in-flight entry goes away when the attempt settles *)

(** The two ways an attempt settles lead to the state C3 starts from. *)
Lemma race_settles sid p t b w s :
  attempts s !! p = Some (mkAttempt sid (AwaitingRace t) b) →
  ∃ s', step URL_new (RaceSettles sid p w) s = Some (RNone, s') ∧
        attempts s' !! p = Some (mkAttempt sid (Settled (race_outcome sid w)) b) ∧
        clients s' = clients s ∧
        initializingClients s' = initializingClients s ∧
        trace s' = trace s.
Proof.
  intros Ha. cbn. rewrite Ha, Z.eqb_refl. eexists; split; [done|].
  unfold_M; cbn. by rewrite list_lookup_alter_eq, Ha.
Qed.

Lemma db_returns sid p b rows s :
  attempts s !! p = Some (mkAttempt sid AwaitingDb b) →
  ∃ s', step URL_new (DbReturns sid p rows) s = Some (RNone, s') ∧
        clients s' = clients s ∧
        initializingClients s' = initializingClients s ∧
        match makeTransport URL_new sid rows with
        | Throw e =>
            attempts s' !! p = Some (mkAttempt sid (Settled (Rejected e)) b) ∧
            trace s' = trace s
        | Ok t =>
            attempts s' !! p = Some (mkAttempt sid (AwaitingRace t) b) ∧
            trace s' = ESetTimeout sid MCP_CLIENT_INIT_TIMEOUT_MS
                         :: ECreateMCPClient sid t :: trace s
        end.
Proof.
  intros Ha. cbn. rewrite Ha, Z.eqb_refl. eexists; split; [done|].
  unfold_M. destruct (makeTransport URL_new sid rows); cbn;
    by rewrite list_lookup_alter_eq, Ha.
Qed.

(** C3.  Once the attempt [p] of [sid] has settled with [o], success or
    failure, the owner's continuation runs, hands [o] to its caller and
    leaves no in-flight entry for [sid].  On success the client is cached.
    On failure the client registry is untouched, so when nothing was cached
    for [sid] the next [getClient sid] does not see the failed attempt: it
    makes a second [initializeClient] call and starts a fresh, pending
    promise different from [p]. *)
Theorem inflight_entry_removed_when_settled sid p o s :
  attempts s !! p = Some (mkAttempt sid (Settled o) true) →
  ∃ s',
    step URL_new (ResumeGetClient sid p) s = Some (RFinished (result_of o), s') ∧
    initializingClients s' !! sid = None ∧
    match o with
    | Resolved c => clients s' !! sid = Some c
    | Rejected e =>
        clients s' = clients s ∧
        (clients s !! sid = None →
         ∃ p' s'',
           step URL_new (CallGetClient sid) s' = Some (RHandle (Started p'), s'') ∧
           p' ≠ p ∧
           init_count sid s'' = S (init_count sid s') ∧
           attempts s'' !! p' = Some (mkAttempt sid AwaitingDb true) ∧
           initializingClients s'' !! sid = Some p')
    end.
Proof.
  intros Ha. cbn [step]. rewrite Ha, Z.eqb_refl.
  destruct o as [c|e].
  - eexists. split; [unfold_M; cbn; reflexivity|]. cbn.
    by rewrite lookup_delete_eq, lookup_insert_eq.
  - eexists. split; [unfold_M; cbn; reflexivity|]. cbn.
    rewrite lookup_delete_eq. do 2 (split; [done|]).
    intros Hc.
    match goal with |- context [getClient_call sid ?s1] =>
      rewrite (getClient_call_started sid s1) by (cbn; by rewrite ?lookup_delete_eq)
    end.
    do 2 eexists. split; [reflexivity|]. cbn.
    rewrite length_alter. repeat split.
    + apply lookup_lt_Some in Ha. lia.
    + unfold init_count. cbn. by rewrite Z.eqb_refl.
    + rewrite <- (length_alter (λ a, mkAttempt (att_server a) (att_phase a) false) (attempts s) p).
      by rewrite list_lookup_middle.
    + by rewrite lookup_insert_eq.
Qed.

(** ** C7: [dispose] *)

(** C7.  [dispose] returns normally in every state, whatever the client's
    [close()] does; afterwards [sid] has neither a client nor an in-flight
    entry and the other servers are as before.  With neither present to
    begin with the call changes nothing, so a second [dispose] in a row is
    such a no-op.  [close()] is called only on a client that was cached. *)
Theorem dispose_never_throws sid s :
  ∃ s',
    dispose sid s = (Ok tt, s') ∧
    clients s' !! sid = None ∧
    initializingClients s' !! sid = None ∧
    (∀ j, j ≠ sid → clients s' !! j = clients s !! j ∧
                    initializingClients s' !! j = initializingClients s !! j) ∧
    attempts s' = attempts s ∧
    trace s' = match clients s !! sid with
               | Some c => EClose c :: trace s
               | None => trace s
               end ∧
    (clients s !! sid = None → initializingClients s !! sid = None → s' = s) ∧
    dispose sid s' = (Ok tt, s').
Proof.
  eexists. split; [apply dispose_eq|]. cbn.
  rewrite !lookup_delete_eq. repeat split; try done.
  - by rewrite lookup_delete_ne.
  - by rewrite lookup_delete_ne.
  - intros Hc Hi. destruct s; cbn in *.
    by rewrite Hc, (delete_id _ _ Hc), (delete_id _ _ Hi).
  - rewrite dispose_eq. cbn.
    by rewrite lookup_delete_eq, !delete_delete_eq.
Qed.

(** ** C8: a configuration error comes before the race, after the query *)

Lemma makeTransport_bad sid rows row e :
  List.find (λ x, (row_id x =? sid)%Z) rows = Some row →
  BadConfiguration row e →
  makeTransport URL_new sid rows = Throw e.
Proof.
  intros Hfind Hbad. unfold makeTransport. rewrite Hfind.
  destruct Hbad as [H1 H2|H1 H2|H1 H2].
  - apply String.eqb_neq in H1, H2. by rewrite H1, H2.
  - rewrite H1. cbn. destruct (row_command row) as [c|]; [|done].
    cbn in H2. by rewrite H2.
  - rewrite H1. cbn. destruct (row_url row) as [u|]; [|done].
    cbn in H2. by rewrite H2.
Qed.

(** C8, amended.  The failure is not synchronous: a [getClient] call that
    starts an initialization always returns a pending promise, because
    [initializeClient] first awaits the database query.  When the query
    answers and the row of [sid] has a bad configuration, then in that very
    step, without suspending again, the promise is rejected with the error
    that describes the configuration fault; no client creation and no
    timer is started then or at any later time, and no race of this
    attempt can ever settle, because none was constructed. *)
Theorem initializeClient_rejects_bad_configuration sid p b rows row e s :
  attempts s !! p = Some (mkAttempt sid AwaitingDb b) →
  List.find (λ x, (row_id x =? sid)%Z) rows = Some row →
  BadConfiguration row e →
  (∀ s0 p0 s1,
     step URL_new (CallGetClient sid) s0 = Some (RHandle (Started p0), s1) →
     attempts s1 !! p0 = Some (mkAttempt sid AwaitingDb true) ∧
     outcome_of s1 p0 = None) ∧
  ∃ s',
    step URL_new (DbReturns sid p rows) s = Some (RNone, s') ∧
    outcome_of s' p = Some (Rejected e) ∧
    trace s' = trace s ∧
    create_count sid s' = create_count sid s ∧
    timer_count sid s' = timer_count sid s ∧
    (∀ evs rs s2 ev r s3,
       run URL_new evs s' = Some (rs, s2) →
       step URL_new ev s2 = Some (r, s3) →
       (∀ w, ev ≠ RaceSettles sid p w) ∧ (∀ rows', ev ≠ DbReturns sid p rows')).
Proof.
  intros Ha Hfind Hbad. split.
  { intros s0 p0 s1 Hcall. cbn in Hcall.
    destruct (clients s0 !! sid) as [c|] eqn:Hc.
    { by rewrite (getClient_call_cached _ _ _ Hc) in Hcall. }
    destruct (initializingClients s0 !! sid) as [p'|] eqn:Hi.
    { by rewrite (getClient_call_joined _ _ _ Hc Hi) in Hcall. }
    rewrite (getClient_call_started _ _ Hc Hi) in Hcall.
    inversion Hcall; subst; clear Hcall. unfold outcome_of. cbn.
    by rewrite list_lookup_middle. }
  destruct (db_returns _ _ _ rows _ Ha) as (s' & Hstep & _ & _ & Hm).
  rewrite (makeTransport_bad _ _ _ _ Hfind Hbad) in Hm. destruct Hm as [Ha' Htr].
  exists s'. split; [done|].
  assert (outcome_of s' p = Some (Rejected e)) as Ho
    by (unfold outcome_of; by rewrite Ha').
  split; [done|]. split; [done|].
  split; [unfold create_count; by rewrite Htr|].
  split; [unfold timer_count; by rewrite Htr|].
  intros evs rs s2 ev r s3 Hrun Hnext.
  pose proof (outcome_stable_run _ _ _ _ _ _ Hrun Ho) as Ho2.
  unfold outcome_of in Ho2.
  split; [intros w ->|intros rows' ->]; cbn in Hnext;
    destruct (attempts s2 !! p) as [[? [] ?]|]; done.
Qed.

(** ** C10: a dispose during initialization does not stick *)

(** C10.  There is an execution in which [getClient 1] starts an
    initialization, [dispose 1] is called while it is in flight and removes
    the in-flight entry (there is nothing to close), and the initialization
    then runs to success: its client is stored in the registry although no
    further [getClient] was called, and no [close()] was ever called. *)
Theorem dispose_during_initialization_is_undone :
  let sid := 1%Z in
  let c := mkClient 7 None in
  let row := mkServerRow 1 "stdio" (Some "npx") None None None in
  let later := [DbReturns sid 0 [row]; RaceSettles sid 0 (ClientCreated c);
                ResumeGetClient sid 0] in
  ∃ s1 s2 s3,
    step URL_new (CallGetClient sid) empty = Some (RHandle (Started 0), s1) ∧
    initializingClients s1 !! sid = Some 0 ∧
    step URL_new (CallDispose sid) s1 = Some (RDisposed (Ok tt), s2) ∧
    initializingClients s2 !! sid = None ∧
    clients s2 !! sid = None ∧
    run URL_new later s2 = Some ([RNone; RNone; RFinished (Ok c)], s3) ∧
    calls_of sid later = 0 ∧
    clients s3 !! sid = Some c ∧
    init_count sid s3 = 1 ∧
    (∀ c', EClose c' ∉ trace s3).
Proof.
  cbv zeta. do 3 eexists.
  split; [vm_compute; reflexivity|].
  split; [vm_compute; reflexivity|].
  split; [vm_compute; reflexivity|].
  split; [vm_compute; reflexivity|].
  split; [vm_compute; reflexivity|].
  split; [vm_compute; reflexivity|].
  split; [vm_compute; reflexivity|].
  split; [vm_compute; reflexivity|].
  split; [vm_compute; reflexivity|].
  intros c' Hin. cbn in Hin.
  repeat (apply elem_of_cons in Hin as [Hin|Hin]; [discriminate|]).
  by apply elem_of_nil in Hin.
Qed.

End Facts.

(** *** Concrete runs *)

Definition demo_url (u : string) : option string := Some u.
Definition demo_row : ServerRow :=
  mkServerRow 1 "stdio" (Some "npx") (Some ["-y"; "server"]) None None.
Definition demo_client : Client := mkClient 7 None.

(** Three callers of server 1, a caller of server 2 in between, and the
    database answering before the last caller arrives. *)
Definition demo_callers : list Event :=
  [ CallGetClient 1; CallGetClient 2; CallGetClient 1;
    DbReturns 1 0 [demo_row]; CallGetClient 1 ].


(** A failed attempt: the race is lost to an error of the factory. *)
Definition demo_failed : Mgr :=
  mkMgr ∅ {[ 1%Z := 0 ]}
        [mkAttempt 1 (Settled (Rejected "spawn npx ENOENT")) true]
        [ESetTimeout 1 MCP_CLIENT_INIT_TIMEOUT_MS;
         ECreateMCPClient 1 (StdioClientTransport "npx" ["-y"; "server"] None);
         EDbSelect 1; EInitializeClient 1 0].

Lemma demo_failed_reached :
  ∃ rs, run demo_url
          [CallGetClient 1; DbReturns 1 0 [demo_row];
           RaceSettles 1 0 (ClientFailed "spawn npx ENOENT")] empty
        = Some (rs, demo_failed).
Proof. eexists. vm_compute. reflexivity. Qed.

Lemma inflight_entry_removed_when_settled_witness :
  ∃ s',
    step demo_url (ResumeGetClient 1 0) demo_failed
      = Some (RFinished (Throw "spawn npx ENOENT"), s') ∧
    initializingClients s' !! 1%Z = None ∧
    ∃ p' s'', step demo_url (CallGetClient 1) s' = Some (RHandle (Started p'), s'')
              ∧ p' ≠ 0 ∧ init_count 1 s'' = 2.
Proof.
  destruct (inflight_entry_removed_when_settled demo_url 1 0
              (Rejected "spawn npx ENOENT") demo_failed)
    as (s' & Hstep & Hi & Hc & Hnext).
  - reflexivity.
  - exists s'. split; [exact Hstep|]. split; [exact Hi|].
    destruct Hnext as (p' & s'' & Hcall & Hne & Hn & _).
    + reflexivity.
    + exists p', s''. split; [exact Hcall|]. split; [exact Hne|].
      rewrite Hn. f_equal.
      assert (trace s' = trace demo_failed) as Ht.
      { cbn in Hstep. unfold_M. cbn in Hstep. by inversion Hstep. }
      unfold init_count. by rewrite Ht.
Defined.

(** A server row whose transport kind the manager does not know. *)
Definition demo_bad_row : ServerRow :=
  mkServerRow 3 "sse" None None None (Some "http://localhost:3000/sse").

Definition demo_awaiting_db : Mgr :=
  mkMgr ∅ {[ 3%Z := 0 ]} [mkAttempt 3 AwaitingDb true]
        [EDbSelect 3; EInitializeClient 3 0].

(** C8, as stated, fails: for a server with an unsupported transport kind
    the [getClient] call returns normally with a pending promise, so the
    initialization has not failed synchronously; the configuration is seen,
    and the promise rejected, only when the database query has answered. *)
Lemma initialization_failure_is_not_synchronous :
  ∃ s1 s2,
    step demo_url (CallGetClient 3) empty = Some (RHandle (Started 0), s1) ∧
    s1 = demo_awaiting_db ∧
    outcome_of s1 0 = None ∧
    step demo_url (DbReturns 3 0 [demo_bad_row]) s1 = Some (RNone, s2) ∧
    outcome_of s2 0 = Some (Rejected "Unsupported MCP transport: sse").
Proof.
  do 2 eexists. split; [vm_compute; reflexivity|].
  split; [vm_compute; reflexivity|].
  split; [reflexivity|]. split; [vm_compute; reflexivity|]. reflexivity.
Qed.

Lemma initializeClient_rejects_bad_configuration_witness :
  ∃ s',
    step demo_url (DbReturns 3 0 [demo_bad_row]) demo_awaiting_db = Some (RNone, s') ∧
    outcome_of s' 0 = Some (Rejected "Unsupported MCP transport: sse") ∧
    trace s' = trace demo_awaiting_db.
Proof.
  destruct (initializeClient_rejects_bad_configuration demo_url 3 0 true
              [demo_bad_row] demo_bad_row "Unsupported MCP transport: sse"
              demo_awaiting_db)
    as (_ & s' & Hstep & Ho & Ht & _).
  - reflexivity.
  - reflexivity.
  - apply (unsupported_transport demo_bad_row); discriminate.
  - exists s'. split; [exact Hstep|]. split; [exact Ho|]. exact Ht.
Defined.

(** A [close()] that throws is swallowed. *)
Example dispose_swallows_close_error :
  let c := mkClient 4 (Some "transport already closed") in
  dispose 9 (mkMgr {[ 9%Z := c ]} ∅ [] []) = (Ok tt, mkMgr ∅ ∅ [] [EClose c]).
Proof. vm_compute. reflexivity. Qed.

End McpManagerSpec.

(** ** The executable locator *)

Module GeminiCliDetectorSpec.
Import GeminiCliDetector.
Local Open Scope list_scope.

Section Host.
Variable access_X_OK : string → bool.
Variable runCommand : string → list string → Z → CommandResult.
Variable getEnvVar : string → option string.
Variable process_env_PATH : option string.
Variable process_platform : string.

Abbreviation qualifies := (qualifies access_X_OK runCommand process_platform).
Abbreviation command_of := (command_of runCommand process_platform).
Abbreviation resolve_loop := (resolve_loop access_X_OK runCommand process_platform).
Abbreviation candidates := (candidates getEnvVar process_env_PATH).
Abbreviation resolveCliPath :=
  (resolveCliPath access_X_OK runCommand getEnvVar process_env_PATH process_platform).

(** The candidates the auto-detection contributes: the PATH lookup of the
    canonical name, then the fixed list (which starts with that name again). *)
Definition auto_candidates : list string :=
  (if Js.truthy_opt process_env_PATH then "gemini" else EmptyString)
    :: DEFAULT_PATH_CANDIDATES.

Lemma qualifies_spec c cmd :
  qualifies c = Some cmd ↔
  Js.truthy_str c = true ∧ command_of c = Some cmd ∧
  Js.truthy_str cmd = true ∧ access_X_OK cmd = true.
Proof.
  unfold GeminiCliDetector.qualifies, ensureExecutable.
  destruct (Js.truthy_str c); cbn; [|by split; [|intros [? _]]].
  destruct (command_of c) as [cmd'|]; [|by split; [|intros (_ & ? & _)]].
  destruct (Js.truthy_str cmd') eqn:Ht, (access_X_OK cmd') eqn:Ha; cbn;
    (split; [intros [= <-]; done | intros (_ & [= <-] & Ht' & Ha'); congruence]).
Qed.

(** One turn of the loop: return at a qualifying candidate, else go on. *)
Lemma resolve_loop_cons c rest :
  resolve_loop (c :: rest) =
    match qualifies c with
    | Some cmd => mkResolution (Some cmd) None
    | None => resolve_loop rest
    end.
Proof.
  cbn. unfold GeminiCliDetector.qualifies, ensureExecutable.
  destruct (Js.truthy_str c); cbn; [|done].
  destruct (command_of c) as [cmd|]; [|done].
  by destruct (Js.truthy_str cmd), (access_X_OK cmd).
Qed.

Lemma resolve_loop_first pre : ∀ c post cmd,
  (∀ x, x ∈ pre → qualifies x = None) →
  qualifies c = Some cmd →
  resolve_loop (pre ++ c :: post) = mkResolution (Some cmd) None.
Proof.
  induction pre as [|x pre IH]; intros c post cmd Hpre Hc.
  - cbn [app]. by rewrite resolve_loop_cons, Hc.
  - cbn [app]. rewrite resolve_loop_cons, (Hpre x) by set_solver.
    apply IH; [|done]. intros y Hy. apply Hpre. set_solver.
Qed.

Lemma resolve_loop_none l :
  (∀ x, x ∈ l → qualifies x = None) →
  resolve_loop l = mkResolution None (Some "Gemini CLI executable not found").
Proof.
  induction l as [|x l IH]; intros Hl; [done|].
  rewrite resolve_loop_cons, (Hl x) by set_solver.
  apply IH. intros y Hy. apply Hl. set_solver.
Qed.

Lemma resolve_loop_found l : ∀ cmd,
  path (resolve_loop l) = Some cmd →
  ∃ pre c post, l = pre ++ c :: post ∧
                (∀ x, x ∈ pre → qualifies x = None) ∧
                qualifies c = Some cmd.
Proof.
  induction l as [|x l IH]; intros cmd Hp; [done|].
  rewrite resolve_loop_cons in Hp.
  destruct (qualifies x) as [cmd'|] eqn:Hx.
  - cbn in Hp. inversion Hp; subst. exists [], x, l.
    split; [done|]. split; [set_solver|done].
  - destruct (IH _ Hp) as (pre & c & post & -> & Hpre & Hc).
    exists (x :: pre), c, post. split; [done|]. split; [|done].
    intros y Hy. apply elem_of_cons in Hy as [->|Hy]; auto.
Qed.

(** The candidate list is: the explicit path, the environment override,
    the auto-detect candidates, each part present or empty. *)
Lemma candidates_parts options :
  candidates options =
    (if Js.truthy_opt (explicitPath options)
     then [default EmptyString (explicitPath options)] else [])
    ++ (if Js.truthy_opt (getEnvVar "GEMINI_CLI_PATH")
        then [default EmptyString (getEnvVar "GEMINI_CLI_PATH")] else [])
    ++ (match autoDetect options with
        | Some false => []
        | _ => auto_candidates
        end).
Proof.
  unfold GeminiCliDetector.candidates, auto_candidates.
  destruct (explicitPath options) as [e|]; cbn;
    [destruct (Js.truthy_str e)|];
    (destruct (getEnvVar "GEMINI_CLI_PATH") as [v|]; cbn;
     [destruct (Js.truthy_str v)|]); done.
Qed.


End Host.

(** *** A concrete host: everything is installed *)

Definition demo_access (p : string) : bool :=
  String.eqb p "/opt/tools/gemini" || String.eqb p "/env/gemini"
  || String.eqb p "/usr/local/bin/gemini".
Definition demo_run (cmd : string) (args : list string) (t : Z) : CommandResult :=
  mkCommandResult false EmptyString "not found".
Definition demo_env (name : string) : option string :=
  if String.eqb name "GEMINI_CLI_PATH" then Some "/env/gemini" else None.

Example explicit_path_wins :
  resolveCliPath demo_access demo_run demo_env (Some "/usr/bin") "linux"
    (mkOptions (Some "/opt/tools/gemini") None None)
  = mkResolution (Some "/opt/tools/gemini") None.
Proof. vm_compute. reflexivity. Qed.

Example environment_override_wins :
  resolveCliPath demo_access demo_run demo_env (Some "/usr/bin") "linux"
    (mkOptions None None None)
  = mkResolution (Some "/env/gemini") None.
Proof. vm_compute. reflexivity. Qed.

Example first_executable_candidate_wins :
  resolveCliPath demo_access demo_run (λ _, None) (Some "/usr/bin") "linux"
    (mkOptions None None None)
  = mkResolution (Some "/usr/local/bin/gemini") None.
Proof. vm_compute. reflexivity. Qed.

End GeminiCliDetectorSpec.

(** ** Strings *)

Module JsFacts.
Import Js.
#[local] Arguments String.append !_ _ / : simpl nomatch.

Lemma startsWith_app s t :
  startsWith s t = true ↔ ∃ r, s = t ++ r.
Proof.
  revert s. induction t as [|b t IH]; intros s; cbn.
  - split; [eauto|done].
  - destruct s as [|a s]; cbn.
    + split; [done|]. by intros [r Hr].
    + rewrite andb_true_iff, IH. split.
      * intros [Hab [r ->]]. apply Ascii.eqb_eq in Hab as ->. eauto.
      * intros [r [= -> ->]]. split; [apply Ascii.eqb_refl|eauto].
Qed.

Lemma app_assoc_str (a b c : string) : (a ++ b) ++ c = a ++ b ++ c.
Proof. induction a as [|x a IH]; cbn; [done|by rewrite IH]. Qed.

Lemma includes_app s t :
  includes s t = true ↔ ∃ a b, s = a ++ t ++ b.
Proof.
  induction s as [|x s IH]; cbn.
  - rewrite orb_false_r, startsWith_app. split.
    + intros [r ->]. by exists EmptyString, r.
    + intros (a & b & H). destruct a; cbn in H; [eauto|done].
  - rewrite orb_true_iff, startsWith_app, IH. split.
    + intros [[r Hr]|(a & b & ->)].
      * by exists EmptyString, r.
      * by exists (String x a), b.
    + intros (a & b & H). destruct a as [|y a]; cbn in H.
      * left. eauto.
      * right. inversion H; subst. eauto.
Qed.

Lemma toLowerCase_app a b :
  toLowerCase (a ++ b) = toLowerCase a ++ toLowerCase b.
Proof. induction a as [|x a IH]; cbn; [done|by rewrite IH]. Qed.

(** Case folding keeps an occurrence in place. *)
Lemma includes_toLowerCase s t :
  includes s t = true →
  includes (toLowerCase s) (toLowerCase t) = true.
Proof.
  rewrite !includes_app. intros (a & b & ->).
  exists (toLowerCase a), (toLowerCase b). by rewrite !toLowerCase_app.
Qed.

(** A part of a part is a part. *)
Lemma includes_trans s t u :
  includes s t = true → includes t u = true → includes s u = true.
Proof.
  rewrite !includes_app. intros (a & b & ->) (c & d & ->).
  exists (a ++ c), (d ++ b). by rewrite !app_assoc_str.
Qed.

Lemma includes_truthy s t :
  includes s t = true → truthy_str t = true → truthy_str s = true.
Proof.
  rewrite includes_app. intros (a & b & ->) Ht.
  destruct a; [|done]. by destruct t.
Qed.

(** Strings made of white space only. *)
Fixpoint all_space (s : string) : bool :=
  match s with
  | EmptyString => true
  | String c r => is_space c && all_space r
  end.

Lemma trimEnd_empty s : trimEnd s = EmptyString → all_space s = true.
Proof.
  induction s as [|c s IH]; cbn; [done|].
  destruct (trimEnd s); [|done].
  destruct (is_space c); [|done]. intros _. by apply IH.
Qed.

Lemma trimStart_space_or_head s :
  match trimStart s with
  | EmptyString => all_space s = true
  | String c _ => is_space c = false
  end.
Proof.
  induction s as [|c s IH]; cbn; [done|].
  destruct (is_space c) eqn:Hc; cbn; done.
Qed.

Lemma trim_empty s : trim s = EmptyString → all_space s = true.
Proof.
  unfold trim. intros H. apply trimEnd_empty in H.
  pose proof (trimStart_space_or_head s) as Hs.
  destruct (trimStart s) as [|c r]; [done|].
  cbn in H. by rewrite Hs in H.
Qed.

Lemma lower_ascii_space c : is_space c = true → lower_ascii c = c.
Proof.
  destruct c as [[] [] [] [] [] [] [] []]; vm_compute; congruence.
Qed.

Lemma toLowerCase_all_space s : all_space s = true → toLowerCase s = s.
Proof.
  induction s as [|c s IH]; cbn; [done|].
  rewrite andb_true_iff. intros [Hc Hs]. by rewrite lower_ascii_space, IH.
Qed.

(** A blank string contains no text that starts with a visible character. *)
Lemma all_space_includes s c t :
  all_space s = true → is_space c = false → includes s (String c t) = false.
Proof.
  intros Hs Hc. induction s as [|x s IH]; cbn; [done|].
  cbn in Hs. apply andb_true_iff in Hs as [Hx Hs].
  rewrite (IH Hs), orb_false_r.
  destruct (Ascii.eqb_spec x c) as [->|]; [congruence|done].
Qed.

(** A line in which a visible text occurs, even after case folding, does
    not trim to the empty string. *)
Lemma trim_truthy s c t :
  includes (toLowerCase s) (String c t) = true → is_space c = false →
  truthy_str (trim s) = true.
Proof.
  intros Hi Hc. destruct (trim s) eqn:Ht; [|done].
  apply trim_empty in Ht.
  rewrite (toLowerCase_all_space _ Ht) in Hi.
  by rewrite (all_space_includes _ _ _ Ht Hc) in Hi.
Qed.

End JsFacts.

(** ** The protocol bridges *)

Module BridgeSpec.
Import Js Http JsFacts.
Local Open Scope list_scope.

(** The failure text of the quota test. *)
Definition RATE_LIMIT_TEXT : string := "Rate limit exceeded, try again later (429)".

(** The quota indicators of the two bridges. *)
Definition codex_indicator (s : string) : bool :=
  includes (toLowerCase s) "rate limit"
  || includes (toLowerCase s) "quota"
  || includes (toLowerCase s) "429".

Definition gemini_indicator (s : string) : bool :=
  includes (toLowerCase s) "quota exceeded"
  || includes (toLowerCase s) "rate_limit_exceeded"
  || includes (toLowerCase s) "resource_exhausted".

(** The fields of a synthesized error body. *)
Definition error_code (r : Response) : option string := as_string (error_field "code" r).
Definition error_type (r : Response) : option string := as_string (error_field "type" r).
Definition error_message (r : Response) : option string := as_string (error_field "message" r).

(** [JSON.parse] on texts that are not JSON documents: it throws. *)
Definition not_json (text : string) : option JSON := None.

(** *** The Codex detector *)

Lemma codex_detect_spec raw :
  CodexCliProvider.detectQuotaMessage (Some raw) =
    if truthy_str raw && codex_indicator raw
    then Some (default "OpenAI quota exceeded."
                 (List.find (λ line, (0 <? String.length line)%nat)
                    (List.map trim (splitLines raw))))
    else None.
Proof.
  unfold CodexCliProvider.detectQuotaMessage, codex_indicator.
  destruct (truthy_str raw); cbn; [|done].
  by destruct (_ || _ || _).
Qed.

Lemma codex_detect_truthy raw q :
  CodexCliProvider.detectQuotaMessage (Some raw) = Some q → truthy_str q = true.
Proof.
  rewrite codex_detect_spec. destruct (_ && _); [|done]. intros [= <-].
  destruct (List.find _ _) as [l|] eqn:Hf; cbn; [|done].
  apply List.find_some in Hf as [_ Hl]. by destruct l.
Qed.

Lemma codex_indicator_text raw :
  includes raw RATE_LIMIT_TEXT = true →
  truthy_str raw && codex_indicator raw = true.
Proof.
  intros Hi. apply andb_true_iff. split.
  - by apply (includes_truthy _ _ Hi).
  - unfold codex_indicator.
    rewrite (includes_trans _ _ "rate limit" (includes_toLowerCase _ _ Hi)); done.
Qed.

Lemma codex_detect_none raw :
  CodexCliProvider.detectQuotaMessage (Some raw) = None ↔
  truthy_str raw && codex_indicator raw = false.
Proof. rewrite codex_detect_spec. by destruct (_ && _). Qed.

(** *** The Gemini detector *)

Lemma gemini_indicator_truthy raw : gemini_indicator raw = true → truthy_str raw = true.
Proof. by destruct raw. Qed.

Lemma gemini_detect_none raw :
  GeminiCliProvider.detectQuotaMessage (Some raw) = None ↔ gemini_indicator raw = false.
Proof.
  unfold GeminiCliProvider.detectQuotaMessage, gemini_indicator.
  destruct raw as [|c r]; [done|]. cbn [truthy_str negb].
  by destruct (_ || _ || _).
Qed.

Lemma gemini_detect_truthy raw q :
  GeminiCliProvider.detectQuotaMessage (Some raw) = Some q → truthy_str q = true.
Proof.
  unfold GeminiCliProvider.detectQuotaMessage.
  destruct (negb (truthy_str raw)); [done|].
  destruct (includes (toLowerCase raw) "quota exceeded") eqn:H1;
    [|destruct (includes (toLowerCase raw) "rate_limit_exceeded") eqn:H2;
      [|destruct (includes (toLowerCase raw) "resource_exhausted") eqn:H3]];
    cbn [orb]; try done; intros [= <-];
    (destruct (List.find (λ line, includes (toLowerCase line) "quota exceeded") _)
       as [l|] eqn:Hf1;
     [apply List.find_some in Hf1 as [_ Hl]; by eapply trim_truthy|]);
    (destruct (List.find (λ line, includes (toLowerCase line) "rate_limit_exceeded") _)
       as [l|] eqn:Hf2;
     [apply List.find_some in Hf2 as [_ Hl]; by eapply trim_truthy|]);
    by eapply trim_truthy.
Qed.

(** The combined output the Gemini bridge scans:
    [[stderr, stdout].filter(Boolean).join("\n")]. *)
Definition gemini_combined (e : GeminiCliProvider.CliExecutionResult) : string :=
  join LF (List.filter truthy_str
             [GeminiCliProvider.stderr e; GeminiCliProvider.stdout e]).

(** What the Gemini bridge answers to a failed execution whose outputs are
    not JSON error documents. *)
Lemma gemini_plain_failure now parse modelId body e :
  GeminiCliProvider.success e = false →
  GeminiCliProvider.tryParseError parse (GeminiCliProvider.stdout e) = None →
  GeminiCliProvider.tryParseError parse (GeminiCliProvider.stderr e) = None →
  ∃ r, GeminiCliProvider.createCliFetch now parse modelId body e = Some r ∧
       if gemini_indicator (GeminiCliProvider.fallback_message e)
          || gemini_indicator (gemini_combined e)
       then status r = 429%Z ∧ error_code r = Some "quota_exceeded"
            ∧ error_type r = Some "rate_limit_exceeded"
       else status r = 500%Z ∧ error_code r = None
            ∧ error_type r = Some "gemini_cli_error"
            ∧ error_message r = Some (GeminiCliProvider.fallback_message e).
Proof.
  intros Hs H1 H2. unfold GeminiCliProvider.createCliFetch.
  rewrite Hs, H1, H2. cbn [negb]. fold (gemini_combined e).
  destruct (GeminiCliProvider.detectQuotaMessage
              (Some (GeminiCliProvider.fallback_message e))) as [q|] eqn:Hq.
  - assert (gemini_indicator (GeminiCliProvider.fallback_message e) = true) as ->.
    { apply not_false_iff_true. intros H.
      apply gemini_detect_none in H. congruence. }
    cbn. rewrite (gemini_detect_truthy _ _ Hq). eexists; split; done.
  - apply gemini_detect_none in Hq. rewrite Hq. cbn [orb].
    destruct (GeminiCliProvider.detectQuotaMessage (Some (gemini_combined e)))
      as [q|] eqn:Hq2.
    + assert (gemini_indicator (gemini_combined e) = true) as ->.
      { apply not_false_iff_true. intros H.
        apply gemini_detect_none in H. congruence. }
      cbn. rewrite (gemini_detect_truthy _ _ Hq2). eexists; split; done.
    + apply gemini_detect_none in Hq2. rewrite Hq2. cbn. eexists; split; done.
Qed.

(** *** The Codex bridge on a failed execution *)

Definition codex_quota (e : CodexCliProvider.CliExecutionResult) : option string :=
  match CodexCliProvider.detectQuotaMessage (Some (CodexCliProvider.stderr e)) with
  | Some q => Some q
  | None => CodexCliProvider.detectQuotaMessage (Some (CodexCliProvider.stdout e))
  end.

Lemma codex_quota_truthy e q : codex_quota e = Some q → truthy_str q = true.
Proof.
  unfold codex_quota.
  destruct (CodexCliProvider.detectQuotaMessage (Some (CodexCliProvider.stderr e)))
    as [q'|] eqn:H1.
  - intros [= <-]. by eapply codex_detect_truthy.
  - apply codex_detect_truthy.
Qed.

Lemma codex_failure now parse modelId body e :
  CodexCliProvider.success e = false →
  CodexCliProvider.createCodexCliFetch now parse modelId body e =
    match codex_quota e with
    | Some q =>
        CodexCliProvider.error_response 429
          [ ("message", JString q);
            ("type", JString "rate_limit_exceeded");
            ("code", JString "quota_exceeded") ]
    | None =>
        if includes (CodexCliProvider.stderr e) "401"
           || includes (CodexCliProvider.stdout e) "401"
        then CodexCliProvider.error_response 401
               [ ("message", JString CodexCliProvider.UNAUTHORIZED_MESSAGE);
                 ("type", JString "codex_cli_error");
                 ("code", JString "unauthorized") ]
        else CodexCliProvider.error_response 500
               [ ("message", JString (CodexCliProvider.failure_message e));
                 ("type", JString "codex_cli_error") ]
    end.
Proof.
  intros Hs. unfold CodexCliProvider.createCodexCliFetch. rewrite Hs. cbn [negb].
  fold (codex_quota e).
  destruct (codex_quota e) as [q|] eqn:Hq.
  - cbn [truthy_opt]. by rewrite (codex_quota_truthy _ _ Hq).
  - cbn [truthy_opt]. by destruct (_ || _).
Qed.

Lemma codex_quota_text e :
  includes (CodexCliProvider.stderr e) RATE_LIMIT_TEXT = true
  ∨ includes (CodexCliProvider.stdout e) RATE_LIMIT_TEXT = true →
  is_Some (codex_quota e).
Proof.
  unfold codex_quota. rewrite !codex_detect_spec.
  destruct (truthy_str (CodexCliProvider.stderr e) && _) eqn:H1; [by eexists|].
  intros [H|H]; apply codex_indicator_text in H; [congruence|].
  rewrite H. by eexists.
Qed.

(** The Codex bridge finds no quota message exactly when neither output
    is a non-empty text with one of its indicators. *)
Lemma codex_quota_none e :
  codex_quota e = None ↔
  truthy_str (CodexCliProvider.stderr e) && codex_indicator (CodexCliProvider.stderr e) = false ∧
  truthy_str (CodexCliProvider.stdout e) && codex_indicator (CodexCliProvider.stdout e) = false.
Proof.
  unfold codex_quota. rewrite <- !codex_detect_none.
  destruct (CodexCliProvider.detectQuotaMessage (Some (CodexCliProvider.stderr e)));
    naive_solver.
Qed.

(** ** C4: quota detection *)

(** C4, as stated, fails on the Gemini bridge: a failed execution whose
    standard error is the rate-limit text gets status 500 there, because
    that text contains none of the bridge's indicators. *)
Lemma gemini_bridge_misses_rate_limit_text :
  let e := GeminiCliProvider.mkExec false EmptyString RATE_LIMIT_TEXT None in
  GeminiCliProvider.success e = false ∧
  includes (GeminiCliProvider.stderr e)
           "Rate limit exceeded, try again later (429)" = true ∧
  ∃ r, GeminiCliProvider.createCliFetch 0 not_json "gemini-2.5-pro" (JObject []) e
         = Some r ∧
       status r = 500%Z ∧ status r ≠ 429%Z ∧ error_code r = None.
Proof.
  cbv zeta. split; [done|]. split; [vm_compute; reflexivity|].
  eexists. split; [vm_compute; reflexivity|]. cbn. done.
Qed.

(** C4, amended.  The Codex bridge answers every failed execution whose
    standard error or standard output contains the rate-limit text with
    status 429 and the error code [quota_exceeded], and a failed execution
    that says "file not found" with status 500.  The Gemini bridge looks
    for "quota exceeded", "rate_limit_exceeded" and "resource_exhausted":
    on a failed execution whose outputs are not JSON error documents it
    answers 429 with the code [quota_exceeded] when one of them occurs in
    the error message or the combined output and 500 otherwise, so both
    the rate-limit text and "file not found" get 500 from it. *)
Theorem quota_detection_by_bridge :
  (∀ now parse modelId body e,
     CodexCliProvider.success e = false →
     includes (CodexCliProvider.stderr e) RATE_LIMIT_TEXT = true
     ∨ includes (CodexCliProvider.stdout e) RATE_LIMIT_TEXT = true →
     let r := CodexCliProvider.createCodexCliFetch now parse modelId body e in
     status r = 429%Z ∧ error_code r = Some "quota_exceeded"
     ∧ error_type r = Some "rate_limit_exceeded") ∧
  (∀ now parse modelId body launch,
     let e := CodexCliProvider.mkExec false EmptyString "file not found" launch in
     let r := CodexCliProvider.createCodexCliFetch now parse modelId body e in
     status r = 500%Z ∧ error_code r = None
     ∧ error_message r = Some "file not found") ∧
  (∀ now parse modelId body e,
     GeminiCliProvider.success e = false →
     GeminiCliProvider.tryParseError parse (GeminiCliProvider.stdout e) = None →
     GeminiCliProvider.tryParseError parse (GeminiCliProvider.stderr e) = None →
     ∃ r, GeminiCliProvider.createCliFetch now parse modelId body e = Some r ∧
          if gemini_indicator (GeminiCliProvider.fallback_message e)
             || gemini_indicator (gemini_combined e)
          then status r = 429%Z ∧ error_code r = Some "quota_exceeded"
               ∧ error_type r = Some "rate_limit_exceeded"
          else status r = 500%Z ∧ error_code r = None
               ∧ error_type r = Some "gemini_cli_error"
               ∧ error_message r = Some (GeminiCliProvider.fallback_message e)) ∧
  (∀ now parse modelId body launch text,
     text = RATE_LIMIT_TEXT ∨ text = "file not found" →
     parse text = None →
     let e := GeminiCliProvider.mkExec false EmptyString text launch in
     ∃ r, GeminiCliProvider.createCliFetch now parse modelId body e = Some r ∧
          status r = 500%Z ∧ error_message r = Some text).
Proof.
  split; [|split; [|split]].
  - intros now parse modelId body e Hs Ht. cbv zeta.
    rewrite (codex_failure _ _ _ _ _ Hs).
    destruct (codex_quota_text _ Ht) as [q ->]. done.
  - intros now parse modelId body launch. cbv zeta.
    rewrite codex_failure by done. vm_compute. done.
  - apply gemini_plain_failure.
  - intros now parse modelId body launch text Ht Hp. cbv zeta.
    destruct (gemini_plain_failure now parse modelId body
                (GeminiCliProvider.mkExec false EmptyString text launch))
      as (r & Hr & Hcase).
    + done.
    + done.
    + unfold GeminiCliProvider.tryParseError. cbn. rewrite Hp.
      by destruct (negb (truthy_str text)).
    + exists r. split; [done|].
      destruct Ht as [-> | ->]; vm_compute in Hcase; naive_solver.
Qed.

(** ** C5: unauthorized and generic failures *)


(** The Gemini bridge on a failed execution whose standard output (or,
    failing that, standard error) is a JSON error document with a string
    message free of quota indicators. *)
Lemma gemini_document_failure now parse modelId body e m :
  GeminiCliProvider.success e = false →
  (GeminiCliProvider.tryParseError parse (GeminiCliProvider.stdout e) = Some (JString m)
   ∨ (GeminiCliProvider.tryParseError parse (GeminiCliProvider.stdout e) = None ∧
      GeminiCliProvider.tryParseError parse (GeminiCliProvider.stderr e) = Some (JString m))) →
  gemini_indicator m = false →
  gemini_indicator (gemini_combined e) = false →
  ∃ r, GeminiCliProvider.createCliFetch now parse modelId body e = Some r ∧
       status r = 500%Z ∧ error_message r = Some m.
Proof.
  intros Hs Hdoc Hm Hc. unfold GeminiCliProvider.createCliFetch.
  rewrite Hs. cbn [negb]. fold (gemini_combined e).
  apply gemini_detect_none in Hm, Hc.
  destruct Hdoc as [-> | [-> ->]]; rewrite Hm, Hc; cbn; eexists; split; done.
Qed.


(** ** C9: streaming and single-shot responses carry the same text *)

(** The frames of a streamed body. *)
Definition frames_of (r : Response) : list Frame :=
  match body r with StreamBody fs => fs | JsonBody _ => [] end.

Definition stream_request : JSON := JObject [("stream", JBool true)].
Definition plain_request : JSON := JObject [].

(** C9.  For every text, usage record, model and time, in both bridges:
    the single-shot response's message content is the text; the streamed
    response consists of a role chunk, one content chunk, a stop chunk
    and the end-of-stream marker, in this order, and the concatenation of
    its content deltas is the text.  Hence the two are equal, and so are
    the two answers of the fetch function to one successful execution. *)
Theorem streaming_parity :
  (∀ now text usage modelId,
     let j := GeminiCliProvider.createJsonResponse now text usage modelId in
     let s := GeminiCliProvider.createStreamingResponse now text usage modelId in
     message_content j = Some text ∧
     streamed_content s = message_content j ∧
     List.map delta_role (frames_of s) = [Some "assistant"; None; None; None] ∧
     List.map delta_content (frames_of s) = [None; Some text; None; None] ∧
     List.map finish_reason (frames_of s) = [None; None; Some "stop"; None] ∧
     List.nth_error (frames_of s) 3 = Some Done) ∧
  (∀ now text modelId,
     let j := CodexCliProvider.createJsonResponse now text modelId in
     let s := CodexCliProvider.createStreamingResponse now text modelId in
     message_content j = Some text ∧
     streamed_content s = message_content j ∧
     List.map delta_role (frames_of s) = [Some "assistant"; None; None; None] ∧
     List.map delta_content (frames_of s) = [None; Some text; None; None] ∧
     List.map finish_reason (frames_of s) = [None; None; Some "stop"; None] ∧
     List.nth_error (frames_of s) 3 = Some Done) ∧
  (∀ now parse modelId e,
     GeminiCliProvider.success e = true →
     ∃ j s text,
       GeminiCliProvider.createCliFetch now parse modelId plain_request e = Some j ∧
       GeminiCliProvider.createCliFetch now parse modelId stream_request e = Some s ∧
       message_content j = Some text ∧ streamed_content s = Some text) ∧
  (∀ now parse modelId e,
     CodexCliProvider.success e = true →
     let j := CodexCliProvider.createCodexCliFetch now parse modelId plain_request e in
     let s := CodexCliProvider.createCodexCliFetch now parse modelId stream_request e in
     (status j = 500%Z ∧ s = j) ∨
     (∃ text, message_content j = Some text ∧ streamed_content s = Some text)).
Proof.
  split; [|split; [|split]].
  - intros now text usage modelId. cbv zeta. by repeat split.
  - intros now text modelId. cbv zeta. by repeat split.
  - intros now parse modelId e Hs. unfold GeminiCliProvider.createCliFetch.
    rewrite Hs. cbn [negb].
    destruct (GeminiCliProvider.parseCliJson parse (GeminiCliProvider.stdout e))
      as [text usage].
    do 2 eexists. exists text. by repeat split.
  - intros now parse modelId e Hs. cbv zeta.
    unfold CodexCliProvider.createCodexCliFetch. rewrite Hs. cbn [negb].
    destruct (CodexCliProvider.parseCodexEvents parse (CodexCliProvider.stdout e))
      as [text errorMessage].
    destruct (truthy_opt errorMessage); [by left|].
    right. exists text. by split.
Qed.

End BridgeSpec.

(** ** Routing and fallback *)

Module GetModelClientSpec.
Import Js GetModelClient.
Local Open Scope list_scope.

(** The two providers with a CLI and an API path. *)
Inductive Provider := google | openai.

Definition provider_id (p : Provider) : string :=
  match p with google => "google" | openai => "openai" end.

(** The words each case uses. *)
Definition cli_failed (p : Provider) : string :=
  match p with google => "Gemini CLI failed" | openai => "Codex CLI failed" end.

Definition no_credential_for_fallback (p : Provider) : string :=
  match p with
  | google => "Gemini CLI is unavailable and no Gemini API key is configured for fallback. Provide an API key or fix the CLI configuration."
  | openai => "Codex CLI is unavailable and no OpenAI API key is configured for fallback. Provide an API key or fix the CLI configuration."
  end.

Definition mk_mode (m : ConnectionMode) (fallback : option bool)
    (st : ProviderSetting) : option ProviderSetting :=
  Some (mkSetting (Some m) (cliPath st) (cliAutoDetect st) fallback
                  (cliPreferredModels st) (cliTimeoutMs st)).

Section Providers.
Variable ensureCliAvailable : option string → bool → Thrown + CliInfo.
Variable createCliModel :
  string → string → option Z → option string → Thrown + Model.
Variable JSON_stringify : JSON → string.

(** [resolveModelClient] for one provider, and its local attempt. *)
Definition route (p : Provider) :
    string → option string → option ProviderSetting → list Call * (Thrown + Clients) :=
  match p with
  | google => getRegularModelClient_google ensureCliAvailable createCliModel JSON_stringify
  | openai => getRegularModelClient_openai ensureCliAvailable createCliModel JSON_stringify
  end.

Definition local_attempt (p : Provider) (name : string) (apiKey : option string)
    (st : option ProviderSetting) : list Call * (Thrown + Model) :=
  match p with
  | google => try_cli ensureCliAvailable createCliModel
                "Gemini CLI path could not be resolved." None name st
  | openai => try_cli ensureCliAvailable createCliModel
                "Codex CLI path could not be resolved." apiKey name st
  end.

(** The local attempt never calls the remote factory. *)
Lemma try_cli_local pathErr withKey name st :
  existsb is_remote
    (fst (try_cli ensureCliAvailable createCliModel pathErr withKey name st)) = false.
Proof.
  unfold try_cli. destruct (ensureCliAvailable _ _) as [e|info]; [done|].
  destruct (info_path info) as [p|]; [|done]. by destruct (truthy_str p).
Qed.

Lemma local_attempt_local p name apiKey st :
  existsb is_remote (fst (local_attempt p name apiKey st)) = false.
Proof. destruct p; apply try_cli_local. Qed.

(** The routing of either provider when a local path is requested. *)
Lemma route_local p name apiKey st m :
  st ≫= connectionMode = Some m → is_api m = false →
  route p name apiKey st =
    match local_attempt p name apiKey st with
    | (calls, inr cliModel) => (calls, inr (client (provider_id p) cliModel))
    | (calls, inl error) =>
        if negb (is_auto m || default true (st ≫= cliFallbackToApi))
        then (calls, inl (ErrorObject (describe JSON_stringify (cli_failed p) error)))
        else match apiKey with
             | Some k =>
                 if truthy_str k
                 then (CreateApiProvider k :: calls,
                       inr (client (provider_id p) (ApiModel k name)))
                 else (calls, inl (ErrorObject (no_credential_for_fallback p)))
             | None => (calls, inl (ErrorObject (no_credential_for_fallback p)))
             end
    end.
Proof.
  intros Hm Hapi.
  destruct p; cbn [route local_attempt provider_id cli_failed no_credential_for_fallback];
    unfold getRegularModelClient_google, getRegularModelClient_openai;
    rewrite Hm;
    destruct (try_cli _ _ _ _ _ _) as [calls [error|cliModel]];
    destruct m; try discriminate; cbn; try done;
    destruct (default true (st ≫= cliFallbackToApi)); cbn; try done;
    destruct apiKey as [k|]; cbn; try done;
    destruct (truthy_str k); done.
Qed.

(** The routing of either provider in remote-only mode. *)
Lemma route_api p name apiKey st :
  default api (st ≫= connectionMode) = api →
  ∃ message,
    route p name apiKey st =
      match apiKey with
      | Some k =>
          if truthy_str k
          then ([CreateApiProvider k], inr (client (provider_id p) (ApiModel k name)))
          else ([], inl (ErrorObject message))
      | None => ([], inl (ErrorObject message))
      end.
Proof.
  intros Hm.
  destruct p; cbn [route provider_id];
    unfold getRegularModelClient_google, getRegularModelClient_openai;
    rewrite Hm; cbn [is_api negb orb]; eexists;
    (destruct apiKey as [k|]; [destruct (truthy_str k)|]; reflexivity).
Qed.

(** C2.  For both providers.  (1) Local-only mode, fallback flag false,
    local path failing: the call rejects with the local error's message
    and the remote factory is not called.  (2) Local-only mode, fallback
    flag true, local path failing, credential present: the remote factory
    is called with the credential and its client is returned.  (3)
    Automatic mode, local path failing, no credential: the call rejects
    with the "no API key is configured for fallback" message.  (4)
    Remote-only mode (also the default): no call of the local path is
    made, whatever the detector would answer.  (5) In general, when the
    local path fails the remote factory is called exactly when
    [mode = auto || fallback flag] holds and a credential is present. *)
Theorem fallback_policy_matrix (p : Provider) (name : string)
    (apiKey : option string) (st : ProviderSetting) :
  (∀ calls error,
     local_attempt p name apiKey (mk_mode cli (Some false) st) = (calls, inl error) →
     route p name apiKey (mk_mode cli (Some false) st)
       = (calls, inl (ErrorObject (describe JSON_stringify (cli_failed p) error)))
     ∧ (∀ message, error = ErrorObject message →
          describe JSON_stringify (cli_failed p) error = message)
     ∧ existsb is_remote calls = false) ∧
  (∀ calls error k,
     local_attempt p name apiKey (mk_mode cli (Some true) st) = (calls, inl error) →
     apiKey = Some k → truthy_str k = true →
     route p name apiKey (mk_mode cli (Some true) st)
       = (CreateApiProvider k :: calls,
          inr (client (provider_id p) (ApiModel k name)))) ∧
  (∀ calls error flag,
     local_attempt p name apiKey (mk_mode auto flag st) = (calls, inl error) →
     truthy_opt apiKey = false →
     route p name apiKey (mk_mode auto flag st)
       = (calls, inl (ErrorObject (no_credential_for_fallback p)))
     ∧ includes (no_credential_for_fallback p)
         "API key is configured for fallback" = true
     ∧ existsb is_remote calls = false) ∧
  (∀ flag settings,
     settings = mk_mode api flag st ∨ settings = None
     ∨ (∃ st', settings = Some st' ∧ connectionMode st' = None) →
     existsb is_local (fst (route p name apiKey settings)) = false) ∧
  (∀ m flag calls error,
     is_api m = false →
     local_attempt p name apiKey (mk_mode m flag st) = (calls, inl error) →
     existsb is_remote (fst (route p name apiKey (mk_mode m flag st)))
       = (is_auto m || default true flag) && truthy_opt apiKey) ∧
  (∀ m flag calls cliModel,
     is_api m = false →
     local_attempt p name apiKey (mk_mode m flag st) = (calls, inr cliModel) →
     route p name apiKey (mk_mode m flag st)
       = (calls, inr (client (provider_id p) cliModel))
     ∧ existsb is_remote calls = false).
Proof.
  assert (∀ m flag calls r,
            local_attempt p name apiKey (mk_mode m flag st) = (calls, r) →
            existsb is_remote calls = false) as Hlocal.
  { intros m flag calls r Hattempt.
    pose proof (local_attempt_local p name apiKey (mk_mode m flag st)) as Hl.
    by rewrite Hattempt in Hl. }
  split; [|split; [|split; [|split; [|split]]]].
  - intros calls error Hl.
    rewrite (route_local p name apiKey _ cli) by done. rewrite Hl. cbn.
    split; [done|]. split; [by intros message ->|]. by eapply Hlocal.
  - intros calls error k Hl -> Hk.
    rewrite (route_local p name (Some k) _ cli) by done. rewrite Hl. cbn.
    by rewrite Hk.
  - intros calls error flag Hl Hk.
    rewrite (route_local p name apiKey _ auto) by done. rewrite Hl. cbn.
    split; [|split; [by destruct p|by eapply Hlocal]].
    destruct apiKey as [k|]; [|done]. cbn in Hk. by rewrite Hk.
  - intros flag settings Hs.
    destruct (route_api p name apiKey settings) as [message ->].
    { destruct Hs as [-> | [-> | (st' & -> & Hm)]]; cbn; [done|done|by rewrite Hm]. }
    destruct apiKey as [k|]; [destruct (truthy_str k)|]; done.
  - intros m flag calls error Hm Hl.
    rewrite (route_local p name apiKey _ m) by done. rewrite Hl. cbn.
    destruct (is_auto m || default true flag); cbn.
    + destruct apiKey as [k|]; cbn; [destruct (truthy_str k); cbn|];
        by rewrite ?(Hlocal _ _ _ _ Hl).
    + by rewrite (Hlocal _ _ _ _ Hl).
  - intros m flag calls cliModel Hm Hl.
    rewrite (route_local p name apiKey _ m) by done. rewrite Hl.
    split; [done|]. by eapply Hlocal.
Qed.

End Providers.

(** *** A concrete provider whose CLI is not installed *)

Definition demo_ensure (explicit : option string) (autoDetect : bool)
    : Thrown + CliInfo :=
  inl (ErrorObject "Gemini CLI executable not found").
Definition demo_create (cliModelId cliPath : string) (t : option Z)
    (k : option string) : Thrown + Model :=
  inr (CliModel cliModelId cliPath t k).
Definition demo_stringify (v : JSON) : string := "{}".
Definition demo_setting (m : ConnectionMode) (fallback : bool) : option ProviderSetting :=
  Some (mkSetting (Some m) None None (Some fallback) None None).

Example cli_only_without_fallback_rejects :
  route demo_ensure demo_create demo_stringify google "gemini-2.5-pro"
        (Some "key") (demo_setting cli false)
  = ([EnsureCliAvailable None true],
     inl (ErrorObject "Gemini CLI executable not found")).
Proof. vm_compute. reflexivity. Qed.

Example cli_only_with_fallback_uses_api :
  route demo_ensure demo_create demo_stringify openai "gpt-4.1"
        (Some "key") (demo_setting cli true)
  = ([CreateApiProvider "key"; EnsureCliAvailable None true],
     inr (client "openai" (ApiModel "key" "gpt-4.1"))).
Proof. vm_compute. reflexivity. Qed.

Example api_only_skips_cli :
  route demo_ensure demo_create demo_stringify google "gemini-2.5-pro"
        (Some "key") (demo_setting api true)
  = ([CreateApiProvider "key"],
     inr (client "google" (ApiModel "key" "gemini-2.5-pro"))).
Proof. vm_compute. reflexivity. Qed.

End GetModelClientSpec.

(* ===================================================================== *)
(** * Part III: further properties of the code                            *)
(* ===================================================================== *)

(** ** The connection manager: [disposeAll], disposal and the registries *)

Module McpManagerMore.
Import McpManager McpManagerSpec.
Local Open Scope list_scope.

(** The [close()] calls of a [disposeAll] that visits [order]. *)
Definition closes (s : Mgr) (order : list Z) : list Effect :=
  omap (λ k, EClose <$> clients s !! k) order.

Lemma omap_ext_in {A B} (f g : A → option B) (l : list A) :
  (∀ x, x ∈ l → f x = g x) → omap f l = omap g l.
Proof.
  induction l as [|x l IH]; intros H; [done|]. cbn.
  rewrite (H x) by set_solver. rewrite IH; [done|].
  intros y Hy. apply H. set_solver.
Qed.

(** What the loop computes when it visits distinct keys. *)
Lemma disposeAll_loop_spec order : ∀ s,
  NoDup order →
  ∃ s',
    disposeAll_loop order s = (Ok tt, s') ∧
    (∀ k, clients s' !! k = if decide (k ∈ order) then None else clients s !! k) ∧
    (∀ k, initializingClients s' !! k
          = if decide (k ∈ order) then None else initializingClients s !! k) ∧
    attempts s' = attempts s ∧
    trace s' = rev (closes s order) ++ trace s.
Proof.
  induction order as [|x order IH]; intros s Hnd.
  { exists s. cbn. repeat split; intros; try done;
      by (destruct (decide _) as [Hin|]; [by apply elem_of_nil in Hin|]). }
  apply NoDup_cons in Hnd as [Hx Hnd].
  cbn [disposeAll_loop]. unfold mbind, M_bind, bind.
  rewrite dispose_eq.
  destruct (IH (mkMgr (delete x (clients s)) (delete x (initializingClients s))
                      (attempts s)
                      (match clients s !! x with
                       | Some c => EClose c :: trace s
                       | None => trace s
                       end)) Hnd)
    as (s' & Hrun & Hc & Hi & Ha & Ht).
  exists s'. split; [done|]. cbn in Hc, Hi, Ha, Ht.
  split; [|split; [|split; [done|]]].
  - intros k. rewrite Hc.
    destruct (decide (k = x)) as [->|Hne].
    + rewrite lookup_delete_eq.
      destruct (decide (x ∈ order)), (decide (x ∈ x :: order)); set_solver.
    + rewrite lookup_delete_ne by done.
      destruct (decide (k ∈ order)), (decide (k ∈ x :: order)); set_solver.
  - intros k. rewrite Hi.
    destruct (decide (k = x)) as [->|Hne].
    + rewrite lookup_delete_eq.
      destruct (decide (x ∈ order)), (decide (x ∈ x :: order)); set_solver.
    + rewrite lookup_delete_ne by done.
      destruct (decide (k ∈ order)), (decide (k ∈ x :: order)); set_solver.
  - rewrite Ht. unfold closes. cbn.
    rewrite (omap_ext_in (λ k, EClose <$> delete x (clients s) !! k)
                         (λ k, EClose <$> clients s !! k) order).
    2:{ intros k Hk. rewrite lookup_delete_ne; [done|]. intros ->. done. }
    destruct (clients s !! x) as [c|]; cbn; [|done].
    by rewrite <- app_assoc.
Qed.

(** The clients a state has registered, as the loop meets them. *)
Lemma closes_permutation s order :
  iteration_order s order →
  closes s order ≡ₚ EClose <$> (map_to_list (clients s)).*2.
Proof.
  intros [Hnd Hdom].
  set (pairs := omap (λ k, (k,.) <$> clients s !! k) order).
  assert (closes s order = (EClose ∘ snd) <$> pairs) as ->.
  { unfold closes, pairs. clear. induction order as [|k order IH]; [done|].
    cbn. destruct (clients s !! k); cbn; by rewrite IH. }
  rewrite list_fmap_compose.
  apply fmap_Permutation, fmap_Permutation.
  apply NoDup_Permutation.
  - unfold pairs. clear Hdom. induction Hnd as [|k order Hk Hnd IH]; cbn; [constructor|].
    destruct (clients s !! k) as [c|]; cbn; [|done].
    constructor; [|done]. intros Hin.
    apply list_elem_of_omap in Hin as (k' & Hk' & Heq).
    destruct (clients s !! k'); cbn in Heq; [|done]. by inversion Heq; subst.
  - apply NoDup_map_to_list.
  - intros [k c]. rewrite elem_of_map_to_list. unfold pairs.
    rewrite list_elem_of_omap. split.
    + intros (k' & Hk' & Heq). destruct (clients s !! k') eqn:Hc; cbn in Heq; [|done].
      by inversion Heq; subst.
    + intros Hc. exists k. split; [apply Hdom; by eexists|]. by rewrite Hc.
Qed.

(** What the loop of [disposeAll] does, for the order the map gives. *)
Lemma disposeAll_spec order s :
  iteration_order s order →
  ∃ s',
    disposeAll order s = (Ok tt, s') ∧
    clients s' = ∅ ∧
    (∀ k, initializingClients s' !! k
          = match clients s !! k with
            | Some _ => None
            | None => initializingClients s !! k
            end) ∧
    attempts s' = attempts s ∧
    trace s' = rev (closes s order) ++ trace s ∧
    closes s order ≡ₚ EClose <$> (map_to_list (clients s)).*2.
Proof.
  intros Hord. pose proof Hord as [Hnd Hdom].
  destruct (disposeAll_loop_spec order s Hnd) as (s' & Hrun & Hc & Hi & Ha & Ht).
  exists s'. split; [done|]. split; [|split; [|split; [done|split; [done|]]]].
  - apply map_eq. intros k. rewrite Hc, lookup_empty.
    destruct (decide (k ∈ order)) as [|Hk]; [done|].
    destruct (clients s !! k) eqn:Hck; [|done].
    exfalso. apply Hk, Hdom. by eexists.
  - intros k. rewrite Hi.
    destruct (decide (k ∈ order)) as [Hk|Hk].
    + apply Hdom in Hk as [c ->]. done.
    + destruct (clients s !! k) eqn:Hck; [|done].
      exfalso. apply Hk, Hdom. by eexists.
  - by apply closes_permutation.
Qed.

(** X1.  [disposeAll] never throws, whatever the [close()] methods do.
    It empties the client registry, calls [close()] once for each client
    that was registered, and removes the in-flight entries of exactly
    those servers: an in-flight entry of a server without a registered
    client stays, and so do all attempts. *)
Theorem disposeAll_closes_every_client order s :
  iteration_order s order →
  ∃ s',
    disposeAll order s = (Ok tt, s') ∧
    clients s' = ∅ ∧
    (∀ k, initializingClients s' !! k
          = match clients s !! k with
            | Some _ => None
            | None => initializingClients s !! k
            end) ∧
    attempts s' = attempts s ∧
    trace s' = rev (closes s order) ++ trace s ∧
    closes s order ≡ₚ EClose <$> (map_to_list (clients s)).*2.
Proof. apply disposeAll_spec. Qed.

Section Later.
Variable URL_new : string → option string.

(** The owner of a resolved attempt registers the client and closes
    nothing. *)
Lemma resume_resolved sid p c s :
  attempts s !! p = Some (mkAttempt sid (Settled (Resolved c)) true) →
  ∃ s',
    step URL_new (ResumeGetClient sid p) s = Some (RFinished (Ok c), s') ∧
    clients s' !! sid = Some c ∧
    trace s' = trace s.
Proof.
  intros Ha. cbn [step]. rewrite Ha, Z.eqb_refl.
  eexists. split; [unfold_M; cbn; reflexivity|]. cbn.
  by rewrite lookup_insert_eq.
Qed.

(** X2.  [disposeAll] does not stop an initialization that is in flight
    for a server without a registered client: its in-flight entry and its
    attempt are still there, and when the attempt then succeeds its client
    is registered, although no [getClient] was called after [disposeAll],
    and nothing closes it. *)
Theorem disposeAll_keeps_pending_initialization order s sid p t c :
  iteration_order s order →
  clients s !! sid = None →
  initializingClients s !! sid = Some p →
  attempts s !! p = Some (mkAttempt sid (AwaitingRace t) true) →
  ∃ s1 s2,
    disposeAll order s = (Ok tt, s1) ∧
    clients s1 = ∅ ∧
    initializingClients s1 !! sid = Some p ∧
    run URL_new [RaceSettles sid p (ClientCreated c); ResumeGetClient sid p] s1
      = Some ([RNone; RFinished (Ok c)], s2) ∧
    clients s2 !! sid = Some c ∧
    trace s2 = trace s1.
Proof.
  intros Hord Hc Hi Ha.
  destruct (disposeAll_spec order s Hord)
    as (s1 & Hrun & Hc1 & Hi1 & Ha1 & _).
  rewrite <- Ha1 in Ha.
  destruct (race_settles URL_new sid p t true (ClientCreated c) s1 Ha)
    as (sa & Hstep & Haa & Hca & Hia & Hta).
  destruct (resume_resolved sid p c sa Haa) as (s2 & Hres & Hc2 & Ht2).
  exists s1, s2. split; [done|]. split; [done|].
  split; [by rewrite Hi1, Hc|].
  split; [cbn [run]; by rewrite Hstep, Hres|]. split; [done|].
  by rewrite Ht2, Hta.
Qed.


(** X4.  Two attempts of one server can be live at once (a [dispose]
    during the first lets the next [getClient] start a second), and when
    both succeed, first the one and then the other owner registers its
    client: the second replaces the first in the registry, the first
    client is not closed, and the first owner, resuming, has already
    removed the in-flight entry of the second attempt. *)
Theorem second_attempt_replaces_first_client sid p1 p2 c1 c2 s :
  p1 ≠ p2 →
  attempts s !! p1 = Some (mkAttempt sid (Settled (Resolved c1)) true) →
  attempts s !! p2 = Some (mkAttempt sid (Settled (Resolved c2)) true) →
  ∃ s1 s2,
    step URL_new (ResumeGetClient sid p1) s = Some (RFinished (Ok c1), s1) ∧
    clients s1 !! sid = Some c1 ∧
    initializingClients s1 !! sid = None ∧
    step URL_new (ResumeGetClient sid p2) s1 = Some (RFinished (Ok c2), s2) ∧
    clients s2 !! sid = Some c2 ∧
    trace s2 = trace s.
Proof.
  intros Hne H1 H2.
  eexists. eexists.
  split; [cbn [step]; rewrite H1, Z.eqb_refl; unfold_M; cbn; reflexivity|].
  cbn [clients initializingClients].
  split; [by rewrite lookup_insert_eq|]. split; [by rewrite lookup_delete_eq|].
  split.
  - cbn [step attempts]. rewrite list_lookup_alter_ne by done.
    rewrite H2, Z.eqb_refl. unfold_M. cbn. reflexivity.
  - cbn. split; [by rewrite lookup_insert_eq|done].
Qed.

(** Where the entries of the two registries come from. *)
Definition well_formed (s : Mgr) : Prop :=
  (∀ sid p, initializingClients s !! sid = Some p →
            ∃ ph, attempts s !! p = Some (mkAttempt sid ph true)) ∧
  (∀ sid c, clients s !! sid = Some c →
            ∃ p, attempts s !! p = Some (mkAttempt sid (Settled (Resolved c)) false)).

Lemma well_formed_step ev s r s' :
  well_formed s → step URL_new ev s = Some (r, s') → well_formed s'.
Proof.
  intros [Hin Hcl] Hstep.
  destruct ev as [sid|sid|sid q rows|sid q w|sid q]; cbn in Hstep.
  - destruct (getClient_call sid s) as [[h|e] s1] eqn:Hcall; [|done].
    inversion Hstep; subst; clear Hstep.
    destruct (clients s !! sid) as [c|] eqn:Hc.
    { rewrite (getClient_call_cached _ _ _ Hc) in Hcall. by inversion Hcall; subst. }
    destruct (initializingClients s !! sid) as [p'|] eqn:Hi.
    { rewrite (getClient_call_joined _ _ _ Hc Hi) in Hcall. by inversion Hcall; subst. }
    rewrite (getClient_call_started _ _ Hc Hi) in Hcall.
    inversion Hcall; subst; clear Hcall. split; cbn.
    + intros sid' p. destruct (decide (sid = sid')) as [->|Hne].
      * rewrite lookup_insert_eq. intros [= <-]. exists AwaitingDb.
        by rewrite list_lookup_middle.
      * rewrite lookup_insert_ne by done. intros Hp.
        destruct (Hin _ _ Hp) as [ph Hph]. exists ph.
        rewrite lookup_app_l; [done|]. by eapply lookup_lt_Some.
    + intros sid' c Hc'. destruct (Hcl _ _ Hc') as [p Hp]. exists p.
      rewrite lookup_app_l; [done|]. by eapply lookup_lt_Some.
  - rewrite dispose_eq in Hstep. inversion Hstep; subst; clear Hstep. split; cbn.
    + intros sid' p Hp. apply lookup_delete_Some in Hp as [_ Hp]. eauto.
    + intros sid' c Hc. apply lookup_delete_Some in Hc as [_ Hc]. eauto.
  - destruct (attempts s !! q) as [[a' [] b']|] eqn:Hq; try done.
    destruct (Z.eqb_spec a' sid) as [->|]; [|done].
    inversion Hstep; subst; clear Hstep.
    assert (∀ ph', well_formed
              (mkMgr (clients s) (initializingClients s)
                 (alter (λ a, mkAttempt (att_server a) ph' (att_owner a)) q (attempts s))
                 (trace s)) ∧
            ∀ tr, well_formed
              (mkMgr (clients s) (initializingClients s)
                 (alter (λ a, mkAttempt (att_server a) ph' (att_owner a)) q (attempts s))
                 tr)) as Hgen.
    { intros ph'. assert (∀ tr, well_formed
              (mkMgr (clients s) (initializingClients s)
                 (alter (λ a, mkAttempt (att_server a) ph' (att_owner a)) q (attempts s))
                 tr)) as Hall; [|by split].
      intros tr. split; cbn.
      - intros sid' p Hp. destruct (Hin _ _ Hp) as [ph Hph].
        destruct (decide (q = p)) as [->|Hne].
        + rewrite list_lookup_alter_eq, Hph. cbn. eauto.
        + rewrite list_lookup_alter_ne by done. eauto.
      - intros sid' c Hc. destruct (Hcl _ _ Hc) as [p Hp]. exists p.
        rewrite list_lookup_alter_ne; [done|]. intros ->. congruence. }
    unfold_M. destruct (makeTransport URL_new sid rows); cbn; apply Hgen.
  - destruct (attempts s !! q) as [[a' [] b']|] eqn:Hq; try done.
    destruct (Z.eqb_spec a' sid) as [->|]; [|done].
    inversion Hstep; subst; clear Hstep. unfold_M. cbn. split; cbn.
    + intros sid' p Hp. destruct (Hin _ _ Hp) as [ph Hph].
      destruct (decide (q = p)) as [->|Hne].
      * rewrite list_lookup_alter_eq, Hph. cbn. eauto.
      * rewrite list_lookup_alter_ne by done. eauto.
    + intros sid' c Hc. destruct (Hcl _ _ Hc) as [p Hp]. exists p.
      rewrite list_lookup_alter_ne; [done|]. intros ->. congruence.
  - destruct (attempts s !! q) as [[a' [| |oq] []]|] eqn:Hq; try done.
    destruct (Z.eqb_spec a' sid) as [->|]; [|done].
    assert (∀ sid' p, sid' ≠ sid → initializingClients s !! sid' = Some p → q ≠ p) as Hother.
    { intros sid' p Hne Hp ->. destruct (Hin _ _ Hp) as [ph Hph]. congruence. }
    revert Hstep. unfold_M. destruct oq as [c|e]; cbn; intros [= <- <-]; split; cbn.
    + intros sid' p Hp. apply lookup_delete_Some in Hp as [Hne Hp].
      destruct (Hin _ _ Hp) as [ph Hph]. exists ph.
      rewrite list_lookup_alter_ne; [done|]. by eapply Hother.
    + intros sid' c'. destruct (decide (sid = sid')) as [->|Hne].
      * rewrite lookup_insert_eq. intros [= <-]. exists q.
        by rewrite list_lookup_alter_eq, Hq.
      * rewrite lookup_insert_ne by done. intros Hc. destruct (Hcl _ _ Hc) as [p Hp].
        exists p. rewrite list_lookup_alter_ne; [done|]. intros ->. congruence.
    + intros sid' p Hp. apply lookup_delete_Some in Hp as [Hne Hp].
      destruct (Hin _ _ Hp) as [ph Hph]. exists ph.
      rewrite list_lookup_alter_ne; [done|]. by eapply Hother.
    + intros sid' c' Hc. destruct (Hcl _ _ Hc) as [p Hp].
      exists p. rewrite list_lookup_alter_ne; [done|]. intros ->. congruence.
Qed.

Lemma well_formed_run evs : ∀ s rs s',
  well_formed s →
  run URL_new evs s = Some (rs, s') →
  well_formed s'.
Proof.
  induction evs as [|ev evs IH]; intros s rs s' Hwf Hrun; cbn in Hrun.
  { by inversion Hrun; subst. }
  destruct (step URL_new ev s) as [[r s1]|] eqn:Hstep; [|done].
  destruct (run URL_new evs s1) as [[rs1 s2]|] eqn:Hrest; [|done].
  inversion Hrun; subst. eapply IH; [|done]. by eapply well_formed_step.
Qed.

Lemma well_formed_empty : well_formed empty.
Proof. split; intros sid x H; cbn in H; by apply lookup_empty_Some in H. Qed.

(** X5.  In every state the manager reaches from its initial state, by
    whatever calls and settlements, an in-flight entry of a server names an
    attempt that was started for that server and whose owner has not
    resumed yet, and a registered client of a server is the client some
    attempt of that server resolved with and whose owner has resumed. *)
Theorem registries_are_well_formed evs rs s :
  run URL_new evs empty = Some (rs, s) →
  (∀ sid p, initializingClients s !! sid = Some p →
            ∃ ph, attempts s !! p = Some (mkAttempt sid ph true)) ∧
  (∀ sid c, clients s !! sid = Some c →
            ∃ p, attempts s !! p = Some (mkAttempt sid (Settled (Resolved c)) false)).
Proof. intros Hrun. exact (well_formed_run evs empty rs s well_formed_empty Hrun). Qed.

(** What one step adds to the effects. *)
Lemma step_trace ev s r s' :
  step URL_new ev s = Some (r, s') →
  ∃ new, trace s' = new ++ trace s ∧
    (new = [] ∨ (∃ sid p, new = [EInitializeClient sid p]) ∨
     (∃ sid, new = [EDbSelect sid]) ∨
     (∃ sid p, new = [EDbSelect sid; EInitializeClient sid p]) ∨
     (∃ c, new = [EClose c]) ∨
     (∃ sid t, new = [ESetTimeout sid MCP_CLIENT_INIT_TIMEOUT_MS;
                      ECreateMCPClient sid t])).
Proof.
  intros Hstep.
  destruct ev as [sid|sid|sid q rows|sid q w|sid q]; cbn in Hstep.
  - destruct (getClient_call sid s) as [[h|e] s1] eqn:Hcall; [|done].
    inversion Hstep; subst; clear Hstep.
    destruct (clients s !! sid) as [c|] eqn:Hc.
    { rewrite (getClient_call_cached _ _ _ Hc) in Hcall. inversion Hcall; subst.
      exists []. by split; [|left]. }
    destruct (initializingClients s !! sid) as [p'|] eqn:Hi.
    { rewrite (getClient_call_joined _ _ _ Hc Hi) in Hcall. inversion Hcall; subst.
      exists []. by split; [|left]. }
    rewrite (getClient_call_started _ _ Hc Hi) in Hcall.
    inversion Hcall; subst; clear Hcall. cbn.
    exists [EDbSelect sid; EInitializeClient sid (length (attempts s))].
    split; [done|]. naive_solver.
  - rewrite dispose_eq in Hstep. inversion Hstep; subst; clear Hstep. cbn.
    destruct (clients s !! sid) as [c|].
    + exists [EClose c]. split; [done|]. naive_solver.
    + exists []. by split; [|left].
  - destruct (attempts s !! q) as [[a' [] b']|] eqn:Hq; try done.
    destruct (Z.eqb_spec a' sid) as [->|]; [|done].
    inversion Hstep; subst; clear Hstep.
    unfold_M. destruct (makeTransport URL_new sid rows) as [t|e]; cbn.
    + exists [ESetTimeout sid MCP_CLIENT_INIT_TIMEOUT_MS; ECreateMCPClient sid t].
      split; [done|]. naive_solver.
    + exists []. by split; [|left].
  - destruct (attempts s !! q) as [[a' [] b']|] eqn:Hq; try done.
    destruct (Z.eqb_spec a' sid) as [->|]; [|done].
    inversion Hstep; subst; clear Hstep. unfold_M. cbn.
    exists []. by split; [|left].
  - destruct (attempts s !! q) as [[a' [| |oq] []]|] eqn:Hq; try done.
    destruct (Z.eqb_spec a' sid) as [->|]; [|done].
    revert Hstep. unfold_M. destruct oq as [c|e]; cbn; intros [= <- <-]; cbn.
    all: exists []; by split; [|left].
Qed.

(** X6.  In every state the manager reaches from its initial state, and
    for every server: [experimental_createMCPClient] was called at most as
    often as [initializeClient]; every such call came with one timer, and
    every timer is for [MCP_CLIENT_INIT_TIMEOUT_MS], that is 30 seconds. *)
Theorem factory_calls_are_accounted evs rs s sid :
  run URL_new evs empty = Some (rs, s) →
  create_count sid s ≤ init_count sid s ∧
  timer_count sid s = create_count sid s ∧
  (∀ sid' ms, ESetTimeout sid' ms ∈ trace s → ms = 30000%Z).
Proof.
  intros Hrun. split.
  { pose proof (run_factory_bound URL_new sid evs empty rs s Hrun) as Hb.
    change (create_count sid empty) with 0 in Hb.
    change (pending_db sid empty) with 0 in Hb.
    change (init_count sid empty) with 0 in Hb. lia. }
  assert (∀ evs s0 rs s,
            run URL_new evs s0 = Some (rs, s) →
            timer_count sid s0 = create_count sid s0 ∧
            (∀ sid' ms, ESetTimeout sid' ms ∈ trace s0 → ms = 30000%Z) →
            timer_count sid s = create_count sid s ∧
            (∀ sid' ms, ESetTimeout sid' ms ∈ trace s → ms = 30000%Z)) as Hinv.
  { clear. induction evs as [|ev evs IH]; intros s0 rs s Hrun Hs0; cbn in Hrun.
    { by inversion Hrun; subst. }
    destruct (step URL_new ev s0) as [[r s1]|] eqn:Hstep; [|done].
    destruct (run URL_new evs s1) as [[rs1 s2]|] eqn:Hrest; [|done].
    inversion Hrun; subst. eapply IH; [done|].
    destruct Hs0 as [Hcount Hms].
    destruct (step_trace _ _ _ _ Hstep) as (new & Htr & Hnew).
    unfold timer_count, create_count in *. rewrite Htr.
    destruct Hnew as [->|[(sid1 & p & ->)|[(sid1 & ->)|[(sid1 & p & ->)|[(c & ->)|(sid1 & t & ->)]]]]];
      cbn; try (split; [done|]; intros sid' ms Hin;
                repeat (apply elem_of_cons in Hin as [Hin|Hin]; [discriminate|]);
                by eapply Hms).
    split.
    - destruct (sid1 =? sid)%Z; cbn; lia.
    - intros sid' ms Hin.
      apply elem_of_cons in Hin as [Hin|Hin]; [by inversion Hin|].
      apply elem_of_cons in Hin as [Hin|Hin]; [discriminate|].
      by eapply Hms. }
  eapply Hinv; [done|]. split; [done|].
  intros sid' ms Hin. cbn in Hin. by apply elem_of_nil in Hin.
Qed.

End Later.

Definition demo_http : Transport :=
  StreamableHTTPClientTransport "http://localhost:3000/mcp".
Definition demo_quiet : Client := mkClient 7 None.
Definition demo_noisy : Client := mkClient 8 (Some "transport already closed").

(** Two registered clients, the second of which throws from [close()],
    and a third server whose initialization is at the race. *)
Definition demo_two : Mgr :=
  mkMgr (<[1%Z := demo_quiet]> (<[2%Z := demo_noisy]> ∅))
        (<[3%Z := 0%nat]> ∅)
        [mkAttempt 3%Z (AwaitingRace demo_http) true]
        [].

Ltac demo_two_order :=
  split;
  [ repeat constructor; set_solver
  | intros k; split;
    [ intros Hk; apply elem_of_cons in Hk as [->|Hk];
      [ by eexists
      | apply elem_of_cons in Hk as [->|Hk]; [by eexists | by apply elem_of_nil in Hk] ]
    | intros [c Hc]; cbn in Hc;
      destruct (decide (k = 1%Z)) as [->|H1]; [set_solver|];
      rewrite lookup_insert_ne in Hc by done;
      destruct (decide (k = 2%Z)) as [->|H2]; [set_solver|];
      rewrite lookup_insert_ne in Hc by done;
      by apply lookup_empty_Some in Hc ] ].

Lemma disposeAll_closes_every_client_witness :
  ∃ s',
    disposeAll [1%Z; 2%Z] demo_two = (Ok tt, s') ∧
    clients s' = ∅ ∧
    initializingClients s' !! 3%Z = Some 0%nat ∧
    attempts s' = attempts demo_two ∧
    trace s' = [EClose demo_noisy; EClose demo_quiet].
Proof.
  assert (iteration_order demo_two [1%Z; 2%Z]) as Hord by demo_two_order.
  destruct (disposeAll_closes_every_client [1%Z; 2%Z] demo_two Hord)
    as (s' & Hrun & Hc & Hi & Ha & Ht & _).
  exists s'. split; [done|]. split; [done|]. split; [by rewrite Hi|].
  split; [done|]. rewrite Ht. reflexivity.
Defined.

Lemma disposeAll_keeps_pending_initialization_witness :
  ∃ s1 s2,
    disposeAll [1%Z; 2%Z] demo_two = (Ok tt, s1) ∧
    clients s1 = ∅ ∧
    run demo_url [RaceSettles 3%Z 0%nat (ClientCreated demo_client);
                  ResumeGetClient 3%Z 0%nat] s1
      = Some ([RNone; RFinished (Ok demo_client)], s2) ∧
    clients s2 !! 3%Z = Some demo_client.
Proof.
  assert (iteration_order demo_two [1%Z; 2%Z]) as Hord by demo_two_order.
  destruct (disposeAll_keeps_pending_initialization demo_url [1%Z; 2%Z] demo_two 3%Z 0%nat
              demo_http demo_client Hord)
    as (s1 & s2 & Hrun & Hc & _ & Hlater & Hc2 & _); [reflexivity..|].
  by exists s1, s2.
Defined.

(** A second attempt started after a [dispose] during the first; both
    have succeeded and neither owner has resumed. *)
Definition demo_second : Client := mkClient 8 None.
Definition demo_two_attempts : list Event :=
  [ CallGetClient 1%Z; CallDispose 1%Z; CallGetClient 1%Z;
    DbReturns 1%Z 0%nat [demo_row]; DbReturns 1%Z 1%nat [demo_row];
    RaceSettles 1%Z 0%nat (ClientCreated demo_client);
    RaceSettles 1%Z 1%nat (ClientCreated demo_second) ].

Lemma second_attempt_replaces_first_client_witness :
  ∃ rs s s1 s2,
    run demo_url demo_two_attempts empty = Some (rs, s) ∧
    step demo_url (ResumeGetClient 1%Z 0%nat) s = Some (RFinished (Ok demo_client), s1) ∧
    step demo_url (ResumeGetClient 1%Z 1%nat) s1 = Some (RFinished (Ok demo_second), s2) ∧
    clients s2 !! 1%Z = Some demo_second ∧
    (∀ c, EClose c ∉ trace s2).
Proof.
  assert (∃ rs s, run demo_url demo_two_attempts empty = Some (rs, s) ∧
                  attempts s !! 0%nat
                    = Some (mkAttempt 1%Z (Settled (Resolved demo_client)) true) ∧
                  attempts s !! 1%nat
                    = Some (mkAttempt 1%Z (Settled (Resolved demo_second)) true) ∧
                  ∀ c, EClose c ∉ trace s)
    as (rs & s & Hrun & H1 & H2 & Htr).
  { eexists. eexists. split; [vm_compute; reflexivity|].
    split; [reflexivity|]. split; [reflexivity|].
    intros c Hin. cbn in Hin.
    repeat (apply elem_of_cons in Hin as [Hin|Hin]; [discriminate|]).
    by apply elem_of_nil in Hin. }
  destruct (second_attempt_replaces_first_client demo_url 1%Z 0%nat 1%nat
              demo_client demo_second s) as (s1 & s2 & Hs1 & _ & _ & Hs2 & Hc & Ht);
    [done..|].
  exists rs, s, s1, s2. split; [done|]. split; [done|]. split; [done|].
  split; [done|]. by rewrite Ht.
Defined.

Lemma factory_calls_are_accounted_witness :
  ∃ rs s,
    run demo_url demo_two_attempts empty = Some (rs, s) ∧
    init_count 1%Z s = 2 ∧ create_count 1%Z s = 2 ∧ timer_count 1%Z s = 2.
Proof.
  assert (∃ rs s, run demo_url demo_two_attempts empty = Some (rs, s) ∧
                  init_count 1%Z s = 2 ∧ create_count 1%Z s = 2)
    as (rs & s & Hrun & Hi & Hc)
    by (eexists; eexists; split; [vm_compute; reflexivity|by split]).
  destruct (factory_calls_are_accounted demo_url demo_two_attempts rs s 1%Z Hrun)
    as (_ & Ht & _).
  exists rs, s. split; [done|]. split; [done|]. split; [done|]. by rewrite Ht.
Defined.

Lemma registries_are_well_formed_witness :
  ∃ rs s,
    run demo_url demo_callers empty = Some (rs, s) ∧
    ∃ ph, initializingClients s !! 1%Z = Some 0%nat ∧
          attempts s !! 0%nat = Some (mkAttempt 1%Z ph true).
Proof.
  assert (∃ rs s, run demo_url demo_callers empty = Some (rs, s))
    as (rs & s & Hrun) by (eexists; eexists; vm_compute; reflexivity).
  destruct (registries_are_well_formed demo_url demo_callers rs s Hrun) as [Hin _].
  assert (initializingClients s !! 1%Z = Some 0%nat) as Hi.
  { revert Hrun. vm_compute. by intros [= <- <-]. }
  destruct (Hin 1%Z 0%nat Hi) as [ph Hph].
  exists rs, s. split; [done|]. by exists ph.
Defined.

End McpManagerMore.

(** ** More on strings *)

Module JsMore.
Import Js JsFacts.
#[local] Arguments String.append !_ _ / : simpl nomatch.

Lemma append_empty_r (s : string) : s ++ EmptyString = s.
Proof. induction s as [|c s IH]; cbn; [done|]. by rewrite IH. Qed.

Lemma includes_refl s : includes s s = true.
Proof. apply includes_app. exists EmptyString, EmptyString. cbn. by rewrite append_empty_r. Qed.

Lemma take_digits_app s : ∀ d r, take_digits s = (d, r) → s = d ++ r.
Proof.
  induction s as [|c s IH]; intros d r; cbn.
  - by intros [= <- <-].
  - destruct (is_digit c).
    + destruct (take_digits s) as [d' r'] eqn:Hs. intros [= <- <-].
      cbn. by rewrite (IH d' r').
    + by intros [= <- <-].
Qed.

Fixpoint all_digits (s : string) : bool :=
  match s with
  | EmptyString => true
  | String c r => is_digit c && all_digits r
  end.

Lemma take_digits_digits s : ∀ d r, take_digits s = (d, r) → all_digits d = true.
Proof.
  induction s as [|c s IH]; intros d r; cbn.
  - by intros [= <- <-].
  - destruct (is_digit c) eqn:Hc.
    + destruct (take_digits s) as [d' r'] eqn:Hs. intros [= <- <-].
      cbn. by rewrite Hc, (IH d' r').
    + by intros [= <- <-].
Qed.

(** What a match at the head looks like: three runs of digits, none
    empty, with dots between, and the string starts with it. *)
Lemma semver_at_shape s v :
  semver_at s = Some v →
  ∃ a b c rest,
    v = a ++ "." ++ b ++ "." ++ c ∧ s = v ++ rest ∧
    truthy_str a = true ∧ all_digits a = true ∧
    truthy_str b = true ∧ all_digits b = true ∧
    truthy_str c = true ∧ all_digits c = true.
Proof.
  unfold semver_at.
  destruct (take_digits s) as [a r1] eqn:Ha.
  destruct (truthy_str a) eqn:Hta; cbn; [|done].
  destruct r1 as [|c1 r2]; [done|].
  destruct (Ascii.eqb_spec c1 ".") as [->|]; cbn; [|done].
  destruct (take_digits r2) as [b r3] eqn:Hb.
  destruct (truthy_str b) eqn:Htb; cbn; [|done].
  destruct r3 as [|c2 r4]; [done|].
  destruct (Ascii.eqb_spec c2 ".") as [->|]; cbn; [|done].
  destruct (take_digits r4) as [c r5] eqn:Hc.
  destruct (truthy_str c) eqn:Htc; cbn; [|done].
  intros [= <-]. exists a, b, c, r5.
  split; [done|]. split.
  - rewrite (take_digits_app _ _ _ Ha), (take_digits_app _ _ _ Hb),
      (take_digits_app _ _ _ Hc).
    rewrite !app_assoc_str. cbn. rewrite !app_assoc_str. cbn. done.
  - repeat split; try done; by eapply take_digits_digits.
Qed.

Lemma match_semver_shape s : ∀ v,
  match_semver s = Some v →
  ∃ a b c,
    v = a ++ "." ++ b ++ "." ++ c ∧ includes s v = true ∧
    truthy_str a = true ∧ all_digits a = true ∧
    truthy_str b = true ∧ all_digits b = true ∧
    truthy_str c = true ∧ all_digits c = true.
Proof.
  induction s as [|x s IH]; intros v; cbn [match_semver].
  - by vm_compute.
  - destruct (semver_at (String x s)) as [w|] eqn:Hw.
    + intros [= <-]. apply semver_at_shape in Hw as (a & b & c & rest & Hv & Hs & H).
      exists a, b, c. split; [done|]. split; [|done].
      apply includes_app. by exists EmptyString, rest.
    + intros Hv. destruct (IH v Hv) as (a & b & c & -> & Hi & H).
      exists a, b, c. split; [done|]. split; [|done].
      cbn [includes]. by rewrite Hi, orb_true_r.
Qed.

Lemma trimStart_suffix s : ∃ a, s = a ++ trimStart s.
Proof.
  induction s as [|c s [a IH]]; cbn.
  - by exists EmptyString.
  - destruct (is_space c).
    + exists (String c a). cbn. by rewrite <- IH.
    + by exists EmptyString.
Qed.

Lemma trimEnd_prefix s : ∃ b, s = trimEnd s ++ b.
Proof.
  induction s as [|c s [b IH]]; cbn.
  - by exists EmptyString.
  - destruct (trimEnd s) as [|d t] eqn:Ht.
    + destruct (is_space c).
      * exists (String c s). done.
      * exists s. done.
    + exists b. cbn. cbn in IH. by rewrite <- IH.
Qed.

Lemma trim_includes s : includes s (trim s) = true.
Proof.
  unfold trim. apply includes_app.
  destruct (trimStart_suffix s) as [a Ha].
  destruct (trimEnd_prefix (trimStart s)) as [b Hb].
  exists a, b. by rewrite <- Hb.
Qed.

Lemma all_space_trim s : all_space s = true → trim s = EmptyString.
Proof.
  unfold trim. induction s as [|c s IH]; cbn; [done|].
  rewrite andb_true_iff. intros [-> Hs]. by apply IH.
Qed.

End JsMore.

(** ** The Gemini CLI detector *)

Module GeminiCliDetectorMore.
Import GeminiCliDetector GeminiCliDetectorSpec.
Local Open Scope list_scope.

Definition NOT_FOUND : string := "Gemini CLI executable not found".

(** *** On a host whose process runner can throw *)

Section Faults.
Variable access_X_OK : string → bool.
Variable runCommand : string → list string → Z → string + CommandResult.
Variable getEnvVar : string → option string.
Variable process_platform : string.

Abbreviation command_of :=
  (GeminiCliDetectorFaults.command_of runCommand process_platform).
Abbreviation resolve_loop :=
  (GeminiCliDetectorFaults.resolve_loop access_X_OK runCommand process_platform).
Abbreviation readVersion := (GeminiCliDetectorFaults.readVersion runCommand).

(** What the loop does at one candidate: the lookup throws; or the loop
    returns, with a command; or it goes on to the next candidate. *)
Definition attempt (candidate : string) : string + option string :=
  if negb (Js.truthy_str candidate) then inr None
  else match command_of candidate with
       | inl message => inl message
       | inr (Some command) =>
           inr (if Js.truthy_str command && access_X_OK command
                then Some command else None)
       | inr None => inr None
       end.

Lemma faulty_loop_cons c rest :
  resolve_loop (c :: rest) =
    match attempt c with
    | inl message => inl message
    | inr (Some command) => inr (mkResolution (Some command) None)
    | inr None => resolve_loop rest
    end.
Proof.
  cbn. unfold attempt, GeminiCliDetectorFaults.ensureExecutable.
  destruct (Js.truthy_str c); cbn; [|done].
  destruct (command_of c) as [m|[cmd|]]; [done| |done].
  by destruct (Js.truthy_str cmd), (access_X_OK cmd).
Qed.

Lemma attempt_executable c p :
  attempt c = inr (Some p) → Js.truthy_str p = true ∧ access_X_OK p = true.
Proof.
  unfold attempt. destruct (Js.truthy_str c); cbn; [|done].
  destruct (command_of c) as [m|[cmd|]]; [done| |done].
  destruct (Js.truthy_str cmd) eqn:Ht, (access_X_OK cmd) eqn:Ha; cbn; try done.
  by intros [= <-].
Qed.

(** The three ways the loop ends: at the first candidate that does not
    just pass, with its command or with its fault, or after the last. *)
Lemma faulty_loop_cases l :
  (∃ pre c post p,
     l = pre ++ c :: post ∧ (∀ x, x ∈ pre → attempt x = inr None) ∧
     attempt c = inr (Some p) ∧
     Js.truthy_str p = true ∧ access_X_OK p = true ∧
     resolve_loop l = inr (mkResolution (Some p) None)) ∨
  ((∀ x, x ∈ l → attempt x = inr None) ∧
   resolve_loop l = inr (mkResolution None (Some NOT_FOUND))) ∨
  (∃ pre c post message,
     l = pre ++ c :: post ∧ (∀ x, x ∈ pre → attempt x = inr None) ∧
     attempt c = inl message ∧
     resolve_loop l = inl message).
Proof.
  induction l as [|x l IH].
  - right. left. split; [|done]. intros c Hc. by apply elem_of_nil in Hc.
  - rewrite faulty_loop_cons. destruct (attempt x) as [m|[p|]] eqn:Hx.
    + right. right. exists [], x, l, m. split; [done|].
      split; [intros y Hy; by apply elem_of_nil in Hy|done].
    + left. exists [], x, l, p. split; [done|].
      split; [intros y Hy; by apply elem_of_nil in Hy|].
      split; [done|]. by destruct (attempt_executable _ _ Hx).
    + destruct IH as [(pre & c & post & p & -> & Hpre & Hc & Ht & Ha & Hr)
                     |[[Hnone Hr]|(pre & c & post & m & -> & Hpre & Hc & Hr)]].
      * left. exists (x :: pre), c, post, p. split; [done|].
        split; [|done]. intros y Hy. apply elem_of_cons in Hy as [->|Hy]; auto.
      * right. left. split; [|done]. intros y Hy.
        apply elem_of_cons in Hy as [->|Hy]; auto.
      * right. right. exists (x :: pre), c, post, m. split; [done|].
        split; [|done]. intros y Hy. apply elem_of_cons in Hy as [->|Hy]; auto.
Qed.

(** A second lookup of a name changes nothing. *)
Lemma faulty_loop_twice c l :
  resolve_loop (c :: c :: l) = resolve_loop (c :: l).
Proof. rewrite !faulty_loop_cons. by destruct (attempt c) as [m|[p|]]. Qed.

Section Path.
Variable process_env_PATH : option string.

Abbreviation candidates := (candidates getEnvVar process_env_PATH).
Abbreviation resolveCliPath :=
  (GeminiCliDetectorFaults.resolveCliPath access_X_OK runCommand getEnvVar
     process_env_PATH process_platform).
Abbreviation detectGeminiCli :=
  (GeminiCliDetectorFaults.detectGeminiCli access_X_OK runCommand getEnvVar
     process_env_PATH process_platform).
Abbreviation ensureGeminiCliAvailable :=
  (GeminiCliProvider.ensureGeminiCliAvailable access_X_OK runCommand getEnvVar
     process_env_PATH process_platform).

Lemma detectGeminiCli_cases options :
  (∃ pre c post p,
     candidates options = pre ++ c :: post ∧
     (∀ x, x ∈ pre → attempt x = inr None) ∧
     attempt c = inr (Some p) ∧
     Js.truthy_str p = true ∧ access_X_OK p = true ∧
     detectGeminiCli options
     = match readVersion p (default DEFAULT_TIMEOUT (timeoutMs options)) with
       | inr version => mkInfo (Some p) version true "unknown" None
       | inl message => mkInfo None None false "unknown" (Some message)
       end) ∨
  ((∀ x, x ∈ candidates options → attempt x = inr None) ∧
   detectGeminiCli options = mkInfo None None false "unknown" (Some NOT_FOUND)) ∨
  (∃ pre c post message,
     candidates options = pre ++ c :: post ∧
     (∀ x, x ∈ pre → attempt x = inr None) ∧
     attempt c = inl message ∧
     detectGeminiCli options = mkInfo None None false "unknown" (Some message)).
Proof.
  unfold GeminiCliDetectorFaults.detectGeminiCli,
    GeminiCliDetectorFaults.resolveCliPath.
  destruct (faulty_loop_cases (candidates options))
    as [(pre & c & post & p & Hl & Hpre & Hc & Ht & Ha & ->)
       |[[Hnone ->]|(pre & c & post & m & Hl & Hpre & Hc & ->)]].
  - left. exists pre, c, post, p. cbn. rewrite Ht.
    by destruct (readVersion p _).
  - right. by left.
  - right. right. by exists pre, c, post, m.
Qed.

(** X7.  The three answers of [detectGeminiCli].  The search stops at the
    first candidate at which the lookup throws or which qualifies
    (resolves to a non-empty command that passes the executability check).
    If it qualifies, the CLI is reported available with that command as
    path, no error message and the version [--version] gives, possibly
    none; unless [spawn] throws on [--version], which is caught and
    reported as unavailable with the thrown message.  If a lookup throws
    first, the CLI is reported unavailable with the thrown message, whatever
    later candidates would give.  If no candidate qualifies or throws, it is
    unavailable with the locator's message.  The authentication status is
    "unknown" in all cases. *)
Theorem detectGeminiCli_answer options :
  (∃ pre c post p,
     candidates options = pre ++ c :: post ∧
     (∀ x, x ∈ pre → attempt x = inr None) ∧
     attempt c = inr (Some p) ∧
     Js.truthy_str p = true ∧ access_X_OK p = true ∧
     detectGeminiCli options
     = match readVersion p (default DEFAULT_TIMEOUT (timeoutMs options)) with
       | inr version => mkInfo (Some p) version true "unknown" None
       | inl message => mkInfo None None false "unknown" (Some message)
       end) ∨
  ((∀ x, x ∈ candidates options → attempt x = inr None) ∧
   detectGeminiCli options
   = mkInfo None None false "unknown" (Some "Gemini CLI executable not found")) ∨
  (∃ pre c post message,
     candidates options = pre ++ c :: post ∧
     (∀ x, x ∈ pre → attempt x = inr None) ∧
     attempt c = inl message ∧
     detectGeminiCli options = mkInfo None None false "unknown" (Some message)).
Proof. apply detectGeminiCli_cases. Qed.

Lemma ensureGeminiCliAvailable_cases explicitPath autoDetect :
  (∃ pre c post p,
     candidates (mkOptions explicitPath autoDetect None) = pre ++ c :: post ∧
     (∀ x, x ∈ pre → attempt x = inr None) ∧
     attempt c = inr (Some p) ∧
     Js.truthy_str p = true ∧ access_X_OK p = true ∧
     ensureGeminiCliAvailable explicitPath autoDetect
     = match readVersion p DEFAULT_TIMEOUT with
       | inr version => inr (mkInfo (Some p) version true "unknown" None)
       | inl message => inl message
       end) ∨
  ((∀ x, x ∈ candidates (mkOptions explicitPath autoDetect None) →
         attempt x = inr None) ∧
   ensureGeminiCliAvailable explicitPath autoDetect = inl NOT_FOUND) ∨
  (∃ pre c post message,
     candidates (mkOptions explicitPath autoDetect None) = pre ++ c :: post ∧
     (∀ x, x ∈ pre → attempt x = inr None) ∧
     attempt c = inl message ∧
     ensureGeminiCliAvailable explicitPath autoDetect = inl message).
Proof.
  unfold GeminiCliProvider.ensureGeminiCliAvailable.
  destruct (detectGeminiCli_cases (mkOptions explicitPath autoDetect None))
    as [(pre & c & post & p & Hl & Hpre & Hc & Ht & Ha & ->)
       |[[Hnone ->]|(pre & c & post & m & Hl & Hpre & Hc & ->)]]; cbn.
  - left. exists pre, c, post, p. do 5 (split; [done|]).
    destruct (readVersion p DEFAULT_TIMEOUT); cbn; [done|]. by rewrite Ht.
  - right. by left.
  - right. right. by exists pre, c, post, m.
Qed.

(** X8.  [ensureGeminiCliAvailable] returns the detector's answer when
    the first candidate that qualifies or throws qualifies and [--version]
    can be started; the answer is then available and has a non-empty
    executable path.  It throws in the three other cases, always with the
    message the detector reports: the thrown message when a lookup or
    [--version] throws, also when a later candidate would qualify, and
    "Gemini CLI executable not found" when no candidate qualifies or
    throws.  The installation hint written in the function is the default
    of an error message that is never missing. *)
Theorem ensureGeminiCliAvailable_answer explicitPath autoDetect :
  (∃ pre c post p,
     candidates (mkOptions explicitPath autoDetect None) = pre ++ c :: post ∧
     (∀ x, x ∈ pre → attempt x = inr None) ∧
     attempt c = inr (Some p) ∧
     Js.truthy_str p = true ∧ access_X_OK p = true ∧
     ensureGeminiCliAvailable explicitPath autoDetect
     = match readVersion p DEFAULT_TIMEOUT with
       | inr version => inr (mkInfo (Some p) version true "unknown" None)
       | inl message => inl message
       end) ∨
  ((∀ x, x ∈ candidates (mkOptions explicitPath autoDetect None) →
         attempt x = inr None) ∧
   ensureGeminiCliAvailable explicitPath autoDetect
   = inl "Gemini CLI executable not found") ∨
  (∃ pre c post message,
     candidates (mkOptions explicitPath autoDetect None) = pre ++ c :: post ∧
     (∀ x, x ∈ pre → attempt x = inr None) ∧
     attempt c = inl message ∧
     ensureGeminiCliAvailable explicitPath autoDetect = inl message).
Proof. apply ensureGeminiCliAvailable_cases. Qed.

(** X9.  The candidate that [resolveCliPath] pushes under its guard on
    [process.env.PATH] never decides the result: the function returns what
    its loop returns on the explicit path, the environment override and
    [DEFAULT_PATH_CANDIDATES] alone.  The guard pushes the empty string,
    which the loop skips, or the bare name [gemini], which heads the fixed
    list anyway and whose second lookup, on a host that answers one
    resolution consistently, ends as the first did. *)
Theorem guarded_candidate_is_redundant options :
  resolveCliPath options =
    resolve_loop
      ((if Js.truthy_opt (explicitPath options)
        then [default EmptyString (explicitPath options)] else [])
       ++ (if Js.truthy_opt (getEnvVar "GEMINI_CLI_PATH")
           then [default EmptyString (getEnvVar "GEMINI_CLI_PATH")] else [])
       ++ (match autoDetect options with
           | Some false => []
           | _ => DEFAULT_PATH_CANDIDATES
           end)).
Proof.
  unfold GeminiCliDetectorFaults.resolveCliPath.
  rewrite candidates_parts. unfold auto_candidates.
  set (pre1 := if Js.truthy_opt (explicitPath options) then _ else _).
  set (pre2 := if Js.truthy_opt (getEnvVar "GEMINI_CLI_PATH") then _ else _).
  assert (∀ guard rest,
            guard = "gemini" ∨ guard = EmptyString →
            resolve_loop (pre1 ++ pre2 ++ guard :: "gemini" :: rest)
            = resolve_loop (pre1 ++ pre2 ++ "gemini" :: rest)) as Hguard.
  { intros guard rest Hg.
    induction pre1 as [|x pre1 IH]; cbn [app].
    - induction pre2 as [|y pre2 IH]; cbn [app].
      + destruct Hg as [->| ->]; [apply faulty_loop_twice|done].
      + rewrite !(faulty_loop_cons y). by rewrite IH.
    - rewrite !(faulty_loop_cons x). by rewrite IH. }
  destruct (autoDetect options) as [[]|]; try done.
  all: unfold DEFAULT_PATH_CANDIDATES; apply Hguard.
  all: destruct (Js.truthy_opt process_env_PATH); auto.
Qed.

End Path.

End Faults.

(** On a host whose process runner never throws, the locator is the one
    of the first part. *)
Lemma resolveCliPath_without_faults access_X_OK run getEnvVar pth platform options :
  GeminiCliDetectorFaults.resolveCliPath access_X_OK
    (λ command args timeoutMs, inr (run command args timeoutMs))
    getEnvVar pth platform options
  = inr (GeminiCliDetector.resolveCliPath access_X_OK run getEnvVar pth platform
           options).
Proof.
  unfold GeminiCliDetectorFaults.resolveCliPath, GeminiCliDetector.resolveCliPath.
  induction (GeminiCliDetector.candidates getEnvVar pth options) as [|c l IH];
    [done|].
  cbn. destruct (Js.truthy_str c); cbn; [|done].
  unfold GeminiCliDetectorFaults.command_of, GeminiCliDetector.command_of,
    GeminiCliDetectorFaults.findInPath, GeminiCliDetector.findInPath,
    GeminiCliDetectorFaults.ensureExecutable, GeminiCliDetector.ensureExecutable.
  destruct (Js.includes c "/" || Js.includes c Js.BACKSLASH).
  - destruct (Js.truthy_str c); cbn; [|done]. by destruct (access_X_OK c).
  - destruct (GeminiCliDetector.ok _); [|done].
    destruct (List.map Js.trim _) as [|r rs]; [done|].
    destruct (Js.truthy_str r) eqn:Hr; [|done].
    rewrite Hr. cbn. by destruct (access_X_OK r).
Qed.

(** *** The version *)

Section Host.
Variable access_X_OK : string → bool.
Variable runCommand : string → list string → Z → CommandResult.
Variable getEnvVar : string → option string.
Variable process_platform : string.

Abbreviation readVersion := (readVersion runCommand).

(** X10.  [readVersion] gives nothing when [--version] fails.  When it
    succeeds and the output has a dotted triple of numbers, the version is
    such a triple; otherwise it is the trimmed output.  A version is never
    the empty string, it always occurs in the output, and it is missing
    only when the output is blank. *)
Theorem readVersion_answer cliPath timeoutMs :
  (ok (runCommand cliPath ["--version"] timeoutMs) = false →
   readVersion cliPath timeoutMs = None) ∧
  (ok (runCommand cliPath ["--version"] timeoutMs) = true →
   match readVersion cliPath timeoutMs with
   | Some v =>
       Js.truthy_str v = true ∧
       Js.includes (stdout (runCommand cliPath ["--version"] timeoutMs)) v = true ∧
       ((∃ a b c, v = (a ++ "." ++ b ++ "." ++ c)%string ∧
                  Js.truthy_str a = true ∧ JsMore.all_digits a = true ∧
                  Js.truthy_str b = true ∧ JsMore.all_digits b = true ∧
                  Js.truthy_str c = true ∧ JsMore.all_digits c = true) ∨
        (Js.match_semver (stdout (runCommand cliPath ["--version"] timeoutMs)) = None ∧
         v = Js.trim (stdout (runCommand cliPath ["--version"] timeoutMs))))
   | None => JsFacts.all_space (stdout (runCommand cliPath ["--version"] timeoutMs)) = true
   end).
Proof.
  unfold GeminiCliDetector.readVersion.
  destruct (ok (runCommand cliPath ["--version"] timeoutMs)); cbn; split; try done.
  intros _.
  destruct (Js.match_semver (stdout (runCommand cliPath ["--version"] timeoutMs)))
    as [v|] eqn:Hm.
  - destruct (JsMore.match_semver_shape _ _ Hm) as (a & b & c & Hv & Hi & H).
    split; [|split; [done|left; by exists a, b, c]].
    eapply JsFacts.includes_truthy; [apply JsMore.includes_refl|].
    rewrite Hv. destruct a; [by destruct H|done].
  - destruct (Js.truthy_str (Js.trim _)) eqn:Ht.
    + split; [done|]. split; [apply JsMore.trim_includes|by right].
    + apply JsFacts.trim_empty. by destruct (Js.trim _).
Qed.

End Host.

End GeminiCliDetectorMore.

(** ** The Codex CLI detector *)

Module CodexCliDetectorMore.
Import CodexCliDetector.
Local Open Scope list_scope.

Definition NOT_FOUND : string := "Codex CLI executable not found".

Section Host.
Variable access_X_OK : string → bool.
Variable runCommand : string → list string → Z → string + CommandResult.
Variable getEnvVar : string → option string.
Variable process_platform : string.

Abbreviation findInPath := (findInPath runCommand process_platform).
Abbreviation resolve_loop := (resolve_loop access_X_OK runCommand process_platform).
Abbreviation readVersion := (readVersion runCommand).

(** What the loop of [resolveCliPath] does at one candidate: the lookup
    throws; or the loop returns, with a path; or it goes on to the next
    candidate. *)
Definition attempt (candidate : string) : string + option string :=
  if negb (Js.truthy_str candidate) then inr None
  else
    match (if Js.includes candidate "/" || Js.includes candidate Js.BACKSLASH
           then inr (Some candidate) else findInPath candidate) with
    | inl message => inl message
    | inr (Some resolved) =>
        inr (if Js.truthy_str resolved && access_X_OK resolved
             then Some resolved else None)
    | inr None => inr None
    end.

Lemma codex_loop_cons c rest :
  resolve_loop (c :: rest) =
    match attempt c with
    | inl message => inl message
    | inr (Some resolved) => inr (mkResolution (Some resolved) None)
    | inr None => resolve_loop rest
    end.
Proof.
  cbn. unfold attempt, ensureExecutable.
  destruct (Js.truthy_str c); cbn; [|done].
  destruct (if Js.includes c "/" || Js.includes c Js.BACKSLASH
            then inr (Some c) else findInPath c) as [m|[r|]]; [done| |done].
  by destruct (Js.truthy_str r), (access_X_OK r).
Qed.

Lemma codex_attempt_executable c p :
  attempt c = inr (Some p) → Js.truthy_str p = true ∧ access_X_OK p = true.
Proof.
  unfold attempt. destruct (Js.truthy_str c); cbn; [|done].
  destruct (if Js.includes c "/" || Js.includes c Js.BACKSLASH
            then inr (Some c) else findInPath c) as [m|[r|]]; [done| |done].
  destruct (Js.truthy_str r) eqn:Ht, (access_X_OK r) eqn:Ha; cbn; try done.
  by intros [= <-].
Qed.

Lemma codex_loop_cases l :
  (∃ pre c post p,
     l = pre ++ c :: post ∧ (∀ x, x ∈ pre → attempt x = inr None) ∧
     attempt c = inr (Some p) ∧
     Js.truthy_str p = true ∧ access_X_OK p = true ∧
     resolve_loop l = inr (mkResolution (Some p) None)) ∨
  ((∀ x, x ∈ l → attempt x = inr None) ∧
   resolve_loop l = inr (mkResolution None (Some NOT_FOUND))) ∨
  (∃ pre c post message,
     l = pre ++ c :: post ∧ (∀ x, x ∈ pre → attempt x = inr None) ∧
     attempt c = inl message ∧
     resolve_loop l = inl message).
Proof.
  induction l as [|x l IH].
  - right. left. split; [|done]. intros c Hc. by apply elem_of_nil in Hc.
  - rewrite codex_loop_cons. destruct (attempt x) as [m|[p|]] eqn:Hx.
    + right. right. exists [], x, l, m. split; [done|].
      split; [intros y Hy; by apply elem_of_nil in Hy|done].
    + left. exists [], x, l, p. split; [done|].
      split; [intros y Hy; by apply elem_of_nil in Hy|].
      split; [done|]. by destruct (codex_attempt_executable _ _ Hx).
    + destruct IH as [(pre & c & post & p & -> & Hpre & Hc & Ht & Ha & Hr)
                     |[[Hnone Hr]|(pre & c & post & m & -> & Hpre & Hc & Hr)]].
      * left. exists (x :: pre), c, post, p. split; [done|].
        split; [|done]. intros y Hy. apply elem_of_cons in Hy as [->|Hy]; auto.
      * right. left. split; [|done]. intros y Hy.
        apply elem_of_cons in Hy as [->|Hy]; auto.
      * right. right. exists (x :: pre), c, post, m. split; [done|].
        split; [|done]. intros y Hy. apply elem_of_cons in Hy as [->|Hy]; auto.
Qed.

Lemma codex_loop_twice c l :
  resolve_loop (c :: c :: l) = resolve_loop (c :: l).
Proof. rewrite !codex_loop_cons. by destruct (attempt c) as [m|[p|]]. Qed.

Section Path.
Variable process_env_PATH : option string.

Abbreviation candidates := (candidates getEnvVar process_env_PATH).
Abbreviation resolveCliPath :=
  (resolveCliPath access_X_OK runCommand getEnvVar process_env_PATH
     process_platform).
Abbreviation detectCodexCli :=
  (detectCodexCli access_X_OK runCommand getEnvVar process_env_PATH process_platform).
Abbreviation ensureCodexCliAvailable :=
  (CodexCliProvider.ensureCodexCliAvailable access_X_OK runCommand getEnvVar
     process_env_PATH process_platform).

Lemma detectCodexCli_cases options :
  (∃ pre c post p,
     candidates options = pre ++ c :: post ∧
     (∀ x, x ∈ pre → attempt x = inr None) ∧
     attempt c = inr (Some p) ∧
     Js.truthy_str p = true ∧ access_X_OK p = true ∧
     detectCodexCli options
     = match readVersion p (default DEFAULT_TIMEOUT (timeoutMs options)) with
       | inr version => mkInfo (Some p) version true None
       | inl message => mkInfo None None false (Some message)
       end) ∨
  ((∀ x, x ∈ candidates options → attempt x = inr None) ∧
   detectCodexCli options = mkInfo None None false (Some NOT_FOUND)) ∨
  (∃ pre c post message,
     candidates options = pre ++ c :: post ∧
     (∀ x, x ∈ pre → attempt x = inr None) ∧
     attempt c = inl message ∧
     detectCodexCli options = mkInfo None None false (Some message)).
Proof.
  unfold CodexCliDetector.detectCodexCli, CodexCliDetector.resolveCliPath.
  destruct (codex_loop_cases (candidates options))
    as [(pre & c & post & p & Hl & Hpre & Hc & Ht & Ha & ->)
       |[[Hnone ->]|(pre & c & post & m & Hl & Hpre & Hc & ->)]].
  - left. exists pre, c, post, p. cbn. rewrite Ht.
    by destruct (readVersion p _).
  - right. by left.
  - right. right. by exists pre, c, post, m.
Qed.

Lemma ensureCodexCliAvailable_cases explicitPath autoDetect :
  (∃ pre c post p,
     candidates (mkOptions explicitPath autoDetect None) = pre ++ c :: post ∧
     (∀ x, x ∈ pre → attempt x = inr None) ∧
     attempt c = inr (Some p) ∧
     Js.truthy_str p = true ∧ access_X_OK p = true ∧
     ensureCodexCliAvailable explicitPath autoDetect
     = match readVersion p DEFAULT_TIMEOUT with
       | inr version => inr (mkInfo (Some p) version true None)
       | inl message => inl message
       end) ∨
  ((∀ x, x ∈ candidates (mkOptions explicitPath autoDetect None) →
         attempt x = inr None) ∧
   ensureCodexCliAvailable explicitPath autoDetect = inl NOT_FOUND) ∨
  (∃ pre c post message,
     candidates (mkOptions explicitPath autoDetect None) = pre ++ c :: post ∧
     (∀ x, x ∈ pre → attempt x = inr None) ∧
     attempt c = inl message ∧
     ensureCodexCliAvailable explicitPath autoDetect = inl message).
Proof.
  unfold CodexCliProvider.ensureCodexCliAvailable.
  destruct (detectCodexCli_cases (mkOptions explicitPath autoDetect None))
    as [(pre & c & post & p & Hl & Hpre & Hc & Ht & Ha & ->)
       |[[Hnone ->]|(pre & c & post & m & Hl & Hpre & Hc & ->)]]; cbn.
  - left. exists pre, c, post, p. do 5 (split; [done|]).
    destruct (readVersion p DEFAULT_TIMEOUT); cbn; [done|]. by rewrite Ht.
  - right. by left.
  - right. right. by exists pre, c, post, m.
Qed.

(** X11.  The answers of [detectCodexCli] and of its guard
    [ensureCodexCliAvailable].  The search stops at the first candidate at
    which the lookup throws or which qualifies.  If it qualifies, the
    detector reports the CLI available with that non-empty executable path,
    no error message and the version [--version] gives, and the guard
    returns this answer; unless [spawn] throws on [--version], which the
    detector catches and reports as unavailable with the thrown message.
    If a lookup throws first, the detector reports unavailable with the
    thrown message, whatever later candidates would give.  If no candidate
    qualifies or throws, it reports unavailable with "Codex CLI executable
    not found".  Whenever the detector reports unavailable the guard throws
    the detector's message; its own installation hint is the default of an
    error message that is never missing. *)
Theorem ensureCodexCliAvailable_answer explicitPath autoDetect :
  (∃ pre c post p,
     candidates (mkOptions explicitPath autoDetect None) = pre ++ c :: post ∧
     (∀ x, x ∈ pre → attempt x = inr None) ∧
     attempt c = inr (Some p) ∧
     Js.truthy_str p = true ∧ access_X_OK p = true ∧
     detectCodexCli (mkOptions explicitPath autoDetect None)
     = match readVersion p DEFAULT_TIMEOUT with
       | inr version => mkInfo (Some p) version true None
       | inl message => mkInfo None None false (Some message)
       end ∧
     ensureCodexCliAvailable explicitPath autoDetect
     = match readVersion p DEFAULT_TIMEOUT with
       | inr version => inr (mkInfo (Some p) version true None)
       | inl message => inl message
       end) ∨
  ((∀ x, x ∈ candidates (mkOptions explicitPath autoDetect None) →
         attempt x = inr None) ∧
   detectCodexCli (mkOptions explicitPath autoDetect None)
   = mkInfo None None false (Some "Codex CLI executable not found") ∧
   ensureCodexCliAvailable explicitPath autoDetect
   = inl "Codex CLI executable not found") ∨
  (∃ pre c post message,
     candidates (mkOptions explicitPath autoDetect None) = pre ++ c :: post ∧
     (∀ x, x ∈ pre → attempt x = inr None) ∧
     attempt c = inl message ∧
     detectCodexCli (mkOptions explicitPath autoDetect None)
     = mkInfo None None false (Some message) ∧
     ensureCodexCliAvailable explicitPath autoDetect = inl message).
Proof.
  unfold CodexCliProvider.ensureCodexCliAvailable.
  destruct (detectCodexCli_cases (mkOptions explicitPath autoDetect None))
    as [(pre & c & post & p & Hl & Hpre & Hc & Ht & Ha & ->)
       |[[Hnone ->]|(pre & c & post & m & Hl & Hpre & Hc & ->)]]; cbn.
  - left. exists pre, c, post, p. do 6 (split; [done|]).
    destruct (readVersion p DEFAULT_TIMEOUT); cbn; [done|]. by rewrite Ht.
  - right. by left.
  - right. right. by exists pre, c, post, m.
Qed.

(** X12.  The candidate that the Codex [resolveCliPath] pushes under its
    guard on [process.env.PATH] never decides the result: the function
    returns what its loop returns on the explicit path, the environment
    override and [DEFAULT_PATH_CANDIDATES] alone.  The guard pushes the
    empty string, which the loop skips, or the bare name [codex], which
    heads the fixed list anyway and whose second lookup, on a host that
    answers one resolution consistently, ends as the first did. *)
Theorem codex_guarded_candidate_is_redundant options :
  resolveCliPath options =
    resolve_loop
      ((match explicitPath options with
        | Some p => if Js.truthy_str p then [p] else []
        | None => []
        end)
       ++ (match getEnvVar "CODEX_CLI_PATH" with
           | Some envPath => if Js.truthy_str envPath then [envPath] else []
           | None => []
           end)
       ++ (match autoDetect options with
           | Some false => []
           | _ => DEFAULT_PATH_CANDIDATES
           end)).
Proof.
  unfold CodexCliDetector.resolveCliPath, CodexCliDetector.candidates.
  set (pre1 := match explicitPath options with Some _ => _ | None => _ end).
  set (pre2 := match getEnvVar "CODEX_CLI_PATH" with Some _ => _ | None => _ end).
  assert (∀ guard rest,
            guard = "codex" ∨ guard = EmptyString →
            resolve_loop (pre1 ++ pre2 ++ guard :: "codex" :: rest)
            = resolve_loop (pre1 ++ pre2 ++ "codex" :: rest)) as Hguard.
  { intros guard rest Hg.
    induction pre1 as [|x pre1 IH]; cbn [app].
    - induction pre2 as [|y pre2 IH]; cbn [app].
      + destruct Hg as [->| ->]; [apply codex_loop_twice|done].
      + rewrite !(codex_loop_cons y). by rewrite IH.
    - rewrite !(codex_loop_cons x). by rewrite IH. }
  destruct (autoDetect options) as [[]|]; try done.
  all: unfold DEFAULT_PATH_CANDIDATES; apply Hguard.
  all: destruct (Js.truthy_opt process_env_PATH); auto.
Qed.

End Path.

End Host.

End CodexCliDetectorMore.

(** ** The prompt and the child process of the two bridges *)

Module PromptMore.
Import Js JsFacts JsMore.
Local Open Scope list_scope.
#[local] Arguments String.append !_ _ / : simpl nomatch.

Lemma join_cons sep x xs :
  join sep (x :: xs) =
    match xs with [] => x | _ => (x ++ sep ++ join sep xs)%string end.
Proof. by destruct xs. Qed.

Lemma append_truthy (a b : string) :
  truthy_str (a ++ b)%string = truthy_str a || truthy_str b.
Proof. by destruct a. Qed.

Lemma join_truthy sep xs :
  (∀ x, x ∈ xs → truthy_str x = true) →
  truthy_str (join sep xs) = match xs with [] => false | _ => true end.
Proof.
  destruct xs as [|x xs]; [done|]. intros Hall.
  rewrite join_cons. assert (truthy_str x = true) as Hx by (apply Hall; set_solver).
  destruct xs; [done|]. by rewrite append_truthy, Hx.
Qed.

Lemma join_app sep xs ys :
  join sep (xs ++ ys) =
    match xs, ys with
    | [], _ => join sep ys
    | _, [] => join sep xs
    | _, _ => (join sep xs ++ sep ++ join sep ys)%string
    end.
Proof.
  induction xs as [|x xs IH]; [done|].
  destruct ys as [|y ys]; [by rewrite app_nil_r|].
  cbn [app]. rewrite join_cons, IH.
  destruct xs as [|x' xs]; [done|].
  cbn [app]. rewrite (join_cons sep x (x' :: xs)).
  by rewrite !app_assoc_str.
Qed.

Lemma endsWith_refl s : endsWith s s = true.
Proof. destruct s; cbn [endsWith]; by rewrite String.eqb_refl. Qed.

Lemma endsWith_app s t : endsWith (s ++ t)%string t = true.
Proof.
  induction s as [|c s IH]; cbn.
  - apply endsWith_refl.
  - cbn [endsWith]. fold (String.append s t). by rewrite IH, orb_true_r.
Qed.

(** *** The prompt *)

Section Prompt.
Import GeminiCliProvider.

Lemma segment_truthy m seg : segment m = Some seg → truthy_str seg = true.
Proof.
  unfold segment. destruct (message_parts m); [done|]. intros [= <-].
  unfold role_prefix.
  destruct (prop m "role") as [[]|]; try done.
  by repeat case_match.
Qed.

Lemma segments_truthy (ms : list JSON) (x : string) :
  x ∈ omap segment ms → truthy_str x = true.
Proof.
  intros Hx. apply list_elem_of_omap in Hx as (m & _ & Hm).
  by eapply segment_truthy.
Qed.

Lemma format_truthy (ms : list JSON) :
  truthy_str (formatMessagesAsPrompt (JArray ms))
  = match omap segment ms with [] => false | _ => true end.
Proof. cbn. apply join_truthy. intros x. apply segments_truthy. Qed.

(** X13.  The prompt of a conversation in two parts is the prompt of the
    first part, a blank line, and the prompt of the second part; when a
    part has no prompt (none of its messages has text) the prompt is the
    other part's, without a blank line. *)
Theorem formatMessagesAsPrompt_app (ms1 ms2 : list JSON) :
  formatMessagesAsPrompt (JArray (ms1 ++ ms2)) =
    if truthy_str (formatMessagesAsPrompt (JArray ms1))
       && truthy_str (formatMessagesAsPrompt (JArray ms2))
    then (formatMessagesAsPrompt (JArray ms1) ++ LF ++ LF
          ++ formatMessagesAsPrompt (JArray ms2))%string
    else (formatMessagesAsPrompt (JArray ms1)
          ++ formatMessagesAsPrompt (JArray ms2))%string.
Proof.
  rewrite !format_truthy. cbn [formatMessagesAsPrompt].
  rewrite omap_app, join_app.
  destruct (omap segment ms1) as [|a l1]; [by destruct (omap segment ms2)|].
  destruct (omap segment ms2) as [|b l2]; cbn [andb].
  - by rewrite append_empty_r.
  - by rewrite !app_assoc_str.
Qed.

(** X14.  A message without text (its content is neither a string nor an
    array with a text part) leaves no trace in the prompt, not even its
    role. *)
Theorem formatMessagesAsPrompt_skips_textless (before : list JSON) m after :
  message_parts m = [] →
  formatMessagesAsPrompt (JArray (before ++ m :: after))
  = formatMessagesAsPrompt (JArray (before ++ after)).
Proof.
  intros Hm. cbn [formatMessagesAsPrompt].
  rewrite !omap_app. cbn [omap list_omap]. unfold segment at 2. by rewrite Hm.
Qed.

End Prompt.

Definition demo_text (role text : string) : JSON :=
  JObject [("role", JString role); ("content", JString text)].
Definition demo_image : JSON :=
  JObject [("role", JString "user");
           ("content", JArray [JObject [("type", JString "image_url");
                                        ("image_url", JString "data:image/png")]])].

Lemma formatMessagesAsPrompt_skips_textless_witness :
  GeminiCliProvider.formatMessagesAsPrompt
    (JArray [demo_text "system" "Be brief."; demo_image; demo_text "user" "Hi"])
  = GeminiCliProvider.formatMessagesAsPrompt
      (JArray [demo_text "system" "Be brief."; demo_text "user" "Hi"]).
Proof.
  apply (formatMessagesAsPrompt_skips_textless
           [demo_text "system" "Be brief."] demo_image [demo_text "user" "Hi"]).
  reflexivity.
Defined.

(** X15.  The two bridges build the same prompt from a request body: the
    two [formatMessagesAsPrompt] agree on every value, and the two ways
    the fetch functions pick the messages ([?? []] and [Array.isArray])
    agree on every body.  A body whose [messages] is not an array gives the
    empty prompt. *)
Theorem bridges_build_the_same_prompt body :
  (∀ messages, GeminiCliProvider.formatMessagesAsPrompt messages
               = CodexCliProvider.formatMessagesAsPrompt messages) ∧
  GeminiCliProvider.prompt_of body = CodexCliProvider.prompt_of body ∧
  (as_array (prop body "messages") = None →
   GeminiCliProvider.prompt_of body = EmptyString).
Proof.
  split; [done|].
  unfold GeminiCliProvider.prompt_of, CodexCliProvider.prompt_of.
  destruct (prop body "messages") as [[]|]; done.
Qed.

(** *** The child process *)

(** X16.  The Codex child gets the prompt on its standard input and never
    among its arguments: what is written ends with a line feed and is the
    prompt itself or, when the prompt does not end with one, the prompt
    with one line feed added; the arguments are the same for every prompt
    and end with the [-] that announces standard input. *)
Theorem codex_prompt_goes_to_stdin env config prompt :
  endsWith (CodexCliProvider.sp_stdin
              (CodexCliProvider.runCodexCliCommand env config prompt)) LF = true ∧
  ((endsWith prompt LF = true ∧
    CodexCliProvider.sp_stdin (CodexCliProvider.runCodexCliCommand env config prompt)
      = prompt) ∨
   (endsWith prompt LF = false ∧
    CodexCliProvider.sp_stdin (CodexCliProvider.runCodexCliCommand env config prompt)
      = (prompt ++ LF)%string)) ∧
  (∀ prompt',
     CodexCliProvider.sp_args (CodexCliProvider.runCodexCliCommand env config prompt')
     = CodexCliProvider.sp_args
         (CodexCliProvider.runCodexCliCommand env config prompt)) ∧
  last (CodexCliProvider.sp_args
          (CodexCliProvider.runCodexCliCommand env config prompt)) = Some "-".
Proof.
  cbn. split; [|split; [|split]].
  - destruct (endsWith prompt LF) eqn:He; [done|]. apply endsWith_app.
  - destruct (endsWith prompt LF) eqn:He; [by left|by right].
  - done.
  - change (last (("exec" :: "--model" :: CodexCliProvider.modelId config
                     :: "--json" :: "--skip-git-repo-check"
                     :: default [] (CodexCliProvider.extraArgs config)) ++ ["-"])
            = Some "-").
    apply last_snoc.
Qed.

(** X17.  A model made by [createCodexCliModel] runs the CLI without the
    API key of its options: the configuration of its fetch function has
    none, so the child's [OPENAI_API_KEY] is the one of the parent's own
    environment, if any, although [runCodexCliCommand] would set it from a
    configuration that has a key.  The child always has [NO_COLOR] and
    [CODEX_DISABLE_ROLLOUT_RECORDER] set to 1, and every other variable
    is inherited. *)
Theorem createCodexCliModel_drops_apiKey env modelId options prompt :
  CodexCliProvider.sp_env
    (CodexCliProvider.runCodexCliCommand env
       (CodexCliProvider.createCodexCliModel modelId options) prompt)
    !! "OPENAI_API_KEY" = env !! "OPENAI_API_KEY" ∧
  (∀ config key,
     CodexCliProvider.apiKey config = Some key → truthy_str key = true →
     CodexCliProvider.sp_env (CodexCliProvider.runCodexCliCommand env config prompt)
       !! "OPENAI_API_KEY" = Some key) ∧
  (∀ config,
     CodexCliProvider.sp_env (CodexCliProvider.runCodexCliCommand env config prompt)
       !! "NO_COLOR" = Some "1" ∧
     CodexCliProvider.sp_env (CodexCliProvider.runCodexCliCommand env config prompt)
       !! "CODEX_DISABLE_ROLLOUT_RECORDER" = Some "1" ∧
     ∀ name, name ≠ "NO_COLOR" → name ≠ "CODEX_DISABLE_ROLLOUT_RECORDER" →
             name ≠ "OPENAI_API_KEY" →
             CodexCliProvider.sp_env
               (CodexCliProvider.runCodexCliCommand env config prompt) !! name
             = env !! name).
Proof.
  split; [|split].
  - cbn. by rewrite !lookup_insert_ne.
  - intros config key Hk Ht. cbn. rewrite Hk, Ht. apply lookup_insert_eq.
  - intros config. cbn.
    destruct (CodexCliProvider.apiKey config) as [k|]; [destruct (truthy_str k)|].
    all: split; [by rewrite ?lookup_insert_eq, ?(lookup_insert_ne _ "OPENAI_API_KEY"),
                          ?(lookup_insert_ne _ "CODEX_DISABLE_ROLLOUT_RECORDER"),
                          ?lookup_insert_eq|].
    all: split; [by rewrite ?(lookup_insert_ne _ "OPENAI_API_KEY"), ?lookup_insert_eq|].
    all: intros name H1 H2 H3; by rewrite !lookup_insert_ne.
Qed.

End PromptMore.

(** ** The answers of the two bridges *)

Module BridgeMore.
Import Js Http JsFacts JsMore PromptMore.
Local Open Scope list_scope.
#[local] Arguments String.append !_ _ / : simpl nomatch.

Ltac status_tac :=
  cbn;
  repeat match goal with
         | |- _ ∧ _ => split
         | |- _ ↔ _ => split
         end;
  try done; try (intros [? ?]; done); try (intros _; done);
  auto; try (by eexists).

Section Codex.
Import CodexCliProvider.
Variable now : Z.
Variable JSON_parse : string → option JSON.

Abbreviation parse_line := (parse_line JSON_parse).
Abbreviation parseCodexEvents := (parseCodexEvents JSON_parse).
Abbreviation createCodexCliFetch := (createCodexCliFetch now JSON_parse).

(** The lines [parseCodexEvents] loops over. *)
Definition lines_of (output : string) : list string :=
  List.filter truthy_str (List.map trim (splitLines output)).

(** The message of a line that is an error event, and the delta of a line
    that is a text delta event and not an error event. *)
Definition error_of (line : string) : option string :=
  match JSON_parse line with
  | Some event =>
      match as_string (prop event "type"), as_string (prop event "message") with
      | Some ty, Some m => if String.eqb ty "error" then Some m else None
      | _, _ => None
      end
  | None => None
  end.

Definition delta_of (line : string) : option string :=
  match JSON_parse line with
  | Some event =>
      match as_string (prop event "type"), as_string (prop event "delta") with
      | Some ty, Some d =>
          if String.eqb ty "response.output_text.delta" then Some d else None
      | _, _ => None
      end
  | None => None
  end.

Lemma parse_line_error acc line m :
  error_of line = Some m → parse_line acc line = (acc.1, Some m).
Proof.
  unfold error_of, CodexCliProvider.parse_line. destruct acc as [t e].
  destruct (JSON_parse line) as [event|]; [|done].
  destruct (as_string (prop event "type")) as [ty|]; [|done].
  destruct (as_string (prop event "message")) as [m'|]; [|done].
  destruct (String.eqb ty "error"); [|done]. by intros [= <-].
Qed.

Lemma parse_line_no_error acc line :
  error_of line = None → (parse_line acc line).2 = acc.2.
Proof.
  unfold error_of, CodexCliProvider.parse_line. destruct acc as [t e].
  destruct (JSON_parse line) as [event|]; [|done].
  destruct (as_string (prop event "type")) as [ty|];
    destruct (as_string (prop event "message")) as [m'|];
    try destruct (String.eqb ty "error"); try done; intros _.
  all: repeat (case_match; try done).
Qed.

Lemma parse_line_unparsed acc line :
  JSON_parse line = None → parse_line acc line = acc.
Proof. unfold CodexCliProvider.parse_line. destruct acc. by intros ->. Qed.

Lemma parse_line_delta acc line d :
  error_of line = None → delta_of line = Some d →
  parse_line acc line = ((acc.1 ++ d)%string, acc.2).
Proof.
  unfold error_of, delta_of, CodexCliProvider.parse_line. destruct acc as [t e].
  destruct (JSON_parse line) as [event|]; [|done].
  destruct (as_string (prop event "type")) as [ty|]; [|done].
  destruct (as_string (prop event "delta")) as [d'|]; [|done].
  destruct (String.eqb ty "response.output_text.delta") eqn:Hd; [|done].
  apply String.eqb_eq in Hd as ->.
  destruct (as_string (prop event "message")); cbn; by intros _ [= <-].
Qed.

Lemma fold_error lines : ∀ acc,
  (fold_left parse_line lines acc).2
  = match last (omap error_of lines) with
    | Some m => Some m
    | None => acc.2
    end.
Proof.
  induction lines as [|line lines IH]; intros acc; [done|].
  cbn [fold_left]. rewrite IH.
  change (omap error_of (line :: lines))
    with (match error_of line with
          | Some y => y :: omap error_of lines
          | None => omap error_of lines
          end).
  destruct (error_of line) as [m|] eqn:He.
  - rewrite (parse_line_error _ _ _ He), last_cons.
    by destruct (last (omap error_of lines)).
  - by rewrite (parse_line_no_error _ _ He).
Qed.

Lemma lines_truthy output x : x ∈ lines_of output → truthy_str x = true.
Proof.
  unfold lines_of. rewrite list_elem_of_In, filter_In. by intros [_ ?].
Qed.

Lemma fold_unparsed lines : ∀ acc,
  (∀ l, l ∈ lines → JSON_parse l = None) →
  fold_left parse_line lines acc = acc.
Proof.
  induction lines as [|line lines IH]; intros acc Hall; [done|].
  cbn [fold_left]. rewrite parse_line_unparsed by (apply Hall; set_solver).
  apply IH. intros l Hl. apply Hall. set_solver.
Qed.

Lemma fold_deltas lines : ∀ acc,
  (∀ l, l ∈ lines → error_of l = None ∧ is_Some (delta_of l)) →
  fold_left parse_line lines acc
  = ((acc.1 ++ String.concat EmptyString (omap delta_of lines))%string, acc.2).
Proof.
  induction lines as [|line lines IH]; intros acc Hall.
  - cbn. rewrite append_empty_r. by destruct acc.
  - destruct (Hall line) as [He [d Hd]]; [set_solver|].
    cbn [fold_left]. rewrite (parse_line_delta _ _ _ He Hd).
    rewrite IH by (intros l Hl; apply Hall; set_solver).
    change (omap delta_of (line :: lines))
      with (match delta_of line with
            | Some y => y :: omap delta_of lines
            | None => omap delta_of lines
            end).
    rewrite Hd. cbn [fst snd]. f_equal.
    rewrite app_assoc_str. f_equal.
    destruct (omap delta_of lines) as [|x l]; cbn [String.concat].
    + by rewrite append_empty_r.
    + done.
Qed.

(** X18.  When the CLI exits with 0, the error that [parseCodexEvents]
    reports is the message of the last error event of the output, and
    the text events do not change it.  The fetch function then answers
    500 with that message, whatever text the output has and whether or not
    the request asks for a stream, unless there is no error event or the
    message is the empty string: then it answers 200. *)
Theorem codex_last_error_event_wins modelId e :
  success e = true →
  (parseCodexEvents (stdout e)).2 = last (omap error_of (lines_of (stdout e))) ∧
  match last (omap error_of (lines_of (stdout e))) with
  | Some m =>
      if truthy_str m
      then ∀ body, createCodexCliFetch modelId body e
                   = error_response 500 [ ("message", JString m);
                                          ("type", JString "codex_cli_error") ]
      else ∀ body, status (createCodexCliFetch modelId body e) = 200%Z
  | None => ∀ body, status (createCodexCliFetch modelId body e) = 200%Z
  end.
Proof.
  intros Hs.
  assert ((parseCodexEvents (stdout e)).2 = last (omap error_of (lines_of (stdout e))))
    as Hlast.
  { unfold CodexCliProvider.parseCodexEvents. fold (lines_of (stdout e)).
    pose proof (fold_error (lines_of (stdout e)) (EmptyString, None)) as Hf.
    destruct (fold_left parse_line (lines_of (stdout e)) (EmptyString, None))
      as [t err]. cbn in Hf |- *. rewrite Hf.
    by destruct (last (omap error_of (lines_of (stdout e)))). }
  split; [done|]. rewrite <- Hlast.
  unfold CodexCliProvider.createCodexCliFetch. rewrite Hs. cbn [negb].
  destruct (parseCodexEvents (stdout e)) as [text [m|]]; cbn.
  - destruct (truthy_str m); [done|]. intros body. by repeat case_match.
  - intros body. by repeat case_match.
Qed.

(** X19.  The text [parseCodexEvents] returns is empty only when the
    output has no line but blank ones.  When no line is a JSON document
    the text is the non-blank lines, trimmed and joined; when every line is
    a text delta event, it is the deltas put together and trimmed (if that
    is not blank). *)
Theorem parseCodexEvents_text output :
  truthy_str (parseCodexEvents output).1
    = match lines_of output with [] => false | _ => true end ∧
  ((∀ l, l ∈ lines_of output → JSON_parse l = None) →
   parseCodexEvents output = (join LF (lines_of output), None)) ∧
  ((∀ l, l ∈ lines_of output → error_of l = None ∧ is_Some (delta_of l)) →
   truthy_str (trim (String.concat EmptyString (omap delta_of (lines_of output))))
     = true →
   parseCodexEvents output
     = (trim (String.concat EmptyString (omap delta_of (lines_of output))), None)).
Proof.
  unfold CodexCliProvider.parseCodexEvents. fold (lines_of output).
  split; [|split].
  - pose proof (lines_truthy output) as Hlines.
    destruct (lines_of output) as [|x l]; [done|].
    destruct (fold_left parse_line (x :: l) (EmptyString, None)) as [t err].
    cbn [fst]. destruct (truthy_str (trim t)) eqn:Ht; [done|].
    by apply join_truthy.
  - intros Hall. by rewrite (fold_unparsed _ _ Hall).
  - intros Hall Ht. rewrite (fold_deltas _ _ Hall). cbn [fst snd].
    change (EmptyString ++ ?s)%string with s. by rewrite Ht.
Qed.

(** X20.  The statuses of the Codex bridge.  Its fetch function answers
    200 exactly when the CLI exited with 0 and its output reports no error
    with a non-empty message; every other answer is 401, 429 or 500 and is
    a JSON error document with a message.  The answer is an event stream
    exactly when it is a 200 and the request has [stream: true]; an error
    is never streamed. *)
Theorem codex_status_classes modelId body e :
  (status (createCodexCliFetch modelId body e) = 200%Z ↔
   success e = true ∧ truthy_opt (parseCodexEvents (stdout e)).2 = false) ∧
  (status (createCodexCliFetch modelId body e) = 200%Z ∨
   status (createCodexCliFetch modelId body e) = 401%Z ∨
   status (createCodexCliFetch modelId body e) = 429%Z ∨
   status (createCodexCliFetch modelId body e) = 500%Z) ∧
  (contentType (createCodexCliFetch modelId body e) = "text/event-stream" ↔
   status (createCodexCliFetch modelId body e) = 200%Z ∧
   prop body "stream" = Some (JBool true)) ∧
  (status (createCodexCliFetch modelId body e) ≠ 200%Z →
   contentType (createCodexCliFetch modelId body e) = "application/json" ∧
   is_Some (BridgeSpec.error_message (createCodexCliFetch modelId body e)) ∧
   message_content (createCodexCliFetch modelId body e) = None).
Proof.
  unfold CodexCliProvider.createCodexCliFetch.
  destruct (success e); cbn [negb].
  - destruct (parseCodexEvents (stdout e)) as [text err]. cbn [snd].
    destruct (truthy_opt err) eqn:Herr.
    + status_tac.
    + destruct (prop body "stream") as [[| [] | | | |]|]; status_tac.
  - match goal with |- context [truthy_opt ?q] => destruct (truthy_opt q) end.
    + status_tac.
    + destruct (includes (stderr e) "401" || includes (stdout e) "401"); status_tac.
Qed.

End Codex.

Section Gemini.
Import GeminiCliProvider.
Variable now : Z.
Variable JSON_parse : string → option JSON.

Abbreviation createCliFetch := (createCliFetch now JSON_parse).
Abbreviation tryParseError := (tryParseError JSON_parse).

(** The answers of the fetch function from a resolved execution on. *)
Lemma createCliFetch_classes modelId body e :
  match createCliFetch modelId body e with
  | Some r =>
      (status r = 200%Z ↔ success e = true) ∧
      (status r = 200%Z ∨ status r = 429%Z ∨ status r = 500%Z) ∧
      (contentType r = "text/event-stream" ↔
       status r = 200%Z ∧ prop body "stream" = Some (JBool true)) ∧
      (status r ≠ 200%Z →
       contentType r = "application/json" ∧
       is_Some (BridgeSpec.error_message r) ∧ message_content r = None)
  | None =>
      success e = false ∧
      ∃ m, (tryParseError (stdout e) = Some m ∨
            (tryParseError (stdout e) = None ∧ tryParseError (stderr e) = Some m)) ∧
           truthy (Some m) = true ∧ as_string (Some m) = None
  end.
Proof.
  unfold GeminiCliProvider.createCliFetch.
  destruct (success e); cbn [negb].
  - destruct (parseCliJson JSON_parse (stdout e)) as [text usage].
    destruct (prop body "stream") as [[| [] | | | |]|]; status_tac.
  - assert (∀ out m, tryParseError out = Some m → truthy (Some m) = true) as Htruthy.
    { intros out m. unfold GeminiCliProvider.tryParseError.
      destruct (truthy_str out); cbn; [|done].
      destruct (JSON_parse out) as [parsed|]; [|done].
      destruct (truthy (oprop (prop parsed "error") "message")) eqn:Ht; [|done].
      intros Hm. by rewrite Hm in Ht. }
    destruct (tryParseError (stdout e)) as [m|] eqn:Hout.
    + destruct m as [| | |message| |];
        try (split; [done|]; eexists; split; [by left|]; split;
             [by eapply Htruthy|done]).
      match goal with |- context [truthy_opt ?q] => destruct (truthy_opt q) end;
        status_tac.
    + destruct (tryParseError (stderr e)) as [m|] eqn:Herr.
      * destruct m as [| | |message| |];
          try (split; [done|]; eexists; split; [by right|]; split;
               [by eapply Htruthy|done]).
        match goal with |- context [truthy_opt ?q] => destruct (truthy_opt q) end;
          status_tac.
      * match goal with |- context [truthy_opt ?q] => destruct (truthy_opt q) end;
          status_tac.
Qed.

Section Request.
Variable process_env : gmap string string.
Variable spawn : SpawnRequest → string + CliExecutionResult.

Abbreviation request_body := (request_body JSON_parse).
Abbreviation cliFetch := (cliFetch now JSON_parse process_env spawn).

(** X21.  The answers and the rejections of the fetch function of the
    Gemini bridge.  It answers when the request body can be read, [spawn]
    does not throw and the execution is not a failure whose JSON error
    document has a message that is not a string.  The answer is 200
    exactly when the CLI exited with 0, and otherwise 429 or 500 with a
    JSON error document that has a message; it is an event stream exactly
    when it is a 200 and the request has [stream: true].  It rejects in
    three ways: the request body is a non-empty string that [JSON.parse]
    refuses; [spawn] throws when the CLI is started with the prompt; or
    the execution fails and the first JSON error document on its output
    has a truthy message that is not a string. *)
Theorem gemini_status_classes config init_body :
  match cliFetch config init_body with
  | inr r =>
      ∃ body e,
        request_body init_body = Some body ∧
        spawn (runGeminiCliCommand process_env config (prompt_of body)) = inr e ∧
        (status r = 200%Z ↔ success e = true) ∧
        (status r = 200%Z ∨ status r = 429%Z ∨ status r = 500%Z) ∧
        (contentType r = "text/event-stream" ↔
         status r = 200%Z ∧ prop body "stream" = Some (JBool true)) ∧
        (status r ≠ 200%Z →
         contentType r = "application/json" ∧
         is_Some (BridgeSpec.error_message r) ∧ message_content r = None)
  | inl SyntaxError =>
      ∃ text, init_body = Some (JString text) ∧ truthy_str text = true ∧
              JSON_parse text = None
  | inl (SpawnError message) =>
      ∃ body,
        request_body init_body = Some body ∧
        spawn (runGeminiCliCommand process_env config (prompt_of body))
          = inl message
  | inl TypeError =>
      ∃ body e m,
        request_body init_body = Some body ∧
        spawn (runGeminiCliCommand process_env config (prompt_of body)) = inr e ∧
        success e = false ∧
        (tryParseError (stdout e) = Some m ∨
         (tryParseError (stdout e) = None ∧ tryParseError (stderr e) = Some m)) ∧
        truthy (Some m) = true ∧ as_string (Some m) = None
  end.
Proof.
  unfold GeminiCliProvider.cliFetch.
  destruct (request_body init_body) as [body|] eqn:Hbody.
  - destruct (spawn _) as [message|e] eqn:Hspawn; [by exists body|].
    pose proof (createCliFetch_classes (modelId config) body e) as Hstage.
    destruct (createCliFetch (modelId config) body e) as [r|].
    + by exists body, e.
    + destruct Hstage as (Hs & m & Hm). by exists body, e, m.
  - revert Hbody. unfold GeminiCliProvider.request_body.
    destruct init_body as [[| | |text| |]|]; cbn; try done.
    + by destruct b.
    + by destruct (negb (n =? 0)%Z).
    + destruct (truthy_str text) eqn:Ht; [|done]. intros Hp. by exists text.
Qed.

End Request.

(** The [usage] member of an answer: of the JSON document, or of the
    last chunk of a stream that has one. *)
Definition usage_of (r : Response) : option JSON :=
  match body r with
  | JsonBody v => prop v "usage"
  | StreamBody frames =>
      last (omap (λ f, match f with Data c => prop c "usage" | Done => None end)
                 frames)
  end.

(** X22.  Token usage in the answers of the Gemini bridge.  The streamed
    and the single-shot answer report the same usage.  It is left out when
    there is no usage record or all its counts are missing or zero.
    Otherwise missing counts are reported as 0, and the total is the
    record's total or, when that is missing, the sum of the reported prompt
    and completion counts. *)
Theorem gemini_usage_reported text usage modelId :
  usage_of (createStreamingResponse now text usage modelId)
    = usage_of (createJsonResponse now text usage modelId) ∧
  usage_of (createJsonResponse now text usage modelId) = usagePayload usage ∧
  (usagePayload usage = None ↔
   ∀ u, usage = Some u →
        truthy_num (inputTokens u) = false ∧ truthy_num (outputTokens u) = false ∧
        truthy_num (totalTokens u) = false) ∧
  (∀ p, usagePayload usage = Some p →
        ∃ u, usage = Some u ∧
             as_number (prop p "prompt_tokens") = Some (default 0%Z (inputTokens u)) ∧
             as_number (prop p "completion_tokens")
               = Some (default 0%Z (outputTokens u)) ∧
             as_number (prop p "total_tokens")
               = Some (default (default 0 (inputTokens u)
                                + default 0 (outputTokens u))%Z (totalTokens u))).
Proof.
  split; [|split; [|split]].
  - unfold usage_of. cbn. by destruct (usagePayload usage).
  - unfold usage_of. cbn. by destruct (usagePayload usage).
  - unfold usagePayload. destruct usage as [u|]; [|by split].
    destruct (truthy_num (inputTokens u)) eqn:H1, (truthy_num (outputTokens u)) eqn:H2,
      (truthy_num (totalTokens u)) eqn:H3; cbn; split; try done.
    all: try (intros Hall; destruct (Hall u eq_refl) as (? & ? & ?); congruence).
    intros _ u' Hu. assert (u' = u) as -> by congruence. done.
  - intros p. unfold usagePayload. destruct usage as [u|]; [|done].
    destruct (_ || _); [|done]. intros [= <-]. by exists u.
Qed.

End Gemini.

(** *** A run that exits with 0 after an error event *)

Definition quoted (s : string) : string :=
  String "034" (s ++ String "034" EmptyString).
Definition demo_delta_line : string :=
  "{" ++ quoted "type" ++ ":" ++ quoted "response.output_text.delta" ++ ","
      ++ quoted "delta" ++ ":" ++ quoted "Hel" ++ "}".
Definition demo_error_line : string :=
  "{" ++ quoted "type" ++ ":" ++ quoted "error" ++ ","
      ++ quoted "message" ++ ":" ++ quoted "stream disconnected" ++ "}".

(** [JSON.parse] on the two lines above; other texts of the example are
    not JSON. *)
Definition demo_parse (text : string) : option JSON :=
  if String.eqb text demo_delta_line
  then Some (JObject [ ("type", JString "response.output_text.delta");
                       ("delta", JString "Hel") ])
  else if String.eqb text demo_error_line
  then Some (JObject [ ("type", JString "error");
                       ("message", JString "stream disconnected") ])
  else None.

Definition demo_exec : CodexCliProvider.CliExecutionResult :=
  CodexCliProvider.mkExec true
    (demo_delta_line ++ LF ++ demo_error_line ++ LF ++ demo_delta_line ++ LF)
    EmptyString None.

Lemma codex_last_error_event_wins_witness :
  CodexCliProvider.createCodexCliFetch 0 demo_parse "gpt-5-codex"
    BridgeSpec.stream_request demo_exec
  = CodexCliProvider.error_response 500
      [ ("message", JString "stream disconnected");
        ("type", JString "codex_cli_error") ].
Proof.
  destruct (codex_last_error_event_wins 0 demo_parse "gpt-5-codex" demo_exec eq_refl)
    as [_ Hfetch].
  assert (last (omap (error_of demo_parse) (lines_of (CodexCliProvider.stdout demo_exec)))
          = Some "stream disconnected") as Hlast by (vm_compute; reflexivity).
  rewrite Hlast in Hfetch. apply Hfetch.
Defined.

End BridgeMore.

(** ** Routing, from the settings to the executable *)

Module RoutingMore.
Import Js GetModelClient GetModelClientSpec.
Local Open Scope list_scope.

(** X23.  [selectCliModel] answers with a model of the allowlist whenever
    the allowlist is not empty, with the requested model whenever that is
    allowed or there is no allowlist, and choosing again from its answer
    changes nothing. *)
Theorem selectCliModel_allowed requestedModel preferredModels :
  (∀ first rest, preferredModels = Some (first :: rest) →
     selectCliModel requestedModel preferredModels ∈ first :: rest) ∧
  (selectCliModel requestedModel preferredModels = requestedModel ↔
   ∀ first rest, preferredModels = Some (first :: rest) →
                 requestedModel ∈ first :: rest) ∧
  selectCliModel (selectCliModel requestedModel preferredModels) preferredModels
    = selectCliModel requestedModel preferredModels.
Proof.
  assert (∀ x (l : list string), existsb (String.eqb x) l = true ↔ x ∈ l) as Hin.
  { intros x l. rewrite existsb_exists, list_elem_of_In. split.
    - intros (y & Hy & Heq). by apply String.eqb_eq in Heq as ->.
    - intros Hx. exists x. split; [done|apply String.eqb_refl]. }
  unfold selectCliModel.
  destruct preferredModels as [[|first rest]|].
  1, 3: split; [done|]; split; [by split|done].
  destruct (existsb (String.eqb requestedModel) (first :: rest)) eqn:Hex.
  - apply Hin in Hex. split; [by intros ? ? [= <- <-]|].
    split; [split; [by intros _ ? ? [= <- <-]|done]|].
    apply Hin in Hex. by rewrite Hex.
  - split; [intros ? ? [= <- <-]; set_solver|].
    split.
    + split.
      * intros ->. exfalso. cbn in Hex. by rewrite String.eqb_refl in Hex.
      * intros Hall. specialize (Hall first rest eq_refl).
        apply Hin in Hall. congruence.
    + cbn [existsb]. by rewrite String.eqb_refl.
Qed.

(** *** The errors of the routing itself *)

Definition api_key_missing (p : Provider) : string :=
  match p with
  | google => "Gemini API key is not configured. Provide it in Settings or set GEMINI_API_KEY."
  | openai => "OpenAI API key is required when using API mode or fallback. Provide it in Settings or set OPENAI_API_KEY."
  end.

(** X24.  All the routing of the two cases does, for any detector and
    model factory.  In remote-only mode (also the default) it creates the
    API client, or rejects because the API key is missing.  In the other
    modes it returns the CLI model if the local attempt gives one, and
    else rejects with the local error, or rejects because no API key is
    there for the fallback, or creates the API client.  So the check of
    [shouldUseApiFallback] in [case "openai"] never fails: its message,
    "Codex CLI is not available and API fallback is disabled", is not an
    error of the routing, and neither is the missing-key message of
    remote-only mode once a local attempt was made. *)
Theorem routing_case_analysis ensureCliAvailable createCliModel JSON_stringify
    (p : Provider) name apiKey st :
  route ensureCliAvailable createCliModel JSON_stringify p name apiKey st =
    if is_api (default api (st ≫= connectionMode)) then
      match apiKey with
      | Some k =>
          if truthy_str k
          then ([CreateApiProvider k], inr (client (provider_id p) (ApiModel k name)))
          else ([], inl (ErrorObject (api_key_missing p)))
      | None => ([], inl (ErrorObject (api_key_missing p)))
      end
    else
      match local_attempt ensureCliAvailable createCliModel p name apiKey st with
      | (calls, inr cliModel) => (calls, inr (client (provider_id p) cliModel))
      | (calls, inl error) =>
          if negb (is_auto (default api (st ≫= connectionMode))
                   || default true (st ≫= cliFallbackToApi))
          then (calls, inl (ErrorObject (describe JSON_stringify (cli_failed p) error)))
          else match apiKey with
               | Some k =>
                   if truthy_str k
                   then (CreateApiProvider k :: calls,
                         inr (client (provider_id p) (ApiModel k name)))
                   else (calls, inl (ErrorObject (no_credential_for_fallback p)))
               | None => (calls, inl (ErrorObject (no_credential_for_fallback p)))
               end
      end.
Proof.
  destruct (st ≫= connectionMode) as [m|] eqn:Hm.
  - change (default api (Some m)) with m.
    destruct (is_api m) eqn:Hapi.
    + destruct m; try done.
      destruct p; cbn [route provider_id api_key_missing];
        unfold getRegularModelClient_google, getRegularModelClient_openai;
        rewrite Hm; cbn;
        (destruct apiKey as [k|]; [destruct (truthy_str k)|]; reflexivity).
    + by rewrite (route_local _ _ _ p name apiKey st m Hm Hapi).
  - change (default api None) with api. cbn [is_api].
    destruct p; cbn [route provider_id api_key_missing];
      unfold getRegularModelClient_google, getRegularModelClient_openai;
      rewrite Hm; cbn;
      (destruct apiKey as [k|]; [destruct (truthy_str k)|]; reflexivity).
Qed.

(** *** The routing with the detectors plugged in *)

(** What either case does once its local attempt has thrown an [Error]
    with the given message, by [allowFallback] and the API key. *)
Definition after_local_failure (p : Provider) (name : string)
    (apiKey : option string) (st : option ProviderSetting) (m : ConnectionMode)
    (message : string) : list Call * (Thrown + Clients) :=
  let calls :=
    [EnsureCliAvailable (st ≫= cliPath) (default true (st ≫= cliAutoDetect))] in
  if negb (is_auto m || default true (st ≫= cliFallbackToApi))
  then (calls, inl (ErrorObject message))
  else match apiKey with
       | Some k =>
           if truthy_str k
           then (CreateApiProvider k :: calls,
                 inr (client (provider_id p) (ApiModel k name)))
           else (calls, inl (ErrorObject (no_credential_for_fallback p)))
       | None => (calls, inl (ErrorObject (no_credential_for_fallback p)))
       end.

(** What either case does once the detector has given a path. *)
Definition with_cli_model (p : Provider) (name : string)
    (withKey : option string) (st : option ProviderSetting) (path : string)
    : list Call * (Thrown + Clients) :=
  ([CreateCliModel (selectCliModel name (st ≫= cliPreferredModels)) path;
    EnsureCliAvailable (st ≫= cliPath) (default true (st ≫= cliAutoDetect))],
   inr (client (provider_id p)
          (CliModel (selectCliModel name (st ≫= cliPreferredModels)) path
                    (st ≫= cliTimeoutMs) withKey))).

Section Host.
Variable access_X_OK : string → bool.
Variable getEnvVar : string → option string.
Variable process_env_PATH : option string.
Variable process_platform : string.
Variable JSON_stringify : JSON → string.

Section Google.
Variable runCommand :
  string → list string → Z → string + GeminiCliDetector.CommandResult.

(** What [case "google"] sees of [ensureGeminiCliAvailable]: the thrown
    [Error], or the path, availability and message of the answer. *)
Definition gemini_ensure (explicitPath : option string) (autoDetect : bool)
    : Thrown + CliInfo :=
  match GeminiCliProvider.ensureGeminiCliAvailable access_X_OK runCommand getEnvVar
          process_env_PATH process_platform explicitPath (Some autoDetect) with
  | inl message => inl (ErrorObject message)
  | inr info => inr (mkCliInfo (GeminiCliDetector.info_path info)
                               (GeminiCliDetector.isAvailable info)
                               (GeminiCliDetector.errorMessage info))
  end.

(** [createGeminiCliModel] builds the model and does not throw. *)
Definition gemini_create (cliModelId cliPath : string) (timeoutMs : option Z)
    (apiKey : option string) : Thrown + Model :=
  inr (CliModel cliModelId cliPath timeoutMs apiKey).

Abbreviation google_route :=
  (getRegularModelClient_google gemini_ensure gemini_create JSON_stringify).
Abbreviation gemini_attempt :=
  (GeminiCliDetectorMore.attempt access_X_OK runCommand process_platform).
Abbreviation gemini_candidates :=
  (GeminiCliDetector.candidates getEnvVar process_env_PATH).
Abbreviation gemini_readVersion := (GeminiCliDetectorFaults.readVersion runCommand).

(** The options [case "google"] hands to the detector. *)
Definition detector_options (st : option ProviderSetting)
    : GeminiCliDetector.DetectGeminiCliOptions :=
  GeminiCliDetector.mkOptions (st ≫= cliPath)
    (Some (default true (st ≫= cliAutoDetect))) None.

(** X25.  [case "google"] with the real detector, in a mode other than
    remote-only.  The search of the detector stops at the first candidate
    at which the lookup throws or which qualifies.  If it qualifies and
    [--version] can be started, the client is the CLI model for that path,
    the chosen model and the configured timeout, and the remote factory is
    not called.  In the other cases the local attempt has failed, and by
    the fallback policy the call rejects with the local error's message, or
    rejects for want of an API key, or returns the API client; the local
    error is the thrown message when a lookup or [--version] throws, also
    when a later candidate would qualify, and "Gemini CLI executable not
    found" when no candidate qualifies or throws.  The error "Gemini CLI
    path could not be resolved." never arises. *)
Theorem google_routing_end_to_end name apiKey st m :
  st ≫= connectionMode = Some m → is_api m = false →
  (∃ pre c post p,
     gemini_candidates (detector_options st) = pre ++ c :: post ∧
     (∀ x, x ∈ pre → gemini_attempt x = inr None) ∧
     gemini_attempt c = inr (Some p) ∧
     google_route name apiKey st
     = match gemini_readVersion p GeminiCliDetector.DEFAULT_TIMEOUT with
       | inr version => with_cli_model google name None st p
       | inl message => after_local_failure google name apiKey st m message
       end) ∨
  ((∀ x, x ∈ gemini_candidates (detector_options st) →
         gemini_attempt x = inr None) ∧
   google_route name apiKey st
   = after_local_failure google name apiKey st m
       "Gemini CLI executable not found") ∨
  (∃ pre c post message,
     gemini_candidates (detector_options st) = pre ++ c :: post ∧
     (∀ x, x ∈ pre → gemini_attempt x = inr None) ∧
     gemini_attempt c = inl message ∧
     google_route name apiKey st
     = after_local_failure google name apiKey st m message).
Proof.
  intros Hm Hapi.
  pose proof (route_local gemini_ensure gemini_create JSON_stringify google
                name apiKey st m Hm Hapi) as Hroute.
  cbn [route local_attempt provider_id cli_failed] in Hroute. rewrite Hroute.
  unfold try_cli, gemini_ensure, after_local_failure, with_cli_model.
  fold (detector_options st).
  destruct (GeminiCliDetectorMore.ensureGeminiCliAvailable_cases access_X_OK
              runCommand getEnvVar process_platform process_env_PATH
              (st ≫= cliPath) (Some (default true (st ≫= cliAutoDetect))))
    as [(pre & c & post & p & Hl & Hpre & Hc & Ht & Ha & ->)
       |[[Hnone ->]|(pre & c & post & msg & Hl & Hpre & Hc & ->)]].
  - left. exists pre, c, post, p. do 3 (split; [done|]).
    destruct (gemini_readVersion p GeminiCliDetector.DEFAULT_TIMEOUT); cbn.
    + by destruct (negb (is_auto m || default true (st ≫= cliFallbackToApi))).
    + by rewrite Ht.
  - right. left. split; [done|]. cbn.
    by destruct (negb (is_auto m || default true (st ≫= cliFallbackToApi))).
  - right. right. exists pre, c, post, msg. do 3 (split; [done|]). cbn.
    by destruct (negb (is_auto m || default true (st ≫= cliFallbackToApi))).
Qed.

End Google.

Section OpenAI.
Variable runCommand :
  string → list string → Z → string + CodexCliDetector.CommandResult.

Definition codex_ensure (explicitPath : option string) (autoDetect : bool)
    : Thrown + CliInfo :=
  match CodexCliProvider.ensureCodexCliAvailable access_X_OK runCommand getEnvVar
          process_env_PATH process_platform explicitPath (Some autoDetect) with
  | inl message => inl (ErrorObject message)
  | inr info => inr (mkCliInfo (CodexCliDetector.info_path info)
                               (CodexCliDetector.isAvailable info)
                               (CodexCliDetector.errorMessage info))
  end.

(** [createCodexCliModel] builds the model and does not throw. *)
Definition codex_create (cliModelId cliPath : string) (timeoutMs : option Z)
    (apiKey : option string) : Thrown + Model :=
  inr (CliModel cliModelId cliPath timeoutMs apiKey).

Abbreviation openai_route :=
  (getRegularModelClient_openai codex_ensure codex_create JSON_stringify).
Abbreviation codex_attempt :=
  (CodexCliDetectorMore.attempt access_X_OK runCommand process_platform).
Abbreviation codex_candidates :=
  (CodexCliDetector.candidates getEnvVar process_env_PATH).
Abbreviation codex_readVersion := (CodexCliDetector.readVersion runCommand).

Definition codex_detector_options (st : option ProviderSetting)
    : CodexCliDetector.DetectCodexCliOptions :=
  CodexCliDetector.mkOptions (st ≫= cliPath)
    (Some (default true (st ≫= cliAutoDetect))) None.

(** X26.  [case "openai"] with the real detector, in a mode other than
    remote-only.  The search of the detector stops at the first candidate
    at which the lookup throws or which qualifies.  If it qualifies and
    [--version] can be started, the client is the CLI model for that path,
    the chosen model and the configured timeout, the API key is handed to
    the CLI model factory, and the remote factory is not called.  In the
    other cases the local attempt has failed, and by the fallback policy
    the call rejects with the local error's message, or rejects for want of
    an API key, or returns the API client; the local error is the thrown
    message when a lookup or [--version] throws, also when a later
    candidate would qualify, and "Codex CLI executable not found" when no
    candidate qualifies or throws.  The error "Codex CLI path could not be
    resolved." never arises. *)
Theorem openai_routing_end_to_end name apiKey st m :
  st ≫= connectionMode = Some m → is_api m = false →
  (∃ pre c post p,
     codex_candidates (codex_detector_options st) = pre ++ c :: post ∧
     (∀ x, x ∈ pre → codex_attempt x = inr None) ∧
     codex_attempt c = inr (Some p) ∧
     openai_route name apiKey st
     = match codex_readVersion p CodexCliDetector.DEFAULT_TIMEOUT with
       | inr version => with_cli_model openai name apiKey st p
       | inl message => after_local_failure openai name apiKey st m message
       end) ∨
  ((∀ x, x ∈ codex_candidates (codex_detector_options st) →
         codex_attempt x = inr None) ∧
   openai_route name apiKey st
   = after_local_failure openai name apiKey st m
       "Codex CLI executable not found") ∨
  (∃ pre c post message,
     codex_candidates (codex_detector_options st) = pre ++ c :: post ∧
     (∀ x, x ∈ pre → codex_attempt x = inr None) ∧
     codex_attempt c = inl message ∧
     openai_route name apiKey st
     = after_local_failure openai name apiKey st m message).
Proof.
  intros Hm Hapi.
  pose proof (route_local codex_ensure codex_create JSON_stringify openai
                name apiKey st m Hm Hapi) as Hroute.
  cbn [route local_attempt provider_id cli_failed] in Hroute. rewrite Hroute.
  unfold try_cli, codex_ensure, after_local_failure, with_cli_model.
  fold (codex_detector_options st).
  destruct (CodexCliDetectorMore.ensureCodexCliAvailable_cases access_X_OK
              runCommand getEnvVar process_platform process_env_PATH
              (st ≫= cliPath) (Some (default true (st ≫= cliAutoDetect))))
    as [(pre & c & post & p & Hl & Hpre & Hc & Ht & Ha & ->)
       |[[Hnone ->]|(pre & c & post & msg & Hl & Hpre & Hc & ->)]].
  - left. exists pre, c, post, p. do 3 (split; [done|]).
    destruct (codex_readVersion p CodexCliDetector.DEFAULT_TIMEOUT); cbn.
    + by destruct (negb (is_auto m || default true (st ≫= cliFallbackToApi))).
    + by rewrite Ht.
  - right. left. split; [done|]. cbn.
    by destruct (negb (is_auto m || default true (st ≫= cliFallbackToApi))).
  - right. right. exists pre, c, post, msg. do 3 (split; [done|]). cbn.
    by destruct (negb (is_auto m || default true (st ≫= cliFallbackToApi))).
Qed.

End OpenAI.

End Host.

(** *** Two hosts *)

(** A host with the Gemini CLI installed, whose process runner does not
    throw. *)
Definition demo_gemini_run (command : string) (args : list string) (t : Z)
    : string + GeminiCliDetector.CommandResult :=
  inr (GeminiCliDetectorSpec.demo_run command args t).

Definition demo_cli_only : option ProviderSetting :=
  Some (mkSetting (Some cli) None None (Some false) (Some ["gemini-2.5-flash"]) None).

Lemma google_routing_end_to_end_witness :
  ∃ p,
    getRegularModelClient_google
      (gemini_ensure GeminiCliDetectorSpec.demo_access (λ _, None) (Some "/usr/bin")
         "linux" demo_gemini_run)
      gemini_create demo_stringify "gemini-2.5-pro" (Some "key") demo_cli_only
    = ([CreateCliModel "gemini-2.5-flash" p; EnsureCliAvailable None true],
       inr (client "google" (CliModel "gemini-2.5-flash" p None None))).
Proof.
  destruct (google_routing_end_to_end GeminiCliDetectorSpec.demo_access (λ _, None)
              (Some "/usr/bin") "linux" demo_stringify demo_gemini_run
              "gemini-2.5-pro" (Some "key") demo_cli_only cli eq_refl eq_refl)
    as [(pre & c & post & p & _ & _ & _ & Hroute)
       |[[Hnone _]|(pre & c & post & message & Hl & _ & Hc & _)]].
  - exists p. exact Hroute.
  - specialize (Hnone "/usr/local/bin/gemini").
    exfalso. assert (inr (Some "/usr/local/bin/gemini") = @inr string _ None) as Habs;
      [|done].
    apply Hnone. vm_compute. set_solver.
  - exfalso. assert (c ∈ pre ++ c :: post) as Hin by set_solver.
    rewrite <- Hl in Hin. vm_compute in Hin. revert Hc.
    repeat (apply elem_of_cons in Hin as [->|Hin]; [by vm_compute|]).
    by apply elem_of_nil in Hin.
Defined.

(** A host with the Codex CLI installed, whose [spawn] throws on a NUL
    byte, and settings whose explicit path is a bare name with one. *)
Definition NUL : string := String "000" EmptyString.
Definition NUL_MESSAGE : string :=
  "The argument 'args[0]' must be a string without null bytes.".

Definition demo_codex_access (p : string) : bool :=
  String.eqb p "/usr/local/bin/codex".
Definition demo_codex_run (command : string) (args : list string) (t : Z)
    : string + CodexCliDetector.CommandResult :=
  if existsb (λ a, Js.includes a NUL) (command :: args)
  then inl NUL_MESSAGE
  else inr (CodexCliDetector.mkCommandResult false EmptyString "not found").

Definition demo_bad_path : option ProviderSetting :=
  Some (mkSetting (Some cli) (Some ("codex" ++ NUL)%string) None (Some false)
                  None None).

Lemma openai_routing_end_to_end_witness :
  demo_codex_access "/usr/local/bin/codex" = true ∧
  getRegularModelClient_openai
    (codex_ensure demo_codex_access (λ _, None) (Some "/usr/bin")
       "linux" demo_codex_run)
    codex_create demo_stringify "gpt-4.1" (Some "key") demo_bad_path
  = ([EnsureCliAvailable (Some ("codex" ++ NUL)%string) true],
     inl (ErrorObject NUL_MESSAGE)).
Proof.
  split; [reflexivity|].
  destruct (openai_routing_end_to_end demo_codex_access (λ _, None)
              (Some "/usr/bin") "linux" demo_stringify demo_codex_run
              "gpt-4.1" (Some "key") demo_bad_path cli eq_refl eq_refl)
    as [(pre & c & post & p & Hl & Hpre & Hc & _)
       |[[Hnone _]|(pre & c & post & message & Hl & Hpre & Hc & Hroute)]].
  - exfalso. vm_compute in Hl. destruct pre as [|x pre]; inversion Hl; subst.
    + by vm_compute in Hc.
    + specialize (Hpre _ (list_elem_of_here _ _)). by vm_compute in Hpre.
  - exfalso. specialize (Hnone ("codex" ++ NUL)%string).
    assert (@inl string (option string) NUL_MESSAGE = inr None) as Habs; [|done].
    apply Hnone. vm_compute. set_solver.
  - vm_compute in Hl. destruct pre as [|x pre]; inversion Hl; subst.
    + assert (message = NUL_MESSAGE) as -> by (vm_compute in Hc; by inversion Hc).
      exact Hroute.
    + exfalso. specialize (Hpre _ (list_elem_of_here _ _)). by vm_compute in Hpre.
Defined.

End RoutingMore.

(** ** The entry point: [getModelClient] *)

Module ModelSelectionMore.
Import Js JsFacts JsMore ModelSelection.
Local Open Scope list_scope.
#[local] Arguments String.append !_ _ / : simpl nomatch.

Lemma before_prefix sep s : ∃ rest, s = (before sep s ++ rest)%string.
Proof.
  induction s as [|c s [rest IH]]; cbn [before].
  - destruct (startsWith EmptyString sep); by exists EmptyString.
  - destruct (startsWith (String c s) sep).
    + by exists (String c s).
    + exists rest. cbn. by rewrite <- IH.
Qed.

Lemma startsWith_prefix s t rest :
  startsWith s t = true → startsWith (s ++ rest)%string t = true.
Proof.
  rewrite !startsWith_app. intros [r ->]. exists (r ++ rest)%string.
  by rewrite app_assoc_str.
Qed.

(** What is cut off at the first occurrence of a separator does not
    contain the separator. *)
Lemma before_excludes sep s :
  truthy_str sep = true → includes (before sep s) sep = false.
Proof.
  intros Hsep. induction s as [|c s IH]; cbn [before].
  - destruct (startsWith EmptyString sep) eqn:Hs; cbn; by destruct sep.
  - destruct (startsWith (String c s) sep) eqn:Hs.
    + cbn. by destruct sep.
    + cbn [includes]. rewrite IH, orb_false_r.
      destruct (startsWith (String c (before sep s)) sep) eqn:Hb; [|done].
      destruct (before_prefix sep s) as [rest Hrest].
      apply (startsWith_prefix _ _ rest) in Hb. cbn in Hb.
      rewrite <- Hrest in Hb. congruence.
Qed.

Lemma before_unchanged sep s :
  includes s sep = false → before sep s = s.
Proof.
  induction s as [|c s IH]; cbn [before includes].
  - rewrite orb_false_r. by intros ->.
  - intros Hi. apply orb_false_iff in Hi as [-> Hi]. by rewrite IH.
Qed.

Section Entry.
Variable RegularClients : Type.
Variable getRegularModelClient :
  LargeLanguageModel → UserSettings → LanguageModelProvider → string + RegularClients.
Variable allProviders : list LanguageModelProvider.
Variable FREE_OPENROUTER_MODEL_NAMES : list string.
Variable dyadEngineUrl : option string.
Variable dyadGatewayUrl : option string.
Variable getEnvVar : string → option string.

Abbreviation getModelClient :=
  (getModelClient RegularClients getRegularModelClient allProviders
     FREE_OPENROUTER_MODEL_NAMES dyadEngineUrl dyadGatewayUrl getEnvVar).
Abbreviation find_provider := (find_provider allProviders).
Abbreviation auto_apiKey := (auto_apiKey allProviders getEnvVar).
Abbreviation dyad_pro := (dyad_pro RegularClients dyadEngineUrl dyadGatewayUrl).

(** The condition of the Dyad Pro branch. *)
Definition pro_override (settings : UserSettings)
    (providerConfig : LanguageModelProvider) : bool :=
  truthy_opt (apiKey_value settings "auto") && truthy_flag (enableDyadPro settings)
  && (bool_decide (gatewayPrefix providerConfig ≠ None) || truthy_opt dyadEngineUrl).

(** A call for a provider other than ["auto"] makes no call of
    [getModelClient]. *)
Lemma getModelClient_specific self model settings :
  String.eqb (provider model) "auto" = false →
  getModelClient_body RegularClients getRegularModelClient allProviders
    FREE_OPENROUTER_MODEL_NAMES dyadEngineUrl dyadGatewayUrl getEnvVar
    self model settings
  = getModelClient 1 model settings ∧
  is_Some (getModelClient 1 model settings).
Proof.
  intros Hne. cbn [ModelSelection.getModelClient].
  unfold getModelClient_body. rewrite Hne.
  destruct (find_provider (provider model)) as [cfg|]; [|by split].
  destruct (_ && _); [by split|].
  destruct (getRegularModelClient model settings cfg); by split.
Qed.

Lemma AUTO_MODELS_specific (P : LargeLanguageModel → bool) am :
  List.find P AUTO_MODELS = Some am → String.eqb (provider am) "auto" = false.
Proof.
  intros Hf. apply find_some in Hf as [Hin _].
  unfold AUTO_MODELS in Hin. cbn in Hin.
  destruct Hin as [<-|[<-|[<-|[<-|[]]]]]; by vm_compute.
Qed.

(** X27.  [getModelClient] terminates: it calls itself at most once,
    from the loop over [AUTO_MODELS] and for a provider that is not
    ["auto"], so depth 2 is enough for every model and every settings, and
    more depth changes nothing. *)
Theorem getModelClient_terminates fuel model settings :
  is_Some (getModelClient 2 model settings) ∧
  getModelClient (S (S fuel)) model settings = getModelClient 2 model settings.
Proof.
  change (getModelClient 2 model settings)
    with (getModelClient_body RegularClients getRegularModelClient allProviders
            FREE_OPENROUTER_MODEL_NAMES dyadEngineUrl dyadGatewayUrl getEnvVar
            (getModelClient 1) model settings).
  change (getModelClient (S (S fuel)) model settings)
    with (getModelClient_body RegularClients getRegularModelClient allProviders
            FREE_OPENROUTER_MODEL_NAMES dyadEngineUrl dyadGatewayUrl getEnvVar
            (getModelClient (S fuel)) model settings).
  unfold getModelClient_body.
  destruct (find_provider (provider model)) as [cfg|]; [|by split].
  destruct (_ && _); [by split|].
  destruct (String.eqb (provider model) "auto"); cycle 1.
  { destruct (getRegularModelClient model settings cfg); by split. }
  destruct (String.eqb (name model) "free").
  { destruct (find_provider "openrouter") as [orp|]; [|by split].
    destruct (free_models _ _ _ _ _); by split. }
  destruct (List.find _ AUTO_MODELS) as [am|] eqn:Hfind; [|by split].
  apply AUTO_MODELS_specific in Hfind.
  change (getModelClient (S fuel) (mkModel (provider am) (name am)) settings)
    with (getModelClient_body RegularClients getRegularModelClient allProviders
            FREE_OPENROUTER_MODEL_NAMES dyadEngineUrl dyadGatewayUrl getEnvVar
            (getModelClient fuel) (mkModel (provider am) (name am)) settings).
  destruct (getModelClient_specific (getModelClient fuel)
              (mkModel (provider am) (name am)) settings Hfind) as [-> Hsome].
  by split.
Qed.

(** X28.  For the ["auto"] provider (and a name other than ["free"]),
    when the Dyad Pro branch does not apply, [getModelClient] answers as
    if the first entry of [AUTO_MODELS] whose provider has an API key,
    saved or in the environment, had been asked for; only API keys are
    looked at, so a provider that is set up with nothing but its CLI is
    passed over.  Without any such entry it throws. *)
Theorem auto_is_first_model_with_key modelName settings providerConfig :
  String.eqb modelName "free" = false →
  find_provider "auto" = Some providerConfig →
  pro_override settings providerConfig = false →
  getModelClient 2 (mkModel "auto" modelName) settings =
    match List.find (λ autoModel, truthy_opt (auto_apiKey settings autoModel))
                    AUTO_MODELS with
    | Some autoModel => getModelClient 2 autoModel settings
    | None =>
        Some (inl "No API keys available for any model supported by the 'auto' provider.")
    end.
Proof.
  intros Hname Hcfg Hpro.
  change (getModelClient 2 (mkModel "auto" modelName) settings)
    with (getModelClient_body RegularClients getRegularModelClient allProviders
            FREE_OPENROUTER_MODEL_NAMES dyadEngineUrl dyadGatewayUrl getEnvVar
            (getModelClient 1) (mkModel "auto" modelName) settings).
  unfold getModelClient_body at 1. cbn [provider name]. rewrite Hcfg.
  unfold pro_override in Hpro. rewrite Hpro, Hname.
  change (String.eqb "auto" "auto") with true. cbn iota.
  destruct (List.find _ AUTO_MODELS) as [am|] eqn:Hfind; [|done].
  apply AUTO_MODELS_specific in Hfind.
  change (getModelClient 2 am settings)
    with (getModelClient_body RegularClients getRegularModelClient allProviders
            FREE_OPENROUTER_MODEL_NAMES dyadEngineUrl dyadGatewayUrl getEnvVar
            (getModelClient 1) am settings).
  destruct (getModelClient_specific (getModelClient 1) am settings Hfind) as [-> _].
  by destruct am.
Qed.

(** X29.  When the Dyad Pro branch applies to the provider of the model,
    the answer is the Dyad client, whatever [getRegularModelClient] would
    do and also for the ["auto"] provider: the engine when one of the three
    Pro features is on, else the gateway.  Its model id is the gateway
    prefix, if there is one, followed by the model name cut at its first
    [:free], and what is cut contains no [:free]. *)
Theorem dyad_pro_overrides_routing fuel model settings providerConfig :
  find_provider (provider model) = Some providerConfig →
  pro_override settings providerConfig = true →
  getModelClient (S fuel) model settings
    = Some (inr (dyad_pro model settings providerConfig
                   (default EmptyString (apiKey_value settings "auto")))) ∧
  ∃ client isEngineEnabled modelId,
    dyad_pro model settings providerConfig
      (default EmptyString (apiKey_value settings "auto"))
      = DyadPro RegularClients client (provider model) isEngineEnabled ∧
    isEngineEnabled
      = or_flag (or_flag (enableProSmartFilesContextMode settings)
                         (enableProLazyEditsMode settings))
                (enableProWebSearch settings) ∧
    (truthy_flag isEngineEnabled = true →
     ∃ options,
       client = DyadEngine (default EmptyString (apiKey_value settings "auto"))
                  (default "https://engine.dyad.sh/v1" dyadEngineUrl)
                  (provider model) options modelId) ∧
    (truthy_flag isEngineEnabled = false →
     client = DyadGateway (default EmptyString (apiKey_value settings "auto"))
                (default "https://llm-gateway.dyad.sh/v1" dyadGatewayUrl) modelId) ∧
    modelId = (default EmptyString (gatewayPrefix providerConfig)
               ++ before ":free" (name model))%string ∧
    includes (before ":free" (name model)) ":free" = false ∧
    (includes (name model) ":free" = false → before ":free" (name model) = name model).
Proof.
  intros Hcfg Hpro. split.
  - cbn [ModelSelection.getModelClient]. unfold getModelClient_body. rewrite Hcfg.
    unfold pro_override in Hpro. by rewrite Hpro.
  - unfold ModelSelection.dyad_pro.
    set (flag := or_flag _ _). set (modelId := (_ ++ before _ _)%string).
    eexists _, flag, modelId. split; [reflexivity|]. split; [done|].
    split; [intros ->; by eexists|]. split; [by intros ->|].
    split.
    + unfold modelId. destruct (gatewayPrefix providerConfig) as [[|c g]|]; done.
    + split; [by apply before_excludes|apply before_unchanged].
Qed.

End Entry.

(** *** Two settings *)

Definition demo_providers : list LanguageModelProvider :=
  [ mkProvider "auto" None None;
    mkProvider "google" (Some "GEMINI_API_KEY") (Some "gemini/");
    mkProvider "openrouter" (Some "OPENROUTER_API_KEY") (Some "openrouter/");
    mkProvider "anthropic" (Some "ANTHROPIC_API_KEY") (Some "anthropic/");
    mkProvider "openai" (Some "OPENAI_API_KEY") (Some EmptyString) ].

(** A regular client that tells which model it was made for. *)
Definition demo_regular (model : LargeLanguageModel) (settings : UserSettings)
    (providerConfig : LanguageModelProvider) : string + LargeLanguageModel :=
  inr model.

(** Only Anthropic has a key; Dyad Pro is off. *)
Definition demo_anthropic_only : UserSettings :=
  mkSettings (λ p, if String.eqb p "anthropic" then Some "sk-ant" else None)
             None None None None None None.

(** Dyad Pro is on, with none of the engine features. *)
Definition demo_pro : UserSettings :=
  mkSettings (λ p, if String.eqb p "auto" then Some "dyad-key" else None)
             (Some true) None None None None None.

Lemma auto_is_first_model_with_key_witness :
  getModelClient LargeLanguageModel demo_regular demo_providers [] None None
    (λ _, None) 2 (mkModel "auto" "auto") demo_anthropic_only
  = Some (inr (Regular LargeLanguageModel
                 (mkModel "anthropic" "claude-sonnet-4-20250514"))).
Proof.
  rewrite (auto_is_first_model_with_key LargeLanguageModel demo_regular
             demo_providers [] None None (λ _, None) "auto" demo_anthropic_only
             (mkProvider "auto" None None)); reflexivity.
Defined.

Lemma dyad_pro_overrides_routing_witness :
  getModelClient LargeLanguageModel demo_regular demo_providers [] None None
    (λ _, None) 1 (mkModel "openrouter" "qwen/qwen3-coder:free") demo_pro
  = Some (inr (DyadPro LargeLanguageModel
                 (DyadGateway "dyad-key" "https://llm-gateway.dyad.sh/v1"
                              "openrouter/qwen/qwen3-coder")
                 "openrouter" None)).
Proof.
  destruct (dyad_pro_overrides_routing LargeLanguageModel demo_regular
              demo_providers [] None None (λ _, None) 0
              (mkModel "openrouter" "qwen/qwen3-coder:free") demo_pro
              (mkProvider "openrouter" (Some "OPENROUTER_API_KEY") (Some "openrouter/"))
              eq_refl eq_refl) as [-> _].
  reflexivity.
Defined.

End ModelSelectionMore.
